(** * YouTube transcript extractor: the retrieval pipeline of [src/index.ts]

    A shallow embedding of the class [YouTubeTranscriptExtractor]
    (identifier normalisation, the file cache with its 24 hour expiry,
    the two fetch strategies, the retry loop with fallback) and of the
    tool handler that drives it, followed by the properties the
    specification states about them.  The first version of the
    extractor, which the repository also holds, is embedded as [Legacy]
    and compared with the current one.

    Conventions.
    - A JavaScript string is a [string]: its characters stand for the
      UTF-16 code units below 256.
    - JavaScript integers (time stamps, delays, error codes) are [Z].
    - The outside world (file system, clock, the captions library, the
      HTTP client) is an [Env] of oracles indexed by the number of calls
      made so far; the mutable part is a [World] threaded through a state
      and exception monad [M]. *)

From Stdlib Require Import ZArith Lia Bool List Ascii String.
From Stdlib Require Import DecimalString DecimalZ.
From stdpp Require Import base gmap strings.

Open Scope string_scope.
Open Scope Z_scope.

(* ===================================================================== *)
(** * Part I: definitions                                                *)
(* ===================================================================== *)

(** ** JavaScript string primitives used by the source *)

Module JsString.

(** [s.slice(n)] for a non-negative [n]. *)
Fixpoint slice_from (n : nat) (s : string) : string :=
  match n, s with
  | O, _ => s
  | S n', String _ s' => slice_from n' s'
  | S _, EmptyString => EmptyString
  end.

(** The first [n] characters of [s]. *)
Fixpoint take (n : nat) (s : string) : string :=
  match n, s with
  | S n', String c s' => String c (take n' s')
  | _, _ => EmptyString
  end.

(** [s.startsWith(p)]. *)
Fixpoint startsWith (p s : string) : bool :=
  match p, s with
  | EmptyString, _ => true
  | String a p', String b s' => Ascii.eqb a b && startsWith p' s'
  | String _ _, EmptyString => false
  end.

(** [s.includes(sub)]. *)
Fixpoint includes (sub s : string) : bool :=
  startsWith sub s ||
  match s with
  | EmptyString => false
  | String _ s' => includes sub s'
  end.

(** [s.split(sep)[0]] for a one-character separator: the text before
    the first occurrence of [sep], or all of [s]. *)
Fixpoint split_head (sep : ascii) (s : string) : string :=
  match s with
  | EmptyString => EmptyString
  | String c s' => if Ascii.eqb c sep then EmptyString else String c (split_head sep s')
  end.

(** [s.split(sep)] for a one-character separator. *)
Fixpoint split (sep : ascii) (s : string) : list string :=
  match s with
  | EmptyString => [EmptyString]
  | String c s' =>
      if Ascii.eqb c sep then EmptyString :: split sep s'
      else match split sep s' with
           | x :: xs => String c x :: xs
           | [] => [String c EmptyString]
           end
  end.

(** [xs.join(sep)]. *)
Fixpoint join (sep : string) (xs : list string) : string :=
  match xs with
  | [] => EmptyString
  | [x] => x
  | x :: rest => x ++ sep ++ join sep rest
  end.

(** White space and line terminators removed by [trim], among the code
    units below 256: TAB, LF, VT, FF, CR, SPACE and NBSP. *)
Definition is_space (c : ascii) : bool :=
  let n := nat_of_ascii c in
  ((9 <=? n)%nat && (n <=? 13)%nat) || (n =? 32)%nat || (n =? 160)%nat.

Fixpoint trimStart (s : string) : string :=
  match s with
  | String c s' => if is_space c then trimStart s' else s
  | EmptyString => EmptyString
  end.

(** Drops trailing white space: a character is kept when it is not a
    space or when something is kept after it. *)
Fixpoint trimEnd (s : string) : string :=
  match s with
  | EmptyString => EmptyString
  | String c s' =>
      match trimEnd s' with
      | EmptyString => if is_space c then EmptyString else String c EmptyString
      | t => String c t
      end
  end.

(** [s.trim()]. *)
Definition trim (s : string) : string := trimEnd (trimStart s).

(** [s || d] on strings: the empty string is falsy. *)
Definition or_else (s d : string) : string :=
  match s with
  | EmptyString => d
  | _ => s
  end.

(** [!s] on a string. *)
Definition falsy (s : string) : bool :=
  match s with
  | EmptyString => true
  | _ => false
  end.

Definition to_lower (c : ascii) : ascii :=
  let n := nat_of_ascii c in
  if ((65 <=? n)%nat && (n <=? 90)%nat)%bool then ascii_of_nat (n + 32) else c.

Fixpoint toLowerCase (s : string) : string :=
  match s with
  | EmptyString => EmptyString
  | String c s' => String (to_lower c) (toLowerCase s')
  end.

(** Decimal rendering of an integer, as in a template literal. *)
Definition of_Z (z : Z) : string := NilZero.string_of_int (Z.to_int z).

(** Reading back a decimal integer. *)
Definition to_Z (s : string) : option Z :=
  match NilZero.int_of_string s with
  | Some d => Some (Z.of_int d)
  | None => None
  end.

End JsString.

(** ** Regular expressions

    A backtracking matcher for the fragment of ECMAScript regular
    expressions the source uses: literals, character classes, [.],
    concatenation, greedy and lazy [*], bounded repetition, groups and
    the anchors [^] and [$] (no [m] flag).  The matcher is written in
    continuation-passing style: [k] receives the index reached and the
    rest of the subject, alternatives are tried in the order the
    ECMAScript semantics prescribes. *)

Module RegExp.

Inductive regex : Type :=
| Chr (c : ascii)                              (* a literal character *)
| Class (neg : bool) (rs : list (ascii * ascii)) (* [a-z...] and [^...] *)
| Dot                                          (* . *)
| Cat (r1 r2 : regex)
| Star (r : regex)                             (* r*  *)
| LazyStar (r : regex)                         (* r*? *)
| Times (n : nat) (r : regex)                  (* r{n} *)
| Group (r : regex)                            (* (r) *)
| Bol                                          (* ^ *)
| Eol.                                         (* $ *)

(** A literal word, character by character. *)
Fixpoint Lit (w : string) : regex :=
  match w with
  | EmptyString => Times 0 Dot
  | String c EmptyString => Chr c
  | String c w' => Cat (Chr c) (Lit w')
  end.

Definition in_range (c : ascii) (r : ascii * ascii) : bool :=
  ((nat_of_ascii (fst r) <=? nat_of_ascii c)%nat && (nat_of_ascii c <=? nat_of_ascii (snd r))%nat)%bool.

Definition in_class (neg : bool) (rs : list (ascii * ascii)) (c : ascii) : bool :=
  xorb neg (existsb (in_range c) rs).

(** Line terminators below 256: LF and CR. *)
Definition is_line_terminator (c : ascii) : bool :=
  ((nat_of_ascii c =? 10)%nat || (nat_of_ascii c =? 13)%nat)%bool.

Definition one (p : ascii -> bool) (i : nat) (s : string) (k : nat -> string -> option nat) : option nat :=
  match s with
  | String a s' => if p a then k (S i) s' else None
  | EmptyString => None
  end.

Definition or_try (a b : option nat) : option nat :=
  match a with
  | Some e => Some e
  | None => b
  end.

Definition matcher : Type := nat -> string -> (nat -> string -> option nat) -> option nat.

(** The loops of [r*], [r*?] and [r{n}] over the matcher [step] of [r].
    An iteration of a star that consumes nothing is rejected, as in the
    ECMAScript RepeatMatcher; [fuel] bounds the number of iterations and
    is never exhausted when it starts above the length of the subject. *)
Fixpoint star_greedy (step : matcher) (k : nat -> string -> option nat)
    (fuel : nat) (i : nat) (s : string) : option nat :=
  match fuel with
  | O => k i s
  | S f =>
      or_try (step i s (fun j t => if (j =? i)%nat then None else star_greedy step k f j t))
             (k i s)
  end.

Fixpoint star_lazy (step : matcher) (k : nat -> string -> option nat)
    (fuel : nat) (i : nat) (s : string) : option nat :=
  match fuel with
  | O => k i s
  | S f =>
      or_try (k i s)
             (step i s (fun j t => if (j =? i)%nat then None else star_lazy step k f j t))
  end.

Fixpoint times (step : matcher) (k : nat -> string -> option nat)
    (n : nat) (i : nat) (s : string) : option nat :=
  match n with
  | O => k i s
  | S n' => step i s (fun j t => times step k n' j t)
  end.

(** [m r i s k]: match [r] against [s], which starts at index [i] of the
    subject, then continue with [k]. *)
Fixpoint m (r : regex) : matcher :=
  fun i s k =>
    match r with
    | Chr c => one (Ascii.eqb c) i s k
    | Class neg rs => one (in_class neg rs) i s k
    | Dot => one (fun a => negb (is_line_terminator a)) i s k
    | Cat r1 r2 => m r1 i s (fun j t => m r2 j t k)
    | Star r' => star_greedy (m r') k (S (String.length s)) i s
    | LazyStar r' => star_lazy (m r') k (S (String.length s)) i s
    | Times n r' => times (m r') k n i s
    | Group r' => m r' i s k
    | Bol => if (i =? 0)%nat then k i s else None
    | Eol => match s with EmptyString => k i s | String _ _ => None end
    end.

(** One match attempt at index [i]: the end index of the match. *)
Definition exec_at (r : regex) (i : nat) (s : string) : option nat :=
  m r i s (fun j _ => Some j).

(** All matches of a global regular expression, left to right.  [skip]
    counts the characters still covered by the previous match; after an
    empty match the search resumes one character further. *)
Fixpoint scan (r : regex) (skip : nat) (i : nat) (s : string) : list string :=
  match skip with
  | S k =>
      match s with
      | String _ s' => scan r k (S i) s'
      | EmptyString => []
      end
  | O =>
      match exec_at r i s with
      | Some e =>
          JsString.take (e - i) s ::
          match s with
          | String _ s' => scan r (e - i - 1) (S i) s'
          | EmptyString => []
          end
      | None =>
          match s with
          | String _ s' => scan r O (S i) s'
          | EmptyString => []
          end
      end
  end.

(** [s.match(/r/g)]: [None] is JavaScript's [null]. *)
Definition match_g (r : regex) (s : string) : option (list string) :=
  match scan r O O s with
  | [] => None
  | l => Some l
  end.

(** [s.replace(/r/g, rep)] for a replacement text without [$]. *)
Fixpoint replace_go (r : regex) (rep : string) (skip : nat) (i : nat) (s : string) : string :=
  match skip with
  | S k =>
      match s with
      | String _ s' => replace_go r rep k (S i) s'
      | EmptyString => EmptyString
      end
  | O =>
      match exec_at r i s with
      | Some e =>
          rep ++
          match s with
          | String c s' =>
              if (e =? i)%nat then String c (replace_go r rep O (S i) s')
              else replace_go r rep (e - i - 1) (S i) s'
          | EmptyString => EmptyString
          end
      | None =>
          match s with
          | String c s' => String c (replace_go r rep O (S i) s')
          | EmptyString => EmptyString
          end
      end
  end.

Definition replace_g (r : regex) (rep : string) (s : string) : string :=
  replace_go r rep O O s.

(** [/r/.test(s)]: is there a match starting anywhere in [s]? *)
Fixpoint test_from (r : regex) (i : nat) (s : string) : bool :=
  match exec_at r i s with
  | Some _ => true
  | None =>
      match s with
      | String _ s' => test_from r (S i) s'
      | EmptyString => false
      end
  end.

Definition test (r : regex) (s : string) : bool := test_from r O s.

End RegExp.

(** ** Errors

    [ErrorCode] and [McpError] come from the MCP SDK
    ([@modelcontextprotocol/sdk/types.js]).  The SDK's constructor
    [new McpError(code, message)] builds an [Error] whose [message] is
    [`MCP error ${code}: ${message}`]. *)

Inductive ErrorCode : Type :=
| ConnectionClosed
| RequestTimeout
| ParseError
| InvalidRequest
| MethodNotFound
| InvalidParams
| InternalError.

Definition code_value (c : ErrorCode) : Z :=
  match c with
  | ConnectionClosed => -32000
  | RequestTimeout => -32001
  | ParseError => -32700
  | InvalidRequest => -32600
  | MethodNotFound => -32601
  | InvalidParams => -32602
  | InternalError => -32603
  end.

(** A thrown value: [mcp_code] is [Some c] exactly for instances of
    [McpError]; other errors ([Error], [TypeError], rejections of the
    libraries) carry a message only. *)
Record JsError : Type := mkError {
  mcp_code : option ErrorCode;
  message : string
}.

Definition new_Error (msg : string) : JsError :=
  {| mcp_code := None; message := msg |}.

Definition new_McpError (code : ErrorCode) (msg : string) : JsError :=
  {| mcp_code := Some code;
     message := "MCP error " ++ JsString.of_Z (code_value code) ++ ": " ++ msg |}.

(** [error instanceof McpError && error.code !== ErrorCode.InternalError] *)
Definition is_McpError_other_than_InternalError (error : JsError) : bool :=
  match mcp_code error with
  | Some c => negb (code_value c =? code_value InternalError)
  | None => false
  end.

(** [error instanceof McpError] *)
Definition instanceof_McpError (error : JsError) : bool :=
  match mcp_code error with
  | Some _ => true
  | None => false
  end.

Inductive Result (A : Type) : Type :=
| Ok (a : A)
| Throw (e : JsError).

Arguments Ok {A} a.
Arguments Throw {A} e.

(** ** The cache record and its JSON form *)

Record CachedTranscript : Type := mkCached {
  transcript : string;
  timestamp : Z
}.

(** [JSON.stringify] of a [CachedTranscript] and [JSON.parse] of a cache
    file.  The serialiser follows ECMAScript's [QuoteJSONString]; the
    parser reads the form the serialiser writes (one object, the two
    properties in this order, no white space) with every JSON string
    escape, and rejects anything else, which the caller treats like an
    unreadable file. *)

Module Json.

Definition dquote : ascii := "034"%char.
Definition backslash : ascii := "092"%char.

Definition hex_digit (n : nat) : ascii :=
  nth n ["0"; "1"; "2"; "3"; "4"; "5"; "6"; "7"; "8"; "9"; "a"; "b"; "c"; "d"; "e"; "f"]%char "0"%char.

Definition hex_value (c : ascii) : option nat :=
  let n := nat_of_ascii c in
  if ((48 <=? n) && (n <=? 57))%nat then Some (n - 48)%nat
  else if ((97 <=? n) && (n <=? 102))%nat then Some (n - 87)%nat
  else if ((65 <=? n) && (n <=? 70))%nat then Some (n - 55)%nat
  else None.

(** The short escapes of JSON: the letter after the backslash and the
    character it stands for. *)
Definition short_escape (e : ascii) : option ascii :=
  if Ascii.eqb e dquote then Some dquote
  else if Ascii.eqb e backslash then Some backslash
  else if Ascii.eqb e "/" then Some "/"%char
  else if Ascii.eqb e "b" then Some "008"%char
  else if Ascii.eqb e "f" then Some "012"%char
  else if Ascii.eqb e "n" then Some "010"%char
  else if Ascii.eqb e "r" then Some "013"%char
  else if Ascii.eqb e "t" then Some "009"%char
  else None.

Definition quote_char (c : ascii) : string :=
  let n := nat_of_ascii c in
  if Ascii.eqb c dquote then String backslash (String dquote EmptyString)
  else if Ascii.eqb c backslash then String backslash (String backslash EmptyString)
  else if (n =? 8)%nat then String backslash "b"
  else if (n =? 12)%nat then String backslash "f"
  else if (n =? 10)%nat then String backslash "n"
  else if (n =? 13)%nat then String backslash "r"
  else if (n =? 9)%nat then String backslash "t"
  else if (n <? 32)%nat then
    String backslash (String "u" (String "0" (String "0"
      (String (hex_digit (n / 16)) (String (hex_digit (n mod 16)) EmptyString)))))
  else String c EmptyString.

Fixpoint quote_body (s : string) : string :=
  match s with
  | EmptyString => EmptyString
  | String c s' => quote_char c ++ quote_body s'
  end.

(** [QuoteJSONString] *)
Definition quote (s : string) : string :=
  String dquote (quote_body s ++ String dquote EmptyString).

Definition stringify (c : CachedTranscript) : string :=
  "{" ++ quote "transcript" ++ ":" ++ quote (transcript c) ++ ","
      ++ quote "timestamp" ++ ":" ++ JsString.of_Z (timestamp c) ++ "}".

Definition strip_prefix (p s : string) : option string :=
  if JsString.startsWith p s then Some (JsString.slice_from (String.length p) s) else None.

(** The text before a final [c], when [s] ends with [c]. *)
Fixpoint strip_last (c : ascii) (s : string) : option string :=
  match s with
  | EmptyString => None
  | String a EmptyString => if Ascii.eqb a c then Some EmptyString else None
  | String a s' =>
      match strip_last c s' with
      | Some t => Some (String a t)
      | None => None
      end
  end.

Definition cons_fst (c : ascii) (r : option (string * string)) : option (string * string) :=
  match r with
  | Some (t, rest) => Some (String c t, rest)
  | None => None
  end.

(** The body of a JSON string literal up to its closing quote, and what
    follows it. *)
Fixpoint parse_string_body (s : string) : option (string * string) :=
  match s with
  | EmptyString => None
  | String c s1 =>
      if Ascii.eqb c dquote then Some (EmptyString, s1)
      else if Ascii.eqb c backslash then
        match s1 with
        | EmptyString => None
        | String e s2 =>
            match short_escape e with
            | Some ch => cons_fst ch (parse_string_body s2)
            | None =>
                if Ascii.eqb e "u" then
                  match s2 with
                  | String h1 (String h2 (String h3 (String h4 s3))) =>
                      match hex_value h1, hex_value h2, hex_value h3, hex_value h4 with
                      | Some O, Some O, Some a, Some b =>
                          cons_fst (ascii_of_nat (16 * a + b)) (parse_string_body s3)
                      | _, _, _, _ => None
                      end
                  | _ => None
                  end
                else None
            end
        end
      else if (nat_of_ascii c <? 32)%nat then None
      else cons_fst c (parse_string_body s1)
  end.

Definition parse_int (s : string) : option Z :=
  match JsString.to_Z s with
  | Some z => if String.eqb (JsString.of_Z z) s then Some z else None
  | None => None
  end.

Definition parse (s : string) : option CachedTranscript :=
  match strip_prefix ("{" ++ quote "transcript" ++ ":" ++ String dquote EmptyString) s with
  | None => None
  | Some s1 =>
      match parse_string_body s1 with
      | None => None
      | Some (t, s2) =>
          match strip_prefix ("," ++ quote "timestamp" ++ ":") s2 with
          | None => None
          | Some s3 =>
              match strip_last "}" s3 with
              | None => None
              | Some digits =>
                  match parse_int digits with
                  | Some z => Some {| transcript := t; timestamp := z |}
                  | None => None
                  end
              end
          end
      end
  end.

End Json.

(** ** [new URL(input)]

    The part of the WHATWG URL parser (no base URL) that the normaliser
    relies on: the scheme, the host of a hierarchical URL, the path and
    the query, and [searchParams.get].  Inputs without a scheme do not
    parse.  Left out, and so outside what the examples below use:
    percent-decoding and IDNA of hosts, IPv4 and IPv6 canonical forms,
    removal of dot segments, percent-encoding of the path and UTF-8
    decoding of query values. *)

Module Url.

Record URL : Type := mkURL {
  protocol : string;     (* scheme, lower case, without the colon *)
  hostname : string;
  pathname : string;
  search : string        (* the query, without the question mark *)
}.

Definition code (c : ascii) : nat := nat_of_ascii c.

Definition is_alpha (c : ascii) : bool :=
  (((65 <=? code c) && (code c <=? 90)) || ((97 <=? code c) && (code c <=? 122)))%nat.

Definition is_digit (c : ascii) : bool :=
  ((48 <=? code c) && (code c <=? 57))%nat.

Definition is_scheme_char (c : ascii) : bool :=
  is_alpha c || is_digit c || Ascii.eqb c "+" || Ascii.eqb c "-" || Ascii.eqb c ".".

Definition is_c0_or_space (c : ascii) : bool := (code c <=? 32)%nat.

Definition is_tab_or_newline (c : ascii) : bool :=
  ((code c =? 9) || (code c =? 10) || (code c =? 13))%nat.

Fixpoint drop_while (p : ascii -> bool) (s : string) : string :=
  match s with
  | String c s' => if p c then drop_while p s' else s
  | EmptyString => EmptyString
  end.

Fixpoint drop_while_end (p : ascii -> bool) (s : string) : string :=
  match s with
  | EmptyString => EmptyString
  | String c s' =>
      match drop_while_end p s' with
      | EmptyString => if p c then EmptyString else String c EmptyString
      | t => String c t
      end
  end.

Fixpoint remove (p : ascii -> bool) (s : string) : string :=
  match s with
  | EmptyString => EmptyString
  | String c s' => if p c then remove p s' else String c (remove p s')
  end.

(** Leading and trailing C0 controls and spaces are dropped, then every
    tab and newline. *)
Definition preprocess (s : string) : string :=
  remove is_tab_or_newline (drop_while_end is_c0_or_space (drop_while is_c0_or_space s)).

(** The characters of [s] before the first one satisfying [p], and the
    rest starting at that character. *)
Fixpoint span_until (p : ascii -> bool) (s : string) : string * string :=
  match s with
  | EmptyString => (EmptyString, EmptyString)
  | String c s' =>
      if p c then (EmptyString, s)
      else let '(a, b) := span_until p s' in (String c a, b)
  end.

(** Scheme state: scheme characters up to a colon. *)
Fixpoint scheme_rest (s : string) : option (string * string) :=
  match s with
  | EmptyString => None
  | String c s' =>
      if Ascii.eqb c ":" then Some (EmptyString, s')
      else if is_scheme_char c then
        match scheme_rest s' with
        | Some (a, b) => Some (String (JsString.to_lower c) a, b)
        | None => None
        end
      else None
  end.

(** Scheme start state: a scheme begins with a letter. *)
Definition parse_scheme (s : string) : option (string * string) :=
  match s with
  | String c _ => if is_alpha c then scheme_rest s else None
  | EmptyString => None
  end.

Definition is_special (scheme : string) : bool :=
  existsb (String.eqb scheme) ["http"; "https"; "ws"; "wss"; "ftp"; "file"].

Definition is_slash (special : bool) (c : ascii) : bool :=
  Ascii.eqb c "/" || (special && Ascii.eqb c "\").

Definition ends_authority (special : bool) (c : ascii) : bool :=
  is_slash special c || Ascii.eqb c "?" || Ascii.eqb c "#".

(** What follows the last [@] of an authority. *)
Fixpoint after_userinfo (s : string) : string :=
  match s with
  | EmptyString => EmptyString
  | String c s' =>
      if JsString.includes "@" s then after_userinfo s' else s
  end.

Fixpoint all_chars (p : ascii -> bool) (s : string) : bool :=
  match s with
  | EmptyString => true
  | String c s' => p c && all_chars p s'
  end.

Definition forbidden_host_char (c : ascii) : bool :=
  (code c <=? 32)%nat || (code c =? 127)%nat ||
  existsb (Ascii.eqb c) ["#"; "%"; "/"; ":"; "<"; ">"; "?"; "@"; "["; "\"; "]"; "^"; "|"]%char.

Definition port_ok (p : string) : bool :=
  all_chars is_digit p &&
  match p with
  | EmptyString => true
  | _ => match JsString.to_Z p with
         | Some z => z <=? 65535
         | None => false
         end
  end.

(** Host and port of an authority without user information. *)
Definition parse_host (special : bool) (scheme hostport : string) : option string :=
  let '(h, rest) := span_until (Ascii.eqb ":") hostport in
  let port := JsString.slice_from 1 rest in
  if negb (port_ok port) then None
  else if negb (all_chars (fun c => negb (forbidden_host_char c)) h) then None
  else if special then
    match h with
    | EmptyString => if String.eqb scheme "file" then Some EmptyString else None
    | _ => Some (JsString.toLowerCase h)
    end
  else Some h.

Fixpoint backslash_to_slash (s : string) : string :=
  match s with
  | EmptyString => EmptyString
  | String c s' => String (if Ascii.eqb c "\" then "/"%char else c) (backslash_to_slash s')
  end.

(** Path, query and fragment of what follows the authority. *)
Definition parse_tail (special : bool) (scheme host tail : string) : URL :=
  let '(path, rest) := span_until (fun c => Ascii.eqb c "?" || Ascii.eqb c "#") tail in
  let query :=
    match rest with
    | String c q => if Ascii.eqb c "?" then fst (span_until (Ascii.eqb "#") q) else EmptyString
    | EmptyString => EmptyString
    end in
  let path' :=
    if special then
      match path with
      | EmptyString => "/"
      | _ => backslash_to_slash path
      end
    else path in
  {| protocol := scheme; hostname := host; pathname := path'; search := query |}.

(** [new URL(input)]; [None] stands for the [TypeError] it throws. *)
Definition parse (input : string) : option URL :=
  match parse_scheme (preprocess input) with
  | None => None
  | Some (scheme, rest) =>
      let special := is_special scheme in
      if special || JsString.startsWith "//" rest then
        let rest' := if special then drop_while (is_slash true) rest else JsString.slice_from 2 rest in
        let '(authority, tail) := span_until (ends_authority special) rest' in
        match parse_host special scheme (after_userinfo authority) with
        | Some host => Some (parse_tail special scheme host tail)
        | None => None
        end
      else Some (parse_tail false scheme EmptyString rest)
  end.

(** Percent-decoding of a query component, after [+] became a space. *)
Fixpoint percent_decode (s : string) : string :=
  match s with
  | EmptyString => EmptyString
  | String c s1 =>
      let plain := String (if Ascii.eqb c "+" then " "%char else c) (percent_decode s1) in
      if Ascii.eqb c "%" then
        match s1 with
        | String h1 (String h2 s2) =>
            match Json.hex_value h1, Json.hex_value h2 with
            | Some a, Some b => String (ascii_of_nat (16 * a + b)) (percent_decode s2)
            | _, _ => plain
            end
        | _ => plain
        end
      else plain
  end.

(** The name/value pairs of [url.searchParams]. *)
Definition searchParams (u : URL) : list (string * string) :=
  map (fun piece =>
         let '(n, rest) := span_until (Ascii.eqb "=") piece in
         (percent_decode n, percent_decode (JsString.slice_from 1 rest)))
      (List.filter (fun piece => negb (JsString.falsy piece)) (JsString.split "&" (search u))).

(** [url.searchParams.get(name)]: the first value, [None] for [null]. *)
Definition searchParams_get (name : string) (u : URL) : option string :=
  match List.filter (fun nv => String.eqb (fst nv) name) (searchParams u) with
  | nv :: _ => Some (snd nv)
  | [] => None
  end.

End Url.

(** ** The outside world *)

(** [interface TranscriptLine]; the numeric fields are never inspected. *)
Record TranscriptLine : Type := mkLine {
  text : string;
  start : Z;
  dur : Z
}.

(** [requestOptions] of the captions call and [options] of [fetch]. *)
Record RequestOptions : Type := mkRequestOptions {
  agent : option string;          (* new HttpsProxyAgent(proxyUrl) *)
  header_User_Agent : string
}.

Record SubtitleOptions : Type := mkSubtitleOptions {
  videoID : string;
  lang_opt : string;
  requestOptions : option RequestOptions
}.

Inductive Outcome (A : Type) : Type :=
| Resolved (a : A)
| Rejected (e : JsError).

Arguments Resolved {A} a.
Arguments Rejected {A} e.

Record Response : Type := mkResponse {
  ok : bool;
  status : Z;
  body_text : Outcome string      (* await response.text() *)
}.

(** What the environment answers.  Every oracle takes the number of
    earlier calls of its kind, so that successive calls may be answered
    differently.  A file-system oracle returns the error the operation
    fails with, if any; a missing file fails on its own. *)
Record Env : Type := mkEnv {
  os_tmpdir : string;
  path_join : string -> string -> string;
  HTTP_PROXY : option string;
  HTTPS_PROXY : option string;
  new_HttpsProxyAgent : string -> Outcome string;
  Date_now : nat -> Z;
  mkdir_error : nat -> option JsError;
  readFile_error : nat -> option JsError;
  writeFile_error : nat -> option JsError;
  unlink_error : nat -> option JsError;
  getSubtitles : nat -> SubtitleOptions -> Outcome (list TranscriptLine);
  fetch : nat -> string -> RequestOptions -> Outcome Response
}.

(** Observable actions, in the order they happen. *)
Inductive Event : Type :=
| EvLog (msg : string) (err : option JsError)   (* console.error(msg, err) *)
| EvSleep (ms : Z)                               (* await setTimeout(.., ms) *)
| EvGetSubtitles (o : SubtitleOptions)           (* a call of the captions library *)
| EvFetch (url : string) (o : RequestOptions).   (* a call of fetch *)

(** The state a call can change: the files of the file system, the
    extractor's [cacheInitialized] field, how often each oracle has been
    asked, and the events so far. *)
Record World : Type := mkWorld {
  files : gmap string string;
  cacheInitialized : bool;
  n_now : nat;
  n_mkdir : nat;
  n_readFile : nat;
  n_writeFile : nat;
  n_unlink : nat;
  n_getSubtitles : nat;
  n_fetch : nat;
  trace : list Event
}.

Definition set_files (f : gmap string string) (w : World) : World :=
  mkWorld f (cacheInitialized w) (n_now w) (n_mkdir w) (n_readFile w) (n_writeFile w)
          (n_unlink w) (n_getSubtitles w) (n_fetch w) (trace w).

Definition set_cacheInitialized (b : bool) (w : World) : World :=
  mkWorld (files w) b (n_now w) (n_mkdir w) (n_readFile w) (n_writeFile w)
          (n_unlink w) (n_getSubtitles w) (n_fetch w) (trace w).

Definition tick_now (w : World) : World :=
  mkWorld (files w) (cacheInitialized w) (S (n_now w)) (n_mkdir w) (n_readFile w) (n_writeFile w)
          (n_unlink w) (n_getSubtitles w) (n_fetch w) (trace w).

Definition tick_mkdir (w : World) : World :=
  mkWorld (files w) (cacheInitialized w) (n_now w) (S (n_mkdir w)) (n_readFile w) (n_writeFile w)
          (n_unlink w) (n_getSubtitles w) (n_fetch w) (trace w).

Definition tick_readFile (w : World) : World :=
  mkWorld (files w) (cacheInitialized w) (n_now w) (n_mkdir w) (S (n_readFile w)) (n_writeFile w)
          (n_unlink w) (n_getSubtitles w) (n_fetch w) (trace w).

Definition tick_writeFile (w : World) : World :=
  mkWorld (files w) (cacheInitialized w) (n_now w) (n_mkdir w) (n_readFile w) (S (n_writeFile w))
          (n_unlink w) (n_getSubtitles w) (n_fetch w) (trace w).

Definition tick_unlink (w : World) : World :=
  mkWorld (files w) (cacheInitialized w) (n_now w) (n_mkdir w) (n_readFile w) (n_writeFile w)
          (S (n_unlink w)) (n_getSubtitles w) (n_fetch w) (trace w).

Definition tick_getSubtitles (w : World) : World :=
  mkWorld (files w) (cacheInitialized w) (n_now w) (n_mkdir w) (n_readFile w) (n_writeFile w)
          (n_unlink w) (S (n_getSubtitles w)) (n_fetch w) (trace w).

Definition tick_fetch (w : World) : World :=
  mkWorld (files w) (cacheInitialized w) (n_now w) (n_mkdir w) (n_readFile w) (n_writeFile w)
          (n_unlink w) (n_getSubtitles w) (S (n_fetch w)) (trace w).

Definition emit (ev : Event) (w : World) : World :=
  mkWorld (files w) (cacheInitialized w) (n_now w) (n_mkdir w) (n_readFile w) (n_writeFile w)
          (n_unlink w) (n_getSubtitles w) (n_fetch w) (trace w ++ [ev]).

(** ** The monad of asynchronous methods: state and exceptions *)

Definition M (A : Type) : Type := World -> Result A * World.

Definition ret {A : Type} (a : A) : M A := fun w => (Ok a, w).

Definition throw {A : Type} (e : JsError) : M A := fun w => (Throw e, w).

Definition bind {A B : Type} (c : M A) (f : A -> M B) : M B :=
  fun w =>
    match c w with
    | (Ok a, w') => f a w'
    | (Throw e, w') => (Throw e, w')
    end.

(** [try { body } catch (error) { handler(error) }]: what [body] did to
    the world before throwing stays done. *)
Definition try_catch {A : Type} (body : M A) (handler : JsError -> M A) : M A :=
  fun w =>
    match body w with
    | (Ok a, w') => (Ok a, w')
    | (Throw e, w') => handler e w'
    end.

Definition lift {A : Type} (r : Result A) : M A := fun w => (r, w).

Definition await {A : Type} (o : Outcome A) : M A :=
  match o with
  | Resolved a => ret a
  | Rejected e => throw e
  end.

Declare Scope js_scope.
Delimit Scope js_scope with js.
Notation "x <- c1 ;; c2" := (bind c1 (fun x => c2))
  (at level 100, c1 at next level, right associativity) : js_scope.
Notation "c1 ;; c2" := (bind c1 (fun _ => c2))
  (at level 100, right associativity) : js_scope.
Open Scope js_scope.

Definition console_error (msg : string) (err : option JsError) : M unit :=
  fun w => (Ok tt, emit (EvLog msg err) w).

(** [await new Promise(resolve => setTimeout(resolve, delay))] *)
Definition sleep (delay : Z) : M unit :=
  fun w => (Ok tt, emit (EvSleep delay) w).

(** ** Configuration: [const CONFIG] *)

Definition maxRetries : Z := 3.
Definition retryBaseDelay : Z := 1000.
Definition cacheTTL : Z := 24 * 60 * 60 * 1000.
Definition userAgent : string :=
  "Mozilla/5.0 (Windows NT 10.0; Win64; x64) AppleWebKit/537.36 (KHTML, like Gecko) Chrome/91.0.4472.124 Safari/537.36".

(** ** The regular expressions of the source *)

(** [/^[a-zA-Z0-9_-]{11}$/] *)
Definition re_video_id : RegExp.regex :=
  RegExp.Cat RegExp.Bol
    (RegExp.Cat
       (RegExp.Times 11
          (RegExp.Class false [("a", "z"); ("A", "Z"); ("0", "9"); ("_", "_"); ("-", "-")]%char))
       RegExp.Eol).

(** [/<text[^>]*>(.*?)<\/text>/g] *)
Definition re_text_span : RegExp.regex :=
  RegExp.Cat (RegExp.Lit "<text")
    (RegExp.Cat (RegExp.Star (RegExp.Class true [(">", ">")]%char))
       (RegExp.Cat (RegExp.Chr ">")
          (RegExp.Cat (RegExp.Group (RegExp.LazyStar RegExp.Dot))
             (RegExp.Lit "</text>")))).

(** [/<[^>]*>/g] *)
Definition re_tag : RegExp.regex :=
  RegExp.Cat (RegExp.Chr "<")
    (RegExp.Cat (RegExp.Star (RegExp.Class true [(">", ">")]%char)) (RegExp.Chr ">")).

(** [[^>]], the class both patterns of the fallback use. *)
Definition not_gt : RegExp.regex := RegExp.Class true [(">", ">")]%char.

(** ** [extractYoutubeId] *)

(** How the [try] block of [extractYoutubeId] ends without throwing:
    with a [return], or by falling out of the [if] chain. *)
Inductive TryExit : Type :=
| Return (videoId : string)
| FallThrough.

(** The [try] block: [new URL(input)] and the tests on the host. *)
Definition extractYoutubeId_try (input : string) : Result TryExit :=
  match Url.parse input with
  | None => Throw (new_Error "Invalid URL")
  | Some url =>
      if String.eqb (Url.hostname url) "youtu.be" then
        Ok (Return (JsString.split_head "?" (JsString.slice_from 1 (Url.pathname url))))
      else if JsString.includes "youtube.com" (Url.hostname url) then
        match Url.searchParams_get "v" url with
        | Some videoId =>
            if JsString.falsy videoId
            then Throw (new_McpError InvalidParams ("Invalid YouTube URL: " ++ input))
            else Ok (Return videoId)
        | None => Throw (new_McpError InvalidParams ("Invalid YouTube URL: " ++ input))
        end
      else Ok FallThrough
  end.

(** The [catch] block.  It also receives the [McpError] thrown inside
    the [try] block for a URL without [v]. *)
Definition extractYoutubeId_catch (input : string) (error : JsError) : Result TryExit :=
  if negb (RegExp.test re_video_id input)
  then Throw (new_McpError InvalidParams ("Invalid YouTube video ID: " ++ input))
  else Ok (Return input).

Definition extractYoutubeId (input : string) : Result string :=
  if JsString.falsy input then
    Throw (new_McpError InvalidParams "YouTube URL or ID is required")
  else
    match
      match extractYoutubeId_try input with
      | Ok x => Ok x
      | Throw error => extractYoutubeId_catch input error
      end
    with
    | Ok (Return videoId) => Ok videoId
    | Ok FallThrough =>
        Throw (new_McpError InvalidParams ("Could not extract video ID from: " ++ input))
    | Throw e => Throw e
    end.

(** ** [formatTranscript] and the parsing of the fallback body *)

Definition formatTranscript (lines : list TranscriptLine) : string :=
  JsString.join " "
    (List.filter (fun t => (0 <? String.length t)%nat)
       (map (fun line => JsString.trim (text line)) lines)).

(** [s.replace(/pat/g, rep)] for a literal word [pat]. *)
Definition lit_replace (pat rep s : string) : string :=
  RegExp.replace_g (RegExp.Lit pat) rep s.

(** The chain of five [replace] calls on the content of a span. *)
Definition unescape_entities (content : string) : string :=
  lit_replace "&#39;" "'"
    (lit_replace "&quot;" (String Json.dquote EmptyString)
       (lit_replace "&gt;" ">"
          (lit_replace "&lt;" "<"
             (lit_replace "&amp;" "&" content)))).

(** The callback of [lines.map]. *)
Definition span_text (line : string) : string :=
  let content := JsString.trim (RegExp.replace_g re_tag EmptyString line) in
  unescape_entities content.

(** From [xml] to the returned text. *)
Definition parse_timedtext (xml : string) : string :=
  let lines :=
    match RegExp.match_g re_text_span xml with
    | Some l => l
    | None => []
    end in
  let textContent := map span_text lines in
  JsString.join " " textContent.

(** ** The class [YouTubeTranscriptExtractor] *)

Section Extractor.

Variable env : Env.

(** [CONFIG.cacheDir] and [CONFIG.proxyUrl] *)
Definition cacheDir : string := path_join env (os_tmpdir env) "youtube-transcript-cache".

Definition proxyUrl : option string :=
  match HTTP_PROXY env with
  | Some p => if JsString.falsy p then HTTPS_PROXY env else Some p
  | None => HTTPS_PROXY env
  end.

(** [if (CONFIG.proxyUrl)] *)
Definition proxy_configured : option string :=
  match proxyUrl with
  | Some p => if JsString.falsy p then None else Some p
  | None => None
  end.

Definition cacheFilePath (videoId lang : string) : string :=
  path_join env cacheDir (videoId ++ "_" ++ lang ++ ".json").

(** *** Calls into the environment *)

(** [Date.now()] *)
Definition call_Date_now : M Z :=
  fun w => (Ok (Date_now env (n_now w)), tick_now w).

(** [await fs.mkdir(dir, { recursive: true })] *)
Definition fs_mkdir (dir : string) : M unit :=
  fun w =>
    match mkdir_error env (n_mkdir w) with
    | Some e => (Throw e, tick_mkdir w)
    | None => (Ok tt, tick_mkdir w)
    end.

(** [await fs.readFile(path, 'utf-8')] *)
Definition fs_readFile (path : string) : M string :=
  fun w =>
    match readFile_error env (n_readFile w) with
    | Some e => (Throw e, tick_readFile w)
    | None =>
        match files w !! path with
        | Some content => (Ok content, tick_readFile w)
        | None => (Throw (new_Error ("ENOENT: no such file or directory, open '" ++ path ++ "'")), tick_readFile w)
        end
    end.

(** [await fs.writeFile(path, data)] *)
Definition fs_writeFile (path data : string) : M unit :=
  fun w =>
    match writeFile_error env (n_writeFile w) with
    | Some e => (Throw e, tick_writeFile w)
    | None => (Ok tt, set_files (<[path := data]> (files w)) (tick_writeFile w))
    end.

(** [await fs.unlink(path)] *)
Definition fs_unlink (path : string) : M unit :=
  fun w =>
    match unlink_error env (n_unlink w) with
    | Some e => (Throw e, tick_unlink w)
    | None =>
        match files w !! path with
        | Some _ => (Ok tt, set_files (delete path (files w)) (tick_unlink w))
        | None => (Throw (new_Error ("ENOENT: no such file or directory, unlink '" ++ path ++ "'")), tick_unlink w)
        end
    end.

(** [JSON.parse(fileContent) as CachedTranscript] *)
Definition JSON_parse (fileContent : string) : M CachedTranscript :=
  match Json.parse fileContent with
  | Some c => ret c
  | None => throw (new_Error "Unexpected token in JSON")
  end.

(** [await getSubtitles(options)] *)
Definition call_getSubtitles (options : SubtitleOptions) : M (list TranscriptLine) :=
  fun w =>
    await (getSubtitles env (n_getSubtitles w) options)
          (emit (EvGetSubtitles options) (tick_getSubtitles w)).

(** [await fetch(url, options)] *)
Definition call_fetch (url : string) (options : RequestOptions) : M Response :=
  fun w =>
    await (fetch env (n_fetch w) url options)
          (emit (EvFetch url options) (tick_fetch w)).

(** *** [initializeCache] *)

Definition initializeCache : M unit :=
  fun w =>
    if cacheInitialized w then (Ok tt, w)
    else
      try_catch
        (fs_mkdir cacheDir ;;
         fun w' => (Ok tt, set_cacheInitialized true w'))
        (fun error => console_error "Failed to initialize cache directory:" (Some error))
        w.

(** *** [getCachedTranscript]; [None] is [null] *)

Definition getCachedTranscript (videoId lang : string) : M (option string) :=
  initializeCache ;;
  let cacheFilePath := cacheFilePath videoId lang in
  try_catch
    (fileContent <- fs_readFile cacheFilePath ;;
     cachedData <- JSON_parse fileContent ;;
     t <- call_Date_now ;;
     if t - timestamp cachedData <? cacheTTL then
       console_error ("Using cached transcript for video " ++ videoId ++ " (" ++ lang ++ ")") None ;;
       ret (Some (transcript cachedData))
     else
       fs_unlink cacheFilePath ;;
       ret None)
    (fun error => ret None).

(** *** [cacheTranscript] *)

Definition cacheTranscript (videoId lang transcript : string) : M unit :=
  initializeCache ;;
  let cacheFilePath := cacheFilePath videoId lang in
  try_catch
    (t <- call_Date_now ;;
     let cacheData := {| transcript := transcript; timestamp := t |} in
     fs_writeFile cacheFilePath (Json.stringify cacheData))
    (fun error => console_error "Failed to cache transcript:" (Some error)).

(** *** [fetchTranscriptWithCaptionsScraper] *)

(** The agent both strategies build when a proxy is configured:
    [new HttpsProxyAgent(CONFIG.proxyUrl)], which may throw. *)
Definition make_agent : Outcome (option string) :=
  match proxy_configured with
  | Some p =>
      match new_HttpsProxyAgent env p with
      | Resolved a => Resolved (Some a)
      | Rejected e => Rejected e
      end
  | None => Resolved None
  end.

(** [options] of the captions call *)
Definition subtitle_options (a : option string) (videoId lang : string) : SubtitleOptions :=
  {| videoID := videoId;
     lang_opt := lang;
     requestOptions :=
       match a with
       | Some _ => Some {| agent := a; header_User_Agent := userAgent |}
       | None => None
       end |}.

(** [options] of [fetch] *)
Definition fetch_options (a : option string) : RequestOptions :=
  {| agent := a; header_User_Agent := userAgent |}.

Definition fetchTranscriptWithCaptionsScraper (videoId lang : string) : M string :=
  try_catch
    (a <- await make_agent ;;
     let options := subtitle_options a videoId lang in
     transcript <- call_getSubtitles options ;;
     ret (formatTranscript transcript))
    (fun error =>
       console_error "Failed with primary transcript method:" (Some error) ;;
       let errorMsg := JsString.or_else (message error) EmptyString in
       if JsString.includes "429" errorMsg
          || JsString.includes "too many requests" errorMsg
          || JsString.includes "blocked" errorMsg
          || JsString.includes "forbidden" errorMsg
       then
         throw (new_McpError InternalError
                  ("YouTube might be rate limiting or blocking this IP: " ++ errorMsg))
       else
         throw (new_McpError InternalError ("Primary transcript method failed: " ++ errorMsg))).

(** *** [fetchTranscriptWithFallbackMethod] *)

Definition timedtext_url (videoId lang : string) : string :=
  "https://www.youtube.com/api/timedtext?v=" ++ videoId ++ "&lang=" ++ lang.

Definition fetchTranscriptWithFallbackMethod (videoId lang : string) : M string :=
  try_catch
    (let url := timedtext_url videoId lang in
     a <- await make_agent ;;
     let options := fetch_options a in
     response <- call_fetch url options ;;
     if negb (ok response) then
       throw (new_Error ("HTTP error! status: " ++ JsString.of_Z (status response)))
     else
       xml <- await (body_text response) ;;
       ret (parse_timedtext xml))
    (fun error =>
       console_error "Failed with fallback transcript method:" (Some error) ;;
       throw (new_McpError InternalError
                ("Fallback transcript method failed: " ++ message error))).

(** *** [getTranscript] *)

(** How one round of the [for] loop ends: the function returns, or the
    round is over with the error it caught. *)
Inductive RoundExit : Type :=
| Returned (transcript : string)
| Caught (error : JsError).

(** The body of the loop for a given [attempt]. *)
Definition primary_round (videoId lang : string) (attempt : Z) : M RoundExit :=
  try_catch
    ((if 0 <? attempt then
        let delay := retryBaseDelay * 2 ^ (attempt - 1) in
        console_error ("Retry attempt " ++ JsString.of_Z (attempt + 1) ++ "/"
                         ++ JsString.of_Z maxRetries ++ " after " ++ JsString.of_Z delay
                         ++ "ms delay") None ;;
        sleep delay
      else ret tt) ;;
     transcript <- fetchTranscriptWithCaptionsScraper videoId lang ;;
     cacheTranscript videoId lang transcript ;;
     ret (Returned transcript))
    (fun error =>
       console_error ("Attempt " ++ JsString.of_Z (attempt + 1) ++ " failed:") (Some error) ;;
       if is_McpError_other_than_InternalError error
       then throw error
       else ret (Caught error)).

(** How the loop ends: with the function's [return], or exhausted with
    [lastError]. *)
Inductive LoopExit : Type :=
| LoopReturned (transcript : string)
| Exhausted (lastError : option JsError).

(** [for (let attempt = ...; attempt < CONFIG.maxRetries; attempt++)]
    with [remaining] rounds to go. *)
Fixpoint primary_loop (videoId lang : string) (remaining : nat) (attempt : Z)
    (lastError : option JsError) : M LoopExit :=
  match remaining with
  | O => ret (Exhausted lastError)
  | S n =>
      r <- primary_round videoId lang attempt ;;
      match r with
      | Returned transcript => ret (LoopReturned transcript)
      | Caught error => primary_loop videoId lang n (attempt + 1) (Some error)
      end
  end.

(** [lastError?.message || 'Unknown error'] *)
Definition lastError_message (lastError : option JsError) : string :=
  JsString.or_else
    (match lastError with
     | Some e => message e
     | None => EmptyString
     end)
    "Unknown error".

Definition fallback_stage (videoId lang : string) (lastError : option JsError) : M string :=
  try_catch
    (console_error "Trying fallback method to fetch transcript" None ;;
     transcript <- fetchTranscriptWithFallbackMethod videoId lang ;;
     cacheTranscript videoId lang transcript ;;
     ret transcript)
    (fun fallbackError =>
       console_error "Fallback method failed:" (Some fallbackError) ;;
       throw (new_McpError InternalError
                ("Failed to retrieve transcript after multiple attempts: "
                   ++ lastError_message lastError))).

(** What follows the cache check. *)
Definition fetch_stages (videoId lang : string) : M string :=
  r <- primary_loop videoId lang (Z.to_nat (maxRetries - 0)) 0 None ;;
  match r with
  | LoopReturned transcript => ret transcript
  | Exhausted lastError => fallback_stage videoId lang lastError
  end.

(** [if (cachedTranscript)]: [null] and the empty string are falsy. *)
Definition truthy (cachedTranscript : option string) : bool :=
  match cachedTranscript with
  | Some t => negb (JsString.falsy t)
  | None => false
  end.

Definition getTranscript (videoId lang : string) : M string :=
  cachedTranscript <- getCachedTranscript videoId lang ;;
  if truthy cachedTranscript then
    ret (match cachedTranscript with Some t => t | None => EmptyString end)
  else fetch_stages videoId lang.

(** *** The handler of the [get_transcript] tool *)

Record ToolResult : Type := mkToolResult {
  content_text : string;
  metadata : option (string * string * Z * Z);  (* videoId, language, timestamp, charCount *)
  isError : bool
}.

Definition get_transcript_tool (url lang : string) : M ToolResult :=
  console_error ("Processing transcript request for: " ++ url ++ ", language: " ++ lang) None ;;
  try_catch
    (videoId <- lift (extractYoutubeId url) ;;
     console_error ("Successfully extracted video ID: " ++ videoId) None ;;
     transcript <- getTranscript videoId lang ;;
     console_error ("Successfully extracted transcript ("
                      ++ JsString.of_Z (Z.of_nat (String.length transcript)) ++ " chars)") None ;;
     t <- call_Date_now ;;
     ret {| content_text := transcript;
            metadata := Some (videoId, lang, t, Z.of_nat (String.length transcript));
            isError := false |})
    (fun error =>
       console_error "Transcript extraction failed:" (Some error) ;;
       if instanceof_McpError error then throw error
       else ret {| content_text := "Error: " ++ message error;
                   metadata := None;
                   isError := true |}).

End Extractor.

(** ** Observations on a trace *)

Definition is_log (ev : Event) : bool :=
  match ev with
  | EvLog _ _ => true
  | _ => false
  end.

(** The events other than log lines: delays and network calls. *)
Definition actions (tr : list Event) : list Event :=
  List.filter (fun ev => negb (is_log ev)) tr.

Definition is_primary_call (ev : Event) : bool :=
  match ev with
  | EvGetSubtitles _ => true
  | _ => false
  end.

Definition is_fallback_call (ev : Event) : bool :=
  match ev with
  | EvFetch _ _ => true
  | _ => false
  end.

Definition delays (tr : list Event) : list Z :=
  flat_map (fun ev => match ev with EvSleep ms => [ms] | _ => [] end) tr.

(** ** A concrete environment for the examples

    A POSIX-like [path.join] for plain names, no proxy, a clock that
    starts at [t0] and advances by one millisecond per reading, a file
    system without faults, and network oracles given as lists of
    answers (when a list runs out the call is rejected). *)

Definition join_plain (a b : string) : string := a ++ "/" ++ b.

Definition scripted {A : Type} (answers : list (Outcome A)) (n : nat) : Outcome A :=
  nth n answers (Rejected (new_Error "network unreachable")).

Definition test_env (t0 : Z) (subs : list (Outcome (list TranscriptLine)))
    (fetches : list (Outcome Response)) : Env :=
  {| os_tmpdir := "/tmp";
     path_join := join_plain;
     HTTP_PROXY := None;
     HTTPS_PROXY := None;
     new_HttpsProxyAgent := fun p => Resolved p;
     Date_now := fun n => t0 + Z.of_nat n;
     mkdir_error := fun _ => None;
     readFile_error := fun _ => None;
     writeFile_error := fun _ => None;
     unlink_error := fun _ => None;
     getSubtitles := fun n _ => scripted subs n;
     fetch := fun n _ _ => scripted fetches n |}.

Definition fresh_world : World :=
  {| files := ∅; cacheInitialized := false;
     n_now := 0; n_mkdir := 0; n_readFile := 0; n_writeFile := 0; n_unlink := 0;
     n_getSubtitles := 0; n_fetch := 0; trace := [] |}.



(** ** Notions used in the statements *)

(** Between [w] and [w'] the captions library was called [dsubs] times
    and [fetch] [dfetch] times, and the delays and network calls [acts]
    were added to the trace (log lines are not counted). *)
Record advances (w w' : World) (dsubs dfetch : nat) (acts : list Event) : Prop := mk_advances {
  adv_getSubtitles : n_getSubtitles w' = (dsubs + n_getSubtitles w)%nat;
  adv_fetch : n_fetch w' = (dfetch + n_fetch w)%nat;
  adv_actions : actions (trace w') = (actions (trace w) ++ acts)%list
}.

(** What a cache operation may change: no network call, no delay. *)
Definition cache_only (w w' : World) : Prop := advances w w' 0 0 [].

(** The error the [catch] block of [fetchTranscriptWithCaptionsScraper]
    throws for the error it caught. *)
Definition primary_failure (error : JsError) : JsError :=
  let errorMsg := JsString.or_else (message error) EmptyString in
  if JsString.includes "429" errorMsg
     || JsString.includes "too many requests" errorMsg
     || JsString.includes "blocked" errorMsg
     || JsString.includes "forbidden" errorMsg
  then new_McpError InternalError
         ("YouTube might be rate limiting or blocking this IP: " ++ errorMsg)
  else new_McpError InternalError ("Primary transcript method failed: " ++ errorMsg).

(** The alphabet of a video identifier: [[a-zA-Z0-9_-]]. *)
Definition id_char (c : ascii) : bool :=
  RegExp.in_class false [("a", "z"); ("A", "Z"); ("0", "9"); ("_", "_"); ("-", "-")]%char c.

(** An 11-character string over that alphabet. *)
Definition valid_video_id (s : string) : bool :=
  (String.length s =? 11)%nat && Url.all_chars id_char s.

(** What [initializeCache] leaves alone. *)
Record init_frame (w w' : World) : Prop := mk_init_frame {
  if_files : files w' = files w;
  if_now : n_now w' = n_now w;
  if_readFile : n_readFile w' = n_readFile w;
  if_writeFile : n_writeFile w' = n_writeFile w;
  if_unlink : n_unlink w' = n_unlink w
}.


(** The delay, if any, that precedes the primary call of [attempt]. *)
Definition backoff (attempt : Z) : list Event :=
  if 0 <? attempt then [EvSleep (retryBaseDelay * 2 ^ (attempt - 1))] else [].

(** The answers of [fetch] on which the fallback strategy fails: the
    request is rejected, the status is not a success, or reading the
    body fails. *)
Inductive fallback_answer_fails : Outcome Response -> Prop :=
| fails_rejected (e : JsError) : fallback_answer_fails (Rejected e)
| fails_status (r : Response) : ok r = false -> fallback_answer_fails (Resolved r)
| fails_body (r : Response) (e : JsError) :
    body_text r = Rejected e -> fallback_answer_fails (Resolved r).

(** The last four replacements, in the order of the source. *)
Definition after_amp (s : string) : string :=
  lit_replace "&#39;" "'"
    (lit_replace "&quot;" (String Json.dquote EmptyString)
       (lit_replace "&gt;" ">" (lit_replace "&lt;" "<" s))).

(** The five entity references and the characters they stand for. *)
Definition entities : list (string * string) :=
  [("&amp;", "&"); ("&lt;", "<"); ("&gt;", ">");
   ("&quot;", String Json.dquote EmptyString); ("&#39;", "'")].

(** A single-pass unescape, as a reference: every entity reference of
    the input is replaced once, and replaced text is not looked at
    again. *)
Fixpoint unescape_once_go (skip : nat) (s : string) : string :=
  match s with
  | EmptyString => EmptyString
  | String c s' =>
      match skip with
      | S k => unescape_once_go k s'
      | O =>
          match List.filter (fun e => JsString.startsWith (fst e) s) entities with
          | e :: _ => snd e ++ unescape_once_go (String.length (fst e) - 1) s'
          | [] => String c (unescape_once_go O s')
          end
      end
  end.

Definition unescape_once (s : string) : string := unescape_once_go O s.

(** The fallback parsing as the specification words it: the spans are
    extracted, tags are stripped from each span, the five entity
    references are unescaped, the results are joined with a space. *)
Definition parse_timedtext_as_specified (xml : string) : string :=
  let lines :=
    match RegExp.match_g re_text_span xml with
    | Some l => l
    | None => []
    end in
  JsString.join " "
    (map (fun line => unescape_once (RegExp.replace_g re_tag EmptyString line)) lines).

(** A [<text ...>...</text>] element followed by other markup. *)
Record Span : Type := mkSpan {
  attributes : string;
  content : string;
  after : string
}.

Definition element (sp : Span) : string :=
  "<text" ++ attributes sp ++ ">" ++ content sp ++ "</text>".

Fixpoint render (spans : list Span) : string :=
  match spans with
  | [] => EmptyString
  | sp :: rest => element sp ++ after sp ++ render rest
  end.

Definition lacks (c : ascii) (s : string) : bool :=
  Url.all_chars (fun a => negb (Ascii.eqb a c)) s.

Definition single_line (s : string) : bool :=
  Url.all_chars (fun a => negb (RegExp.is_line_terminator a)) s.

(** A span the pattern is meant for: no [>] among the attributes, a
    content on one line without [<], and no further opening of a
    [<text] element in the markup that follows. *)
Definition well_formed (sp : Span) : bool :=
  lacks ">" (attributes sp) && lacks "<" (content sp) && single_line (content sp)
  && negb (JsString.includes "<text" (after sp)).

(** ** Environments and inputs of the examples *)

(** Two caption lines. *)
Definition hello_lines : list TranscriptLine :=
  [mkLine " Hello " 0 1; mkLine "world" 1 1].

(** The captions library is rejected twice and answers the third time. *)
Definition env_third_time : Env :=
  test_env 1000
    [Rejected (new_Error "429 too many requests"); Rejected (new_Error "socket hang up");
     Resolved hello_lines] [].

(** The captions library is rejected three times and the timed-text
    endpoint answers 404. *)
Definition env_all_fail : Env :=
  test_env 1000
    [Rejected (new_Error "blocked"); Rejected (new_Error "socket hang up");
     Rejected (new_Error "no captions")]
    [Resolved (mkResponse false 404 (Resolved "Not Found"))].

(** The captions library answers with no line at all. *)
Definition env_no_captions : Env :=
  test_env 1000 [Resolved []; Resolved []] [].

(** A clock that jumps by 24 hours at every reading. *)
Definition env_daily_clock : Env :=
  {| os_tmpdir := "/tmp";
     path_join := join_plain;
     HTTP_PROXY := None;
     HTTPS_PROXY := None;
     new_HttpsProxyAgent := fun p => Resolved p;
     Date_now := fun n => Z.of_nat n * cacheTTL;
     mkdir_error := fun _ => None;
     readFile_error := fun _ => None;
     writeFile_error := fun _ => None;
     unlink_error := fun _ => None;
     getSubtitles := fun _ _ => Rejected (new_Error "network unreachable");
     fetch := fun _ _ _ => Rejected (new_Error "network unreachable") |}.


(** A file outside the cache directory that looks like a cache entry. *)
Definition world_with_stray_file : World :=
  set_files {[ "/tmp/x.json" := Json.stringify (mkCached "stale text" 1000) ]} fresh_world.


(** The captions library answers [lines] at once. *)
Definition env_answers (lines : list TranscriptLine) : Env :=
  test_env 1000 [Resolved lines] [].

(** A body with one span whose content has spaces around it. *)
Definition env_padded_span : Env :=
  test_env 1000 [] [Resolved (mkResponse true 200 (Resolved "<text> a </text>"))].

(** A body with two spans inside other markup. *)
Definition env_two_spans : Env :=
  test_env 1000 []
    [Resolved (mkResponse true 200
                 (Resolved "<transcript><text start=0> Hello &amp; </text><text start=1>world</text></transcript>"))].

(** ** The earlier version of the extractor

    The repository also holds the first version of [index.ts]: the same
    normaliser except for the short-link branch, and a [getTranscript]
    that asks the captions library once, without cache, retry or
    fallback. *)

Module Legacy.

(** The [try] block: the short-link branch returns
    [url.pathname.slice(1)] as it is. *)
Definition extractYoutubeId_try (input : string) : Result TryExit :=
  match Url.parse input with
  | None => Throw (new_Error "Invalid URL")
  | Some url =>
      if String.eqb (Url.hostname url) "youtu.be" then
        Ok (Return (JsString.slice_from 1 (Url.pathname url)))
      else if JsString.includes "youtube.com" (Url.hostname url) then
        match Url.searchParams_get "v" url with
        | Some videoId =>
            if JsString.falsy videoId
            then Throw (new_McpError InvalidParams ("Invalid YouTube URL: " ++ input))
            else Ok (Return videoId)
        | None => Throw (new_McpError InvalidParams ("Invalid YouTube URL: " ++ input))
        end
      else Ok FallThrough
  end.

Definition extractYoutubeId (input : string) : Result string :=
  if JsString.falsy input then
    Throw (new_McpError InvalidParams "YouTube URL or ID is required")
  else
    match
      match extractYoutubeId_try input with
      | Ok x => Ok x
      | Throw error => extractYoutubeId_catch input error
      end
    with
    | Ok (Return videoId) => Ok videoId
    | Ok FallThrough =>
        Throw (new_McpError InvalidParams ("Could not extract video ID from: " ++ input))
    | Throw e => Throw e
    end.

Section Extractor.

Variable env : Env.

Definition getTranscript (videoId lang : string) : M string :=
  try_catch
    (transcript <- call_getSubtitles env
                     {| videoID := videoId; lang_opt := lang; requestOptions := None |} ;;
     ret (formatTranscript transcript))
    (fun error =>
       console_error "Failed to fetch transcript:" (Some error) ;;
       throw (new_McpError InternalError ("Failed to retrieve transcript: " ++ message error))).

Definition get_transcript_tool (url lang : string) : M ToolResult :=
  console_error ("Processing transcript request for: " ++ url ++ ", language: " ++ lang) None ;;
  try_catch
    (videoId <- lift (extractYoutubeId url) ;;
     console_error ("Successfully extracted video ID: " ++ videoId) None ;;
     transcript <- getTranscript videoId lang ;;
     console_error ("Successfully extracted transcript ("
                      ++ JsString.of_Z (Z.of_nat (String.length transcript)) ++ " chars)") None ;;
     t <- call_Date_now env ;;
     ret {| content_text := transcript;
            metadata := Some (videoId, lang, t, Z.of_nat (String.length transcript));
            isError := false |})
    (fun error =>
       console_error "Transcript extraction failed:" (Some error) ;;
       if instanceof_McpError error then throw error
       else ret {| content_text := "Error: " ++ message error;
                   metadata := None;
                   isError := true |}).

End Extractor.

End Legacy.

(** ** The footprint of a computation *)

(** The time spent in [setTimeout], in milliseconds. *)
Definition total_delay (tr : list Event) : Z := fold_right Z.add 0 (delays tr).

(** From [w] to [w']: at most [dsubs] calls of the captions library, at
    most [dfetch] calls of [fetch], at most [dsleep] milliseconds of
    waiting; no file other than [path] was created, changed or deleted;
    and a cache directory that was initialised stays so, without another
    [mkdir]. *)
Record footprint (path : string) (w w' : World) (dsubs dfetch : nat) (dsleep : Z) : Prop :=
  mk_footprint {
  fp_getSubtitles : (n_getSubtitles w' <= dsubs + n_getSubtitles w)%nat;
  fp_fetch : (n_fetch w' <= dfetch + n_fetch w)%nat;
  fp_sleep : total_delay (trace w') <= total_delay (trace w) + dsleep;
  fp_files : forall p : string, p <> path -> files w' !! p = files w !! p;
  fp_initialized :
    cacheInitialized w = true -> cacheInitialized w' = true /\ n_mkdir w' = n_mkdir w
}.

(** Every run of [c] stays within that footprint. *)
Definition costs {A : Type} (path : string) (c : M A) (dsubs dfetch : nat) (dsleep : Z) : Prop :=
  forall w : World, footprint path w (snd (c w)) dsubs dfetch dsleep.

(** ** Further notions and example environments *)

(** The cache file of the pair holds an entry with the text [t]. *)
Definition holds_entry (env : Env) (videoId lang t : string) (w : World) : Prop :=
  exists ts : Z,
    files w !! cacheFilePath env videoId lang = Some (Json.stringify (mkCached t ts)).

(** A caption line without text: nothing is left of it after [trim]. *)
Definition blank (line : TranscriptLine) : bool := JsString.falsy (JsString.trim (text line)).

(** Two texts with one space between them, unless one of them is empty. *)
Definition glue (a b : string) : string :=
  if JsString.falsy a then b
  else if JsString.falsy b then a
  else a ++ " " ++ b.

(** A proxy is configured with a text that is no URL: the constructor of
    the agent throws.  The network itself would answer. *)
Definition env_bad_proxy : Env :=
  {| os_tmpdir := "/tmp";
     path_join := join_plain;
     HTTP_PROXY := Some "localhost";
     HTTPS_PROXY := None;
     new_HttpsProxyAgent := fun _ => Rejected (new_Error "Invalid URL");
     Date_now := fun n => 1000 + Z.of_nat n;
     mkdir_error := fun _ => None;
     readFile_error := fun _ => None;
     writeFile_error := fun _ => None;
     unlink_error := fun _ => None;
     getSubtitles := fun _ _ => Resolved hello_lines;
     fetch := fun _ _ _ => Resolved (mkResponse true 200 (Resolved "<text>Hello</text>")) |}.

(** The captions library is rejected once and answers the second time. *)
Definition env_second_time : Env :=
  test_env 1000 [Rejected (new_Error "socket hang up"); Resolved hello_lines] [].

(** The captions library is rejected three times and the timed-text
    endpoint answers 200 with an empty body. *)
Definition env_empty_body : Env :=
  test_env 1000
    [Rejected (new_Error "socket hang up"); Rejected (new_Error "socket hang up");
     Rejected (new_Error "socket hang up")]
    [Resolved (mkResponse true 200 (Resolved EmptyString))].

(* ===================================================================== *)
(** * Part II: properties                                                *)
(* ===================================================================== *)

(** ** Traces *)

Lemma actions_app (a b : list Event) :
  actions (a ++ b)%list = (actions a ++ actions b)%list.
Proof. unfold actions. apply List.filter_app. Qed.

Lemma actions_log (tr : list Event) (msg : string) (err : option JsError) :
  actions (tr ++ [EvLog msg err])%list = actions tr.
Proof. rewrite actions_app. simpl. apply app_nil_r. Qed.

Lemma advances_refl (w : World) : advances w w 0 0 [].
Proof. constructor; try reflexivity. symmetry. apply app_nil_r. Qed.

Lemma advances_trans (w1 w2 w3 : World) (a b a' b' : nat) (l l' : list Event) :
  advances w1 w2 a b l -> advances w2 w3 a' b' l' ->
  advances w1 w3 (a' + a) (b' + b) (l ++ l').
Proof.
  intros [H1 H2 H3] [H1' H2' H3']. constructor.
  - rewrite H1', H1. lia.
  - rewrite H2', H2. lia.
  - rewrite H3', H3. symmetry. apply app_assoc.
Qed.

Lemma cache_only_then (w1 w2 w3 : World) (a b : nat) (l : list Event) :
  cache_only w1 w2 -> advances w2 w3 a b l -> advances w1 w3 a b l.
Proof.
  intros H1 H2. pose proof (advances_trans _ _ _ _ _ _ _ _ _ H1 H2) as H.
  rewrite !Nat.add_0_r in H. exact H.
Qed.

Lemma advances_then_cache_only (w1 w2 w3 : World) (a b : nat) (l : list Event) :
  advances w1 w2 a b l -> cache_only w2 w3 -> advances w1 w3 a b l.
Proof.
  intros H1 H2. pose proof (advances_trans _ _ _ _ _ _ _ _ _ H1 H2) as H.
  rewrite app_nil_r in H. exact H.
Qed.

(** Same counters, one more log line. *)
Lemma cache_only_log (w : World) (msg : string) (err : option JsError) :
  cache_only w (emit (EvLog msg err) w).
Proof.
  constructor; try reflexivity. simpl. rewrite actions_log. symmetry. apply app_nil_r.
Qed.

(** One more delay or network call in the trace. *)
Lemma actions_action (tr : list Event) (ev : Event) :
  is_log ev = false -> actions (tr ++ [ev])%list = (actions tr ++ [ev])%list.
Proof. intros H. rewrite actions_app. destruct ev; try discriminate; reflexivity. Qed.

(** ** The cache never throws *)

Section CacheTotal.

Variable env : Env.

Ltac finish Hco :=
  first [ eexists; eexists; split; [reflexivity |] | eexists; split; [reflexivity |] ];
  eapply cache_only_then; [exact Hco |];
  first [ apply advances_refl | apply cache_only_log
        | (constructor; try reflexivity; symmetry; apply app_nil_r) ].

Lemma initializeCache_ok (w : World) :
  exists w', initializeCache env w = (Ok tt, w') /\ cache_only w w' /\ files w' = files w.
Proof.
  unfold initializeCache. destruct (cacheInitialized w).
  - eexists; split; [reflexivity|]. split; [apply advances_refl | reflexivity].
  - unfold try_catch, bind, fs_mkdir. destruct (mkdir_error env (n_mkdir w)) as [e|].
    + eexists; split; [reflexivity|]. split; [|reflexivity].
      eapply cache_only_then; [|apply cache_only_log].
      constructor; try reflexivity. symmetry; apply app_nil_r.
    + eexists; split; [reflexivity|]. split; [|reflexivity].
      constructor; try reflexivity. symmetry; apply app_nil_r.
Qed.

Lemma getCachedTranscript_ok (videoId lang : string) (w : World) :
  exists r w', getCachedTranscript env videoId lang w = (Ok r, w') /\ cache_only w w'.
Proof.
  unfold getCachedTranscript, bind at 1.
  destruct (initializeCache_ok w) as (w1 & -> & Hco & Hf).
  unfold try_catch, bind, fs_readFile.
  destruct (readFile_error env (n_readFile w1)) as [e|]; [finish Hco|].
  destruct (files w1 !! cacheFilePath env videoId lang) as [fileContent|]; [|finish Hco].
  unfold JSON_parse. destruct (Json.parse fileContent) as [c|]; [|finish Hco].
  unfold ret at 1. unfold call_Date_now.
  match goal with |- context [if ?b then _ else _] => destruct b end.
  { do 2 eexists; split; [reflexivity|]. eapply cache_only_then; [exact Hco|].
    eapply cache_only_then; [|apply cache_only_log].
    constructor; try reflexivity. symmetry; apply app_nil_r. }
  unfold fs_unlink. cbn [n_unlink tick_now tick_readFile files].
  destruct (unlink_error env (n_unlink w1)) as [e|]; [finish Hco|].
  destruct (files w1 !! cacheFilePath env videoId lang) as [content'|]; finish Hco.
Qed.

Lemma cacheTranscript_ok (videoId lang t : string) (w : World) :
  exists w', cacheTranscript env videoId lang t w = (Ok tt, w') /\ cache_only w w'.
Proof.
  unfold cacheTranscript, bind at 1.
  destruct (initializeCache_ok w) as (w1 & -> & Hco & Hf).
  unfold try_catch, bind, call_Date_now, fs_writeFile. cbn [n_writeFile tick_now].
  destruct (writeFile_error env (n_writeFile w1)) as [e|].
  - eexists; split; [reflexivity|]. eapply cache_only_then; [exact Hco|].
    eapply cache_only_then; [|apply cache_only_log].
    constructor; try reflexivity. symmetry; apply app_nil_r.
  - finish Hco.
Qed.

End CacheTotal.

(** ** The monad *)

Lemma bind_throw_inv {A B : Type} (c : M A) (f : A -> M B) (w w' : World) (e : JsError) :
  bind c f w = (Throw e, w') ->
  c w = (Throw e, w') \/ exists a w1, c w = (Ok a, w1) /\ f a w1 = (Throw e, w').
Proof.
  unfold bind. destruct (c w) as [[a|e0] w1]; intros H.
  - right. eauto.
  - left. injection H as -> ->. reflexivity.
Qed.

Lemma bind_ok {A B : Type} (c : M A) (f : A -> M B) (w w1 : World) (a : A) :
  c w = (Ok a, w1) -> bind c f w = f a w1.
Proof. unfold bind. intros ->. reflexivity. Qed.

Lemma bind_throw {A B : Type} (c : M A) (f : A -> M B) (w w1 : World) (e : JsError) :
  c w = (Throw e, w1) -> bind c f w = (Throw e, w1).
Proof. unfold bind. intros ->. reflexivity. Qed.

(** ** The primary strategy *)

Lemma primary_failure_code (error : JsError) :
  mcp_code (primary_failure error) = Some InternalError.
Proof. unfold primary_failure. destruct (_ || _)%bool; reflexivity. Qed.

Lemma primary_failure_not_rethrown (error : JsError) :
  is_McpError_other_than_InternalError (primary_failure error) = false.
Proof.
  unfold is_McpError_other_than_InternalError. rewrite primary_failure_code. reflexivity.
Qed.

(** The message of the error is never empty: it starts with the SDK's
    prefix. *)
Lemma primary_failure_message (error : JsError) (d : string) :
  JsString.or_else (message (primary_failure error)) d = message (primary_failure error).
Proof. unfold primary_failure. destruct (_ || _)%bool; reflexivity. Qed.

Section Strategies.

Variable env : Env.
Variables videoId lang : string.

(** The [catch] block of the primary strategy on the error it caught. *)
Lemma primary_handler (error : JsError) (w : World) :
  (console_error "Failed with primary transcript method:" (Some error) ;;
   let errorMsg := JsString.or_else (message error) EmptyString in
   if JsString.includes "429" errorMsg
      || JsString.includes "too many requests" errorMsg
      || JsString.includes "blocked" errorMsg
      || JsString.includes "forbidden" errorMsg
   then
     throw (new_McpError InternalError
              ("YouTube might be rate limiting or blocking this IP: " ++ errorMsg))
   else
     throw (new_McpError InternalError ("Primary transcript method failed: " ++ errorMsg))) w
  = (Throw (A := string) (primary_failure error),
     emit (EvLog "Failed with primary transcript method:" (Some error)) w).
Proof.
  unfold bind, console_error, primary_failure. cbv zeta.
  destruct (_ || _)%bool; reflexivity.
Qed.

Lemma primary_rejected (a : option string) (e : JsError) (w : World) :
  make_agent env = Resolved a ->
  getSubtitles env (n_getSubtitles w) (subtitle_options a videoId lang) = Rejected e ->
  exists w',
    fetchTranscriptWithCaptionsScraper env videoId lang w = (Throw (primary_failure e), w')
    /\ advances w w' 1 0 [EvGetSubtitles (subtitle_options a videoId lang)].
Proof.
  intros Ha He. unfold fetchTranscriptWithCaptionsScraper, try_catch.
  rewrite Ha. unfold await at 1. unfold bind at 1, ret at 1.
  unfold bind at 1, call_getSubtitles. rewrite He. unfold await, throw.
  rewrite primary_handler. eexists; split; [reflexivity|].
  eapply advances_then_cache_only; [|apply cache_only_log].
  constructor; try reflexivity. simpl. apply actions_action. reflexivity.
Qed.

Lemma primary_resolved (a : option string) (lines : list TranscriptLine) (w : World) :
  make_agent env = Resolved a ->
  getSubtitles env (n_getSubtitles w) (subtitle_options a videoId lang) = Resolved lines ->
  exists w',
    fetchTranscriptWithCaptionsScraper env videoId lang w = (Ok (formatTranscript lines), w')
    /\ advances w w' 1 0 [EvGetSubtitles (subtitle_options a videoId lang)].
Proof.
  intros Ha He. unfold fetchTranscriptWithCaptionsScraper, try_catch.
  rewrite Ha. unfold await at 1. unfold bind at 1, ret at 1.
  unfold bind at 1, call_getSubtitles. rewrite He. unfold await, ret.
  eexists; split; [reflexivity|].
  constructor; try reflexivity. simpl. apply actions_action. reflexivity.
Qed.

(** Whatever the environment answers, the primary strategy throws
    nothing but the errors its [catch] block builds. *)
Lemma primary_throws_only_failures (w w' : World) (e : JsError) :
  fetchTranscriptWithCaptionsScraper env videoId lang w = (Throw e, w') ->
  exists error, e = primary_failure error.
Proof.
  unfold fetchTranscriptWithCaptionsScraper, try_catch.
  match goal with |- context [match ?b w with _ => _ end] => destruct (b w) as [[t|e0] w1] end.
  - discriminate.
  - rewrite primary_handler. intros [= <- _]. eauto.
Qed.

(** *** The fallback strategy *)

Lemma fallback_handler (error : JsError) (w : World) :
  (console_error "Failed with fallback transcript method:" (Some error) ;;
   throw (new_McpError InternalError
            ("Fallback transcript method failed: " ++ message error))) w
  = (Throw (A := string)
       (new_McpError InternalError ("Fallback transcript method failed: " ++ message error)),
     emit (EvLog "Failed with fallback transcript method:" (Some error)) w).
Proof. reflexivity. Qed.

Lemma fallback_fails (a : option string) (w : World) :
  make_agent env = Resolved a ->
  fallback_answer_fails (fetch env (n_fetch w) (timedtext_url videoId lang) (fetch_options a)) ->
  exists e w',
    fetchTranscriptWithFallbackMethod env videoId lang w = (Throw e, w')
    /\ advances w w' 0 1 [EvFetch (timedtext_url videoId lang) (fetch_options a)].
Proof.
  intros Ha Hf. unfold fetchTranscriptWithFallbackMethod, try_catch. cbv zeta.
  rewrite Ha. unfold await at 1. unfold bind at 1, ret at 1.
  unfold bind at 1, call_fetch.
  assert (Hadv : forall msg err,
             advances w (emit (EvLog msg err)
                           (emit (EvFetch (timedtext_url videoId lang) (fetch_options a)) (tick_fetch w)))
                      0 1 [EvFetch (timedtext_url videoId lang) (fetch_options a)]).
  { intros. eapply advances_then_cache_only; [|apply cache_only_log].
    constructor; try reflexivity. simpl. apply actions_action. reflexivity. }
  inversion Hf as [e He | r Hr He | r e Hr He].
  - unfold await, throw. rewrite fallback_handler. do 2 eexists; split; [reflexivity | apply Hadv].
  - unfold await, ret. rewrite Hr. cbn [negb]. unfold throw. rewrite fallback_handler.
    do 2 eexists; split; [reflexivity | apply Hadv].
  - unfold await at 1, ret. destruct (negb (ok r)).
    + unfold throw. rewrite fallback_handler. do 2 eexists; split; [reflexivity | apply Hadv].
    + rewrite Hr. do 2 eexists; split; [reflexivity | apply Hadv].
Qed.

Lemma fallback_resolved (a : option string) (r : Response) (xml : string) (w : World) :
  make_agent env = Resolved a ->
  fetch env (n_fetch w) (timedtext_url videoId lang) (fetch_options a) = Resolved r ->
  ok r = true ->
  body_text r = Resolved xml ->
  exists w',
    fetchTranscriptWithFallbackMethod env videoId lang w = (Ok (parse_timedtext xml), w')
    /\ advances w w' 0 1 [EvFetch (timedtext_url videoId lang) (fetch_options a)].
Proof.
  intros Ha Hf Hok Hxml. unfold fetchTranscriptWithFallbackMethod, try_catch. cbv zeta.
  rewrite Ha. unfold await at 1. unfold bind at 1, ret at 1.
  unfold bind at 1, call_fetch. rewrite Hf. unfold await at 1, ret at 1.
  rewrite Hok. cbn [negb]. rewrite Hxml. unfold bind, await, ret.
  eexists; split; [reflexivity|].
  constructor; try reflexivity. simpl. apply actions_action. reflexivity.
Qed.

End Strategies.

(** ** The retry loop *)

Section Orchestrator.

Variable env : Env.
Variables videoId lang : string.

(** The wait before an attempt. *)
Lemma backoff_step (attempt : Z) (w : World) :
  exists w1,
    (if 0 <? attempt then
       let delay := retryBaseDelay * 2 ^ (attempt - 1) in
       console_error ("Retry attempt " ++ JsString.of_Z (attempt + 1) ++ "/"
                        ++ JsString.of_Z maxRetries ++ " after " ++ JsString.of_Z delay
                        ++ "ms delay") None ;;
       sleep delay
     else ret tt) w = (Ok tt, w1)
    /\ advances w w1 0 0 (backoff attempt).
Proof.
  unfold backoff. destruct (0 <? attempt).
  - eexists; split; [reflexivity|].
    eapply cache_only_then; [apply cache_only_log|].
    constructor; try reflexivity. simpl. apply actions_action. reflexivity.
  - eexists; split; [reflexivity | apply advances_refl].
Qed.

(** The [catch] block of a round on an error of the primary strategy. *)
Lemma round_handler (attempt : Z) (error : JsError) (w : World) :
  (console_error ("Attempt " ++ JsString.of_Z (attempt + 1) ++ " failed:")
     (Some (primary_failure error)) ;;
   if is_McpError_other_than_InternalError (primary_failure error)
   then throw (primary_failure error)
   else ret (Caught (primary_failure error))) w
  = (Ok (Caught (primary_failure error)),
     emit (EvLog ("Attempt " ++ JsString.of_Z (attempt + 1) ++ " failed:")
             (Some (primary_failure error))) w).
Proof. unfold bind, console_error. rewrite primary_failure_not_rethrown. reflexivity. Qed.

Lemma round_rejected (attempt : Z) (a : option string) (e : JsError) (w : World) :
  make_agent env = Resolved a ->
  getSubtitles env (n_getSubtitles w) (subtitle_options a videoId lang) = Rejected e ->
  exists w',
    primary_round env videoId lang attempt w = (Ok (Caught (primary_failure e)), w')
    /\ advances w w' 1 0 (backoff attempt ++ [EvGetSubtitles (subtitle_options a videoId lang)]).
Proof.
  intros Ha He. unfold primary_round, try_catch.
  destruct (backoff_step attempt w) as (w1 & Hd & Hadv).
  rewrite (bind_ok _ _ _ _ _ Hd).
  assert (He1 : getSubtitles env (n_getSubtitles w1) (subtitle_options a videoId lang) = Rejected e).
  { rewrite (adv_getSubtitles _ _ _ _ _ Hadv). exact He. }
  destruct (primary_rejected env videoId lang a e w1 Ha He1) as (w2 & Hp & Hadv2).
  rewrite (bind_throw _ _ _ _ _ Hp), round_handler.
  eexists; split; [reflexivity|].
  eapply advances_then_cache_only; [|apply cache_only_log].
  exact (advances_trans _ _ _ _ _ _ _ _ _ Hadv Hadv2).
Qed.

Lemma round_resolved (attempt : Z) (a : option string) (lines : list TranscriptLine) (w : World) :
  make_agent env = Resolved a ->
  getSubtitles env (n_getSubtitles w) (subtitle_options a videoId lang) = Resolved lines ->
  exists w',
    primary_round env videoId lang attempt w = (Ok (Returned (formatTranscript lines)), w')
    /\ advances w w' 1 0 (backoff attempt ++ [EvGetSubtitles (subtitle_options a videoId lang)]).
Proof.
  intros Ha He. unfold primary_round, try_catch.
  destruct (backoff_step attempt w) as (w1 & Hd & Hadv).
  rewrite (bind_ok _ _ _ _ _ Hd).
  assert (He1 : getSubtitles env (n_getSubtitles w1) (subtitle_options a videoId lang) = Resolved lines).
  { rewrite (adv_getSubtitles _ _ _ _ _ Hadv). exact He. }
  destruct (primary_resolved env videoId lang a lines w1 Ha He1) as (w2 & Hp & Hadv2).
  rewrite (bind_ok _ _ _ _ _ Hp).
  destruct (cacheTranscript_ok env videoId lang (formatTranscript lines) w2) as (w3 & Hc & Hadv3).
  rewrite (bind_ok _ _ _ _ _ Hc). unfold ret.
  eexists; split; [reflexivity|].
  eapply advances_then_cache_only; [|exact Hadv3].
  exact (advances_trans _ _ _ _ _ _ _ _ _ Hadv Hadv2).
Qed.

(** A round never throws: whatever the primary strategy does, the round
    ends with the function's [return] or with the error caught. *)
Lemma round_never_throws (attempt : Z) (w : World) :
  exists r w', primary_round env videoId lang attempt w = (Ok r, w').
Proof.
  unfold primary_round, try_catch.
  match goal with |- context [match ?b w with _ => _ end] => destruct (b w) as [[r|e] w1] eqn:Hb end.
  - eauto.
  - assert (He : exists error, e = primary_failure error).
    { apply bind_throw_inv in Hb. destruct Hb as [Hb | (u & w2 & _ & Hb)].
      - destruct (backoff_step attempt w) as (w2 & Hd & _).
        pose proof (eq_trans (eq_sym Hd) Hb) as X. discriminate X.
      - apply bind_throw_inv in Hb. destruct Hb as [Hb | (t & w3 & _ & Hb)].
        + eapply primary_throws_only_failures. exact Hb.
        + apply bind_throw_inv in Hb. destruct Hb as [Hb | (u' & w4 & _ & Hb)].
          * destruct (cacheTranscript_ok env videoId lang t w3) as (w4 & Hc & _).
            pose proof (eq_trans (eq_sym Hc) Hb) as X. discriminate X.
          * discriminate. }
    destruct He as (error & ->). rewrite round_handler. eauto.
Qed.

Lemma loop_never_throws (n : nat) (attempt : Z) (lastError : option JsError) (w : World) :
  exists r w', primary_loop env videoId lang n attempt lastError w = (Ok r, w').
Proof.
  revert attempt lastError w. induction n as [|n IH]; intros attempt lastError w.
  - simpl. unfold ret. eauto.
  - simpl. destruct (round_never_throws attempt w) as ([t|e] & w1 & Hr);
      rewrite (bind_ok _ _ _ _ _ Hr).
    + unfold ret. eauto.
    + apply IH.
Qed.

(** The three rounds when the first two attempts are rejected. *)
Lemma two_rejections (a : option string) (e1 e2 : JsError) (w : World) :
  make_agent env = Resolved a ->
  getSubtitles env (n_getSubtitles w) (subtitle_options a videoId lang) = Rejected e1 ->
  getSubtitles env (S (n_getSubtitles w)) (subtitle_options a videoId lang) = Rejected e2 ->
  exists w2,
    primary_loop env videoId lang 3 0 None w
    = primary_loop env videoId lang 1 2 (Some (primary_failure e2)) w2
    /\ advances w w2 2 0
         [EvGetSubtitles (subtitle_options a videoId lang); EvSleep 1000;
          EvGetSubtitles (subtitle_options a videoId lang)].
Proof.
  intros Ha H1 H2.
  destruct (round_rejected 0 a e1 w Ha H1) as (w1 & Hr1 & Hadv1).
  assert (H2' : getSubtitles env (n_getSubtitles w1) (subtitle_options a videoId lang) = Rejected e2).
  { rewrite (adv_getSubtitles _ _ _ _ _ Hadv1). exact H2. }
  destruct (round_rejected 1 a e2 w1 Ha H2') as (w2 & Hr2 & Hadv2).
  exists w2. split.
  - cbn [primary_loop]. rewrite (bind_ok _ _ _ _ _ Hr1). cbn iota beta.
    change (0 + 1) with 1. rewrite (bind_ok _ _ _ _ _ Hr2). reflexivity.
  - exact (advances_trans _ _ _ _ _ _ _ _ _ Hadv1 Hadv2).
Qed.

End Orchestrator.

(** ** Retry, fallback and failure of [getTranscript] *)

(** C1.  When the cache check misses and the primary strategy is
    rejected on its first two attempts and answers on the third,
    [getTranscript] returns the third answer; between the three calls of
    the captions library it waits 1000 ms ([retryBaseDelay * 2^0]) and
    then 2000 ms ([retryBaseDelay * 2^1]); the captions library is called
    three times and [fetch], the fallback, is never called. *)
Theorem C1_third_attempt_succeeds (env : Env) (videoId lang : string) (w w0 : World)
    (cached a : option string) (e1 e2 : JsError) (lines : list TranscriptLine) :
  getCachedTranscript env videoId lang w = (Ok cached, w0) ->
  truthy cached = false ->
  make_agent env = Resolved a ->
  getSubtitles env (n_getSubtitles w) (subtitle_options a videoId lang) = Rejected e1 ->
  getSubtitles env (S (n_getSubtitles w)) (subtitle_options a videoId lang) = Rejected e2 ->
  getSubtitles env (S (S (n_getSubtitles w))) (subtitle_options a videoId lang) = Resolved lines ->
  exists w',
    getTranscript env videoId lang w = (Ok (formatTranscript lines), w')
    /\ advances w w' 3 0
         [EvGetSubtitles (subtitle_options a videoId lang);
          EvSleep (retryBaseDelay * 2 ^ 0);
          EvGetSubtitles (subtitle_options a videoId lang);
          EvSleep (retryBaseDelay * 2 ^ 1);
          EvGetSubtitles (subtitle_options a videoId lang)]
    /\ retryBaseDelay * 2 ^ 0 = 1000 /\ retryBaseDelay * 2 ^ 1 = 2000.
Proof.
  intros Hc Hmiss Ha H1 H2 H3.
  destruct (getCachedTranscript_ok env videoId lang w) as (r & w0' & Hc' & Hco).
  rewrite Hc in Hc'. injection Hc' as <- <-.
  assert (Hn : n_getSubtitles w0 = n_getSubtitles w) by exact (adv_getSubtitles _ _ _ _ _ Hco).
  rewrite <- Hn in H1, H2, H3.
  destruct (two_rejections env videoId lang a e1 e2 w0 Ha H1 H2) as (w2 & Hloop & Hadv2).
  assert (H3' : getSubtitles env (n_getSubtitles w2) (subtitle_options a videoId lang)
                = Resolved lines).
  { rewrite (adv_getSubtitles _ _ _ _ _ Hadv2). exact H3. }
  destruct (round_resolved env videoId lang 2 a lines w2 Ha H3') as (w3 & Hr3 & Hadv3).
  exists w3. split; [|split; [|split; reflexivity]].
  - unfold getTranscript. rewrite (bind_ok _ _ _ _ _ Hc), Hmiss.
    unfold fetch_stages. change (Z.to_nat (maxRetries - 0)) with 3%nat.
    unfold bind at 1. rewrite Hloop. cbn [primary_loop].
    rewrite (bind_ok _ _ _ _ _ Hr3). reflexivity.
  - eapply cache_only_then; [exact Hco|].
    exact (advances_trans _ _ _ _ _ _ _ _ _ Hadv2 Hadv3).
Qed.

Lemma C1_third_attempt_succeeds_witness :
  exists w',
    getTranscript env_third_time "dQw4w9WgXcQ" "en" fresh_world = (Ok "Hello world", w')
    /\ advances fresh_world w' 3 0
         [EvGetSubtitles (subtitle_options None "dQw4w9WgXcQ" "en"); EvSleep 1000;
          EvGetSubtitles (subtitle_options None "dQw4w9WgXcQ" "en"); EvSleep 2000;
          EvGetSubtitles (subtitle_options None "dQw4w9WgXcQ" "en")]
    /\ retryBaseDelay * 2 ^ 0 = 1000 /\ retryBaseDelay * 2 ^ 1 = 2000.
Proof.
  exact (C1_third_attempt_succeeds env_third_time "dQw4w9WgXcQ" "en" fresh_world
           (snd (getCachedTranscript env_third_time "dQw4w9WgXcQ" "en" fresh_world))
           None None (new_Error "429 too many requests") (new_Error "socket hang up")
           hello_lines eq_refl eq_refl eq_refl eq_refl eq_refl eq_refl).
Defined.

(** C2.  When the cache check misses, the three primary attempts are
    rejected and the answer to the one fallback request fails as well,
    [getTranscript] throws an [McpError] with code [InternalError] whose
    message ends with the message of the error the primary strategy threw
    last; the captions library was called three times and [fetch] once. *)
Theorem C2_total_failure (env : Env) (videoId lang : string) (w w0 : World)
    (cached a : option string) (e1 e2 e3 : JsError) :
  getCachedTranscript env videoId lang w = (Ok cached, w0) ->
  truthy cached = false ->
  make_agent env = Resolved a ->
  getSubtitles env (n_getSubtitles w) (subtitle_options a videoId lang) = Rejected e1 ->
  getSubtitles env (S (n_getSubtitles w)) (subtitle_options a videoId lang) = Rejected e2 ->
  getSubtitles env (S (S (n_getSubtitles w))) (subtitle_options a videoId lang) = Rejected e3 ->
  fallback_answer_fails (fetch env (n_fetch w) (timedtext_url videoId lang) (fetch_options a)) ->
  exists w',
    getTranscript env videoId lang w
    = (Throw (new_McpError InternalError
                ("Failed to retrieve transcript after multiple attempts: "
                   ++ message (primary_failure e3))), w')
    /\ advances w w' 3 1
         [EvGetSubtitles (subtitle_options a videoId lang);
          EvSleep 1000;
          EvGetSubtitles (subtitle_options a videoId lang);
          EvSleep 2000;
          EvGetSubtitles (subtitle_options a videoId lang);
          EvFetch (timedtext_url videoId lang) (fetch_options a)].
Proof.
  intros Hc Hmiss Ha H1 H2 H3 Hf.
  destruct (getCachedTranscript_ok env videoId lang w) as (r & w0' & Hc' & Hco).
  rewrite Hc in Hc'. injection Hc' as <- <-.
  assert (Hn : n_getSubtitles w0 = n_getSubtitles w) by exact (adv_getSubtitles _ _ _ _ _ Hco).
  assert (Hm : n_fetch w0 = n_fetch w) by exact (adv_fetch _ _ _ _ _ Hco).
  rewrite <- Hn in H1, H2, H3. rewrite <- Hm in Hf.
  destruct (two_rejections env videoId lang a e1 e2 w0 Ha H1 H2) as (w2 & Hloop & Hadv2).
  assert (H3' : getSubtitles env (n_getSubtitles w2) (subtitle_options a videoId lang)
                = Rejected e3).
  { rewrite (adv_getSubtitles _ _ _ _ _ Hadv2). exact H3. }
  destruct (round_rejected env videoId lang 2 a e3 w2 Ha H3') as (w3 & Hr3 & Hadv3).
  pose proof (advances_trans _ _ _ _ _ _ _ _ _ Hadv2 Hadv3) as Hadv.
  set (w4 := emit (EvLog "Trying fallback method to fetch transcript" None) w3).
  pose proof (advances_then_cache_only _ _ _ _ _ _ Hadv
                (cache_only_log w3 "Trying fallback method to fetch transcript" None)) as Hadv4.
  fold w4 in Hadv4.
  assert (Hf' : fallback_answer_fails
                  (fetch env (n_fetch w4) (timedtext_url videoId lang) (fetch_options a))).
  { rewrite (adv_fetch _ _ _ _ _ Hadv4). exact Hf. }
  destruct (fallback_fails env videoId lang a w4 Ha Hf') as (e & w5 & Hfb & Hadv5).
  eexists. split.
  - unfold getTranscript. rewrite (bind_ok _ _ _ _ _ Hc), Hmiss.
    unfold fetch_stages. change (Z.to_nat (maxRetries - 0)) with 3%nat.
    unfold bind at 1. rewrite Hloop. cbn [primary_loop].
    rewrite (bind_ok _ _ _ _ _ Hr3). cbn iota beta. unfold ret at 1.
    unfold fallback_stage, try_catch.
    unfold bind at 1, console_error at 1. fold w4.
    rewrite (bind_throw _ _ _ _ _ Hfb).
    unfold bind, console_error, throw, lastError_message.
    rewrite primary_failure_message. reflexivity.
  - eapply cache_only_then; [exact Hco|].
    eapply advances_then_cache_only; [|apply cache_only_log].
    exact (advances_trans _ _ _ _ _ _ _ _ _ Hadv4 Hadv5).
Qed.

Lemma C2_total_failure_witness :
  exists w',
    getTranscript env_all_fail "dQw4w9WgXcQ" "en" fresh_world
    = (Throw (new_McpError InternalError
                ("Failed to retrieve transcript after multiple attempts: "
                   ++ "MCP error -32603: Primary transcript method failed: no captions")), w')
    /\ advances fresh_world w' 3 1
         [EvGetSubtitles (subtitle_options None "dQw4w9WgXcQ" "en"); EvSleep 1000;
          EvGetSubtitles (subtitle_options None "dQw4w9WgXcQ" "en"); EvSleep 2000;
          EvGetSubtitles (subtitle_options None "dQw4w9WgXcQ" "en");
          EvFetch (timedtext_url "dQw4w9WgXcQ" "en") (fetch_options None)].
Proof.
  exact (C2_total_failure env_all_fail "dQw4w9WgXcQ" "en" fresh_world
           (snd (getCachedTranscript env_all_fail "dQw4w9WgXcQ" "en" fresh_world))
           None None (new_Error "blocked") (new_Error "socket hang up")
           (new_Error "no captions") eq_refl eq_refl eq_refl eq_refl eq_refl eq_refl
           (fails_status (mkResponse false 404 (Resolved "Not Found")) eq_refl)).
Defined.

(** When the three primary attempts are rejected and the fallback
    request is answered, its parsed body is returned: three calls of the
    captions library, one of [fetch]. *)
Lemma fallback_after_three_rejections (env : Env) (videoId lang : string) (w w0 : World)
    (cached a : option string) (e1 e2 e3 : JsError) (r : Response) (xml : string) :
  getCachedTranscript env videoId lang w = (Ok cached, w0) ->
  truthy cached = false ->
  make_agent env = Resolved a ->
  getSubtitles env (n_getSubtitles w) (subtitle_options a videoId lang) = Rejected e1 ->
  getSubtitles env (S (n_getSubtitles w)) (subtitle_options a videoId lang) = Rejected e2 ->
  getSubtitles env (S (S (n_getSubtitles w))) (subtitle_options a videoId lang) = Rejected e3 ->
  fetch env (n_fetch w) (timedtext_url videoId lang) (fetch_options a) = Resolved r ->
  ok r = true ->
  body_text r = Resolved xml ->
  exists w',
    getTranscript env videoId lang w = (Ok (parse_timedtext xml), w')
    /\ advances w w' 3 1
         [EvGetSubtitles (subtitle_options a videoId lang);
          EvSleep 1000;
          EvGetSubtitles (subtitle_options a videoId lang);
          EvSleep 2000;
          EvGetSubtitles (subtitle_options a videoId lang);
          EvFetch (timedtext_url videoId lang) (fetch_options a)].
Proof.
  intros Hc Hmiss Ha H1 H2 H3 Hf Hok Hxml.
  destruct (getCachedTranscript_ok env videoId lang w) as (c & w0' & Hc' & Hco).
  rewrite Hc in Hc'. injection Hc' as <- <-.
  assert (Hn : n_getSubtitles w0 = n_getSubtitles w) by exact (adv_getSubtitles _ _ _ _ _ Hco).
  assert (Hm : n_fetch w0 = n_fetch w) by exact (adv_fetch _ _ _ _ _ Hco).
  rewrite <- Hn in H1, H2, H3. rewrite <- Hm in Hf.
  destruct (two_rejections env videoId lang a e1 e2 w0 Ha H1 H2) as (w2 & Hloop & Hadv2).
  assert (H3' : getSubtitles env (n_getSubtitles w2) (subtitle_options a videoId lang)
                = Rejected e3).
  { rewrite (adv_getSubtitles _ _ _ _ _ Hadv2). exact H3. }
  destruct (round_rejected env videoId lang 2 a e3 w2 Ha H3') as (w3 & Hr3 & Hadv3).
  pose proof (advances_trans _ _ _ _ _ _ _ _ _ Hadv2 Hadv3) as Hadv.
  set (w4 := emit (EvLog "Trying fallback method to fetch transcript" None) w3).
  pose proof (advances_then_cache_only _ _ _ _ _ _ Hadv
                (cache_only_log w3 "Trying fallback method to fetch transcript" None)) as Hadv4.
  fold w4 in Hadv4.
  assert (Hf' : fetch env (n_fetch w4) (timedtext_url videoId lang) (fetch_options a)
                = Resolved r).
  { rewrite (adv_fetch _ _ _ _ _ Hadv4). exact Hf. }
  destruct (fallback_resolved env videoId lang a r xml w4 Ha Hf' Hok Hxml) as (w5 & Hfb & Hadv5).
  destruct (cacheTranscript_ok env videoId lang (parse_timedtext xml) w5) as (w6 & Hst & Hadv6).
  exists w6. split.
  - unfold getTranscript. rewrite (bind_ok _ _ _ _ _ Hc), Hmiss.
    unfold fetch_stages. change (Z.to_nat (maxRetries - 0)) with 3%nat.
    unfold bind at 1. rewrite Hloop. cbn [primary_loop].
    rewrite (bind_ok _ _ _ _ _ Hr3). cbn iota beta. unfold ret at 1.
    unfold fallback_stage, try_catch.
    unfold bind at 1, console_error at 1. fold w4.
    rewrite (bind_ok _ _ _ _ _ Hfb), (bind_ok _ _ _ _ _ Hst). reflexivity.
  - eapply cache_only_then; [exact Hco|].
    eapply advances_then_cache_only; [|exact Hadv6].
    exact (advances_trans _ _ _ _ _ _ _ _ _ Hadv4 Hadv5).
Qed.

(** C10.  Every error the primary strategy throws is one its [catch]
    block built, an [McpError] with code [InternalError], for which the
    test of the retry loop's early exit is false.  Hence no round of the
    loop rethrows: a round ends with the function's [return] or with the
    error kept for the next round, and the loop ends with a [return] or
    exhausted, on the way to the fallback. *)
Theorem C10_primary_errors_never_abort (env : Env) (videoId lang : string) :
  (forall (w w' : World) (e : JsError),
      fetchTranscriptWithCaptionsScraper env videoId lang w = (Throw e, w') ->
      (exists error, e = primary_failure error)
      /\ mcp_code e = Some InternalError
      /\ is_McpError_other_than_InternalError e = false)
  /\ (forall (attempt : Z) (w : World),
         exists r w', primary_round env videoId lang attempt w = (Ok r, w'))
  /\ (forall (n : nat) (attempt : Z) (lastError : option JsError) (w : World),
         exists r w', primary_loop env videoId lang n attempt lastError w = (Ok r, w')).
Proof.
  split; [|split].
  - intros w w' e H.
    destruct (primary_throws_only_failures env videoId lang w w' e H) as (error & ->).
    split; [eauto | split; [apply primary_failure_code | apply primary_failure_not_rethrown]].
  - apply round_never_throws.
  - apply loop_never_throws.
Qed.

Lemma C10_primary_errors_never_abort_witness :
  fetchTranscriptWithCaptionsScraper env_all_fail "dQw4w9WgXcQ" "en" fresh_world
  = (Throw (primary_failure (new_Error "blocked")),
     snd (fetchTranscriptWithCaptionsScraper env_all_fail "dQw4w9WgXcQ" "en" fresh_world))
  /\ mcp_code (primary_failure (new_Error "blocked")) = Some InternalError
  /\ is_McpError_other_than_InternalError (primary_failure (new_Error "blocked")) = false.
Proof.
  split; [reflexivity|].
  exact (proj2 (proj1 (C10_primary_errors_never_abort env_all_fail "dQw4w9WgXcQ" "en")
                  fresh_world _ _ eq_refl)).
Defined.

(** ** Strings *)

Lemma append_cons (c : ascii) (s t : string) : String c s ++ t = String c (s ++ t).
Proof. reflexivity. Qed.

Lemma append_assoc (a b c : string) : (a ++ b) ++ c = a ++ (b ++ c).
Proof. induction a as [|x a IH]; [reflexivity|]. rewrite !append_cons, IH. reflexivity. Qed.

Lemma append_empty_r (a : string) : a ++ EmptyString = a.
Proof. induction a as [|x a IH]; [reflexivity|]. rewrite append_cons, IH. reflexivity. Qed.

Lemma length_append (a b : string) :
  String.length (a ++ b) = (String.length a + String.length b)%nat.
Proof. induction a as [|x a IH]; [reflexivity|]. rewrite append_cons. simpl. rewrite IH. reflexivity. Qed.

Lemma startsWith_append (p s : string) : JsString.startsWith p (p ++ s) = true.
Proof.
  induction p as [|c p IH]; [reflexivity|].
  rewrite append_cons. simpl. rewrite Ascii.eqb_refl. exact IH.
Qed.

Lemma slice_from_append (p s : string) : JsString.slice_from (String.length p) (p ++ s) = s.
Proof. induction p as [|c p IH]; [reflexivity|]. rewrite append_cons. exact IH. Qed.

Lemma take_append (p s : string) : JsString.take (String.length p) (p ++ s) = p.
Proof.
  induction p as [|c p IH]; [destruct s; reflexivity|].
  rewrite append_cons. simpl. rewrite IH. reflexivity.
Qed.

(** ** The JSON form of a cache entry can be read back *)

Lemma strip_prefix_append (p s : string) : Json.strip_prefix p (p ++ s) = Some s.
Proof. unfold Json.strip_prefix. rewrite startsWith_append, slice_from_append. reflexivity. Qed.

Lemma strip_last_append (c : ascii) (s : string) :
  Json.strip_last c (s ++ String c EmptyString) = Some s.
Proof.
  induction s as [|a s IH].
  - simpl. rewrite Ascii.eqb_refl. reflexivity.
  - rewrite append_cons. simpl. rewrite IH. destruct s; reflexivity.
Qed.

Lemma parse_quote_char (c : ascii) (x : string) :
  Json.parse_string_body (Json.quote_char c ++ x) = Json.cons_fst c (Json.parse_string_body x).
Proof. destruct c as [[] [] [] [] [] [] [] []]; reflexivity. Qed.

Lemma parse_quote_body (s rest : string) :
  Json.parse_string_body (Json.quote_body s ++ String Json.dquote rest) = Some (s, rest).
Proof.
  induction s as [|c s IH]; [reflexivity|].
  simpl Json.quote_body. rewrite append_assoc, parse_quote_char, IH. reflexivity.
Qed.

Lemma to_Z_of_Z (z : Z) : JsString.to_Z (JsString.of_Z z) = Some z.
Proof.
  unfold JsString.to_Z, JsString.of_Z.
  rewrite NilZero.isi.
  - rewrite DecimalZ.of_to. reflexivity.
  - destruct z; simpl; try discriminate.
    intros [= H]. exact (DecimalPos.Unsigned.to_uint_nonnil _ H).
  - destruct z; simpl; try discriminate.
    intros [= H]. exact (DecimalPos.Unsigned.to_uint_nonnil _ H).
Qed.

Lemma parse_int_of_Z (z : Z) : Json.parse_int (JsString.of_Z z) = Some z.
Proof. unfold Json.parse_int. rewrite to_Z_of_Z, String.eqb_refl. reflexivity. Qed.

Lemma json_round_trip (c : CachedTranscript) : Json.parse (Json.stringify c) = Some c.
Proof.
  destruct c as [t z]. unfold Json.parse.
  set (p1 := "{" ++ Json.quote "transcript" ++ ":" ++ String Json.dquote EmptyString).
  set (p2 := "," ++ Json.quote "timestamp" ++ ":").
  assert (E : Json.stringify (mkCached t z)
              = p1 ++ (Json.quote_body t ++ String Json.dquote (p2 ++ (JsString.of_Z z ++ "}")))).
  { transitivity (p1 ++ ((Json.quote_body t ++ String Json.dquote EmptyString)
                           ++ (p2 ++ (JsString.of_Z z ++ "}")))).
    - reflexivity.
    - rewrite append_assoc. reflexivity. }
  rewrite E, strip_prefix_append, parse_quote_body, strip_prefix_append, strip_last_append,
    parse_int_of_Z. reflexivity.
Qed.

(** ** The cache *)

Section Cache.

Variable env : Env.
Variables videoId lang : string.

Lemma initializeCache_frame (w : World) :
  exists w1, initializeCache env w = (Ok tt, w1) /\ init_frame w w1.
Proof.
  unfold initializeCache. destruct (cacheInitialized w).
  - eexists; split; [reflexivity | by constructor].
  - unfold try_catch, bind, fs_mkdir. destruct (mkdir_error env (n_mkdir w)).
    + eexists; split; [reflexivity | by constructor].
    + eexists; split; [reflexivity | by constructor].
Qed.


(** The file the store leaves behind when the write succeeds. *)
Lemma store_writes (t : string) (w : World) :
  writeFile_error env (n_writeFile w) = None ->
  exists w1,
    cacheTranscript env videoId lang t w = (Ok tt, w1)
    /\ files w1 = <[cacheFilePath env videoId lang :=
                      Json.stringify (mkCached t (Date_now env (n_now w)))]> (files w).
Proof.
  intros Hw. unfold cacheTranscript.
  destruct (initializeCache_frame w) as (w0 & Hi & [Hf Hn _ Hwr _]).
  rewrite (bind_ok _ _ _ _ _ Hi).
  unfold try_catch, bind, call_Date_now, fs_writeFile. cbn [n_writeFile tick_now].
  rewrite Hwr, Hw, Hn. eexists; split; [reflexivity|]. cbn [files set_files tick_writeFile tick_now].
  rewrite Hf. reflexivity.
Qed.


(** The lookup on a readable entry: the text when it is younger than
    the TTL, nothing otherwise (whether or not the file can be deleted). *)
Lemma lookup_entry (c : CachedTranscript) (w : World) :
  readFile_error env (n_readFile w) = None ->
  files w !! cacheFilePath env videoId lang = Some (Json.stringify c) ->
  fst (getCachedTranscript env videoId lang w)
  = Ok (if Date_now env (n_now w) - timestamp c <? cacheTTL then Some (transcript c) else None).
Proof.
  intros Hr Hfile. unfold getCachedTranscript.
  destruct (initializeCache_frame w) as (w0 & Hi & [Hf Hn Hrd _ Hu]).
  rewrite (bind_ok _ _ _ _ _ Hi).
  unfold try_catch, bind at 1, fs_readFile. rewrite Hrd, Hr, Hf, Hfile.
  unfold bind at 1, JSON_parse. rewrite json_round_trip. unfold ret at 1.
  unfold bind at 1, call_Date_now. cbn [n_now tick_readFile]. rewrite Hn.
  destruct (_ <? _); [reflexivity|].
  unfold bind, fs_unlink. destruct (unlink_error env _); [reflexivity|].
  cbn [files tick_now tick_readFile]. rewrite Hf, Hfile. reflexivity.
Qed.

(** An expired entry is deleted when [unlink] works. *)
Lemma lookup_expired_deletes (c : CachedTranscript) (w : World) :
  readFile_error env (n_readFile w) = None ->
  files w !! cacheFilePath env videoId lang = Some (Json.stringify c) ->
  (Date_now env (n_now w) - timestamp c <? cacheTTL) = false ->
  unlink_error env (n_unlink w) = None ->
  files (snd (getCachedTranscript env videoId lang w)) !! cacheFilePath env videoId lang = None.
Proof.
  intros Hr Hfile Hexp Hul. unfold getCachedTranscript.
  destruct (initializeCache_frame w) as (w0 & Hi & [Hf Hn Hrd _ Hu]).
  rewrite (bind_ok _ _ _ _ _ Hi).
  unfold try_catch, bind at 1, fs_readFile. rewrite Hrd, Hr, Hf, Hfile.
  unfold bind at 1, JSON_parse. rewrite json_round_trip. unfold ret at 1.
  unfold bind at 1, call_Date_now. cbn [n_now tick_readFile]. rewrite Hn, Hexp.
  unfold bind, fs_unlink. cbn [n_unlink tick_now tick_readFile files]. rewrite Hu, Hul, Hf, Hfile.
  cbn [snd files set_files]. apply lookup_delete_eq.
Qed.

(** Without a file there is nothing to return. *)
Lemma lookup_missing (w : World) :
  files w !! cacheFilePath env videoId lang = None ->
  fst (getCachedTranscript env videoId lang w) = Ok None.
Proof.
  intros Hfile. unfold getCachedTranscript.
  destruct (initializeCache_frame w) as (w0 & Hi & [Hf Hn Hrd _ Hu]).
  rewrite (bind_ok _ _ _ _ _ Hi).
  unfold try_catch, bind at 1, fs_readFile. rewrite Hf, Hfile.
  destruct (readFile_error env _); reflexivity.
Qed.



End Cache.

(** ** The cache in [getTranscript] *)

(** A hit with a text that is not empty is returned as it is: no network
    call, no delay. *)
Lemma cache_hit_returns_cached_text (env : Env) (videoId lang t : string) (w w0 : World) :
  getCachedTranscript env videoId lang w = (Ok (Some t), w0) ->
  JsString.falsy t = false ->
  getTranscript env videoId lang w = (Ok t, w0) /\ cache_only w w0.
Proof.
  intros Hc Ht. split.
  - unfold getTranscript. rewrite (bind_ok _ _ _ _ _ Hc). unfold truthy. rewrite Ht. reflexivity.
  - destruct (getCachedTranscript_ok env videoId lang w) as (r & w' & Hc' & Hco).
    rewrite Hc in Hc'. injection Hc' as _ <-. exact Hco.
Qed.

(** C3 (fails on the code).  The captions library answers with no line,
    so the transcript is the empty string; [getTranscript] returns it and
    stores it.  One millisecond later the lookup finds that entry (a hit:
    stored and not expired), yet a second [getTranscript] does not return
    it from the cache: [if (cachedTranscript)] takes the empty string for
    a miss and the captions library is called again. *)
Theorem C3_empty_cached_text_is_fetched_again :
  let first := getTranscript env_no_captions "dQw4w9WgXcQ" "en" fresh_world in
  let w1 := snd first in
  fst first = Ok EmptyString
  /\ files w1 !! "/tmp/youtube-transcript-cache/dQw4w9WgXcQ_en.json"
     = Some (Json.stringify (mkCached EmptyString 1000))
  /\ fst (getCachedTranscript env_no_captions "dQw4w9WgXcQ" "en" w1) = Ok (Some EmptyString)
  /\ exists w2,
       getTranscript env_no_captions "dQw4w9WgXcQ" "en" w1 = (Ok EmptyString, w2)
       /\ advances w1 w2 1 0 [EvGetSubtitles (subtitle_options None "dQw4w9WgXcQ" "en")].
Proof.
  cbv zeta. split; [vm_compute; reflexivity|]. split; [vm_compute; reflexivity|].
  split; [vm_compute; reflexivity|].
  eexists. split; [vm_compute; reflexivity|]. constructor; vm_compute; reflexivity.
Qed.

(** ** Round trip and expiry of a cache entry *)

(** C4.  After [cacheTranscript] has written the entry, a lookup made
    while the file is still the one written returns exactly the text when
    the time read by the lookup is less than 24 hours after the time
    stamp, and nothing otherwise; an expired entry is deleted (when
    [unlink] succeeds), and without the file every lookup returns nothing
    until something is stored again.  A second store replaces the
    first: the lookup then returns the second text. *)
Theorem C4_cache_round_trip_and_expiry (env : Env) (videoId lang text : string) (w w' : World) :
  let path := cacheFilePath env videoId lang in
  let stored := snd (cacheTranscript env videoId lang text w) in
  let writtenAt := Date_now env (n_now w) in
  let read_at := Date_now env (n_now w') in
  writeFile_error env (n_writeFile w) = None ->
  files w' !! path = files stored !! path ->
  readFile_error env (n_readFile w') = None ->
  fst (getCachedTranscript env videoId lang w')
  = Ok (if read_at - writtenAt <? cacheTTL then Some text else None)
  /\ (cacheTTL <= read_at - writtenAt ->
      unlink_error env (n_unlink w') = None ->
      files (snd (getCachedTranscript env videoId lang w')) !! path = None)
  /\ (forall w3 : World,
         files w3 !! path = None ->
         fst (getCachedTranscript env videoId lang w3) = Ok None)
  /\ (forall (text2 : string) (w'' : World),
         let stored2 := snd (cacheTranscript env videoId lang text2 stored) in
         writeFile_error env (n_writeFile stored) = None ->
         files w'' !! path = files stored2 !! path ->
         readFile_error env (n_readFile w'') = None ->
         fst (getCachedTranscript env videoId lang w'')
         = Ok (if Date_now env (n_now w'') - Date_now env (n_now stored) <? cacheTTL
               then Some text2 else None))
  /\ cacheTTL = 24 * 60 * 60 * 1000.
Proof.
  intros path stored writtenAt read_at Hw Hsame Hr.
  assert (Hentry : forall (t : string) (v v' : World),
             writeFile_error env (n_writeFile v) = None ->
             files v' !! path = files (snd (cacheTranscript env videoId lang t v)) !! path ->
             files v' !! path = Some (Json.stringify (mkCached t (Date_now env (n_now v))))).
  { intros t v v' Hv Hs. destruct (store_writes env videoId lang t v Hv) as (v1 & Hst & Hfiles).
    rewrite Hs, Hst. cbn [snd]. rewrite Hfiles. apply lookup_insert_eq. }
  pose proof (Hentry text w w' Hw Hsame) as Hfile.
  split; [|split; [|split; [|split]]].
  - rewrite (lookup_entry env videoId lang _ w' Hr Hfile). reflexivity.
  - intros Hexp Hul.
    apply (lookup_expired_deletes env videoId lang _ w' Hr Hfile); [|exact Hul].
    cbn [timestamp]. apply Z.ltb_ge. exact Hexp.
  - intros w3 H3. apply lookup_missing. exact H3.
  - intros text2 w'' stored2 Hw2 Hsame2 Hr2.
    pose proof (Hentry text2 stored w'' Hw2 Hsame2) as Hfile2.
    rewrite (lookup_entry env videoId lang _ w'' Hr2 Hfile2). reflexivity.
  - reflexivity.
Qed.

Lemma C4_cache_round_trip_and_expiry_witness :
  (let stored := snd (cacheTranscript env_no_captions "dQw4w9WgXcQ" "en" "Hello world" fresh_world) in
   fst (getCachedTranscript env_no_captions "dQw4w9WgXcQ" "en" stored) = Ok (Some "Hello world"))
  /\ (let stored := snd (cacheTranscript env_daily_clock "dQw4w9WgXcQ" "en" "Hello world" fresh_world) in
      fst (getCachedTranscript env_daily_clock "dQw4w9WgXcQ" "en" stored) = Ok None
      /\ files (snd (getCachedTranscript env_daily_clock "dQw4w9WgXcQ" "en" stored))
           !! cacheFilePath env_daily_clock "dQw4w9WgXcQ" "en" = None).
Proof.
  split.
  - pose proof (C4_cache_round_trip_and_expiry env_no_captions "dQw4w9WgXcQ" "en" "Hello world"
                  fresh_world
                  (snd (cacheTranscript env_no_captions "dQw4w9WgXcQ" "en" "Hello world" fresh_world))) as H.
    cbv zeta in H.
    assert (H1 : writeFile_error env_no_captions (n_writeFile fresh_world) = None) by reflexivity.
    specialize (H H1 eq_refl).
    assert (H2 : readFile_error env_no_captions (n_readFile (snd (cacheTranscript env_no_captions "dQw4w9WgXcQ" "en" "Hello world" fresh_world))) = None) by reflexivity.
    specialize (H H2).
    destruct H as [H _]. vm_compute in H. vm_compute. exact H.
  - pose proof (C4_cache_round_trip_and_expiry env_daily_clock "dQw4w9WgXcQ" "en" "Hello world"
                  fresh_world
                  (snd (cacheTranscript env_daily_clock "dQw4w9WgXcQ" "en" "Hello world" fresh_world))
                  eq_refl eq_refl eq_refl) as H.
    cbv zeta in H. destruct H as (Ha & Hb & _).
    split.
    + vm_compute in Ha. vm_compute. exact Ha.
    + assert (Hexp : cacheTTL <= Date_now env_daily_clock (n_now (snd (cacheTranscript env_daily_clock "dQw4w9WgXcQ" "en" "Hello world" fresh_world))) - Date_now env_daily_clock (n_now fresh_world)) by (vm_compute; discriminate).
      specialize (Hb Hexp eq_refl). exact Hb.
Defined.

(** ** Failures of the cache layer *)

Section CacheFailures.

Variable env : Env.
Variables videoId lang : string.

(** The only error [getTranscript] lets out is the one it builds after
    the fallback has failed. *)
Lemma getTranscript_throws_only_retrieval_failure (w w' : World) (e : JsError) :
  getTranscript env videoId lang w = (Throw e, w') ->
  exists lastError,
    e = new_McpError InternalError
          ("Failed to retrieve transcript after multiple attempts: "
             ++ lastError_message lastError).
Proof.
  unfold getTranscript. intros H.
  apply bind_throw_inv in H. destruct H as [H | (cached & w0 & _ & H)].
  { destruct (getCachedTranscript_ok env videoId lang w) as (r & w1 & Hc & _).
    rewrite Hc in H. discriminate. }
  destruct (truthy cached); [discriminate|].
  unfold fetch_stages in H.
  apply bind_throw_inv in H. destruct H as [H | (r & w1 & _ & H)].
  { destruct (loop_never_throws env videoId lang (Z.to_nat (maxRetries - 0)) 0 None w0)
      as (r & w1 & Hl).
    rewrite Hl in H. discriminate. }
  destruct r as [t|lastError]; [discriminate|].
  exists lastError. unfold fallback_stage, try_catch in H.
  match type of H with
  | match ?b w1 with _ => _ end = _ => destruct (b w1) as [[t|e0] w2]
  end; [discriminate|].
  injection H as <- _. reflexivity.
Qed.

(** The transcript of a first attempt that succeeds is returned whatever
    the file system does to the store that follows. *)
Lemma first_attempt_returns (w w0 : World) (cached a : option string)
    (lines : list TranscriptLine) :
  getCachedTranscript env videoId lang w = (Ok cached, w0) ->
  truthy cached = false ->
  make_agent env = Resolved a ->
  getSubtitles env (n_getSubtitles w) (subtitle_options a videoId lang) = Resolved lines ->
  fst (getTranscript env videoId lang w) = Ok (formatTranscript lines).
Proof.
  intros Hc Hmiss Ha H1.
  destruct (getCachedTranscript_ok env videoId lang w) as (r & w0' & Hc' & Hco).
  rewrite Hc in Hc'. injection Hc' as <- <-.
  assert (Hn : n_getSubtitles w0 = n_getSubtitles w) by exact (adv_getSubtitles _ _ _ _ _ Hco).
  rewrite <- Hn in H1.
  destruct (round_resolved env videoId lang 0 a lines w0 Ha H1) as (w1 & Hr & _).
  unfold getTranscript. rewrite (bind_ok _ _ _ _ _ Hc), Hmiss.
  unfold fetch_stages. change (Z.to_nat (maxRetries - 0)) with 3%nat.
  cbn [primary_loop]. unfold bind at 1. rewrite (bind_ok _ _ _ _ _ Hr). reflexivity.
Qed.

End CacheFailures.




(** ** The pattern of a video identifier *)

Lemma all_chars_append (p : ascii -> bool) (a b : string) :
  Url.all_chars p (a ++ b) = Url.all_chars p a && Url.all_chars p b.
Proof.
  induction a as [|c a IH]; [reflexivity|].
  rewrite append_cons. simpl. rewrite IH. apply andb_assoc.
Qed.

(** [r{n}] for a one-character [r]: the next [n] characters satisfy it. *)
Lemma times_one (p : ascii -> bool) (k : nat -> string -> option nat) (n i : nat) (s : string) :
  RegExp.times (fun i s k => RegExp.one p i s k) k n i s
  = if (n <=? String.length s)%nat && Url.all_chars p (JsString.take n s)
    then k (n + i)%nat (JsString.slice_from n s)
    else None.
Proof.
  revert i s. induction n as [|n IH]; intros i s.
  - simpl. destruct s; reflexivity.
  - destruct s as [|c s]; [reflexivity|].
    simpl RegExp.times. unfold RegExp.one at 1. destruct (p c) eqn:Hp.
    + rewrite IH. simpl. rewrite Hp. simpl. rewrite Nat.add_succ_r. reflexivity.
    + simpl. rewrite Hp. rewrite andb_false_r. reflexivity.
Qed.

Lemma take_all (s : string) : JsString.take (String.length s) s = s.
Proof. induction s as [|c s IH]; [reflexivity|]. simpl. rewrite IH. reflexivity. Qed.

Lemma slice_from_all (s : string) : JsString.slice_from (String.length s) s = EmptyString.
Proof. induction s as [|c s IH]; [reflexivity|]. exact IH. Qed.

Lemma slice_from_empty (n : nat) (s : string) :
  JsString.slice_from n s = EmptyString -> (String.length s <= n)%nat.
Proof.
  revert s. induction n as [|n IH]; intros s H.
  - simpl in H. subst s. reflexivity.
  - destruct s as [|c s]; simpl in *; [lia|]. apply IH in H. lia.
Qed.

(** The pattern at index 0: exactly eleven characters of the alphabet. *)
Lemma exec_video_id (s : string) :
  RegExp.exec_at re_video_id 0 s = if valid_video_id s then Some 11%nat else None.
Proof.
  unfold RegExp.exec_at, re_video_id. cbn [RegExp.m Nat.eqb].
  rewrite (times_one id_char). unfold valid_video_id.
  destruct (11 <=? String.length s)%nat eqn:Hle.
  - apply Nat.leb_le in Hle.
    destruct (JsString.slice_from 11 s) eqn:Hrest.
    + apply slice_from_empty in Hrest.
      assert (Hlen : String.length s = 11%nat) by lia.
      rewrite <- Hlen at 1. rewrite take_all. rewrite Hlen. cbn [Nat.eqb andb].
      destruct (Url.all_chars id_char s); reflexivity.
    + assert (Hlen : (String.length s =? 11)%nat = false).
      { apply Nat.eqb_neq. intros Hlen. rewrite <- Hlen, slice_from_all in Hrest. discriminate. }
      rewrite Hlen. cbn [andb]. destruct (Url.all_chars id_char _); reflexivity.
  - assert (Hlen : (String.length s =? 11)%nat = false).
    { apply Nat.eqb_neq. apply Nat.leb_gt in Hle. lia. }
    rewrite Hlen. reflexivity.
Qed.

(** Anchored at the start, the pattern matches nowhere else. *)
Lemma test_video_id_later (i : nat) (s : string) :
  RegExp.test_from re_video_id (S i) s = false.
Proof.
  revert i. induction s as [|c s IH]; intros i.
  - reflexivity.
  - simpl RegExp.test_from. unfold RegExp.exec_at, re_video_id. cbn [RegExp.m Nat.eqb]. apply IH.
Qed.

(** [/^[a-zA-Z0-9_-]{11}$/.test(s)] *)
Lemma test_video_id (s : string) : RegExp.test re_video_id s = valid_video_id s.
Proof.
  unfold RegExp.test. destruct s as [|c s].
  - reflexivity.
  - cbn [RegExp.test_from]. rewrite exec_video_id, test_video_id_later.
    destruct (valid_video_id _); reflexivity.
Qed.

(** ** Identifiers are not URLs *)





Lemma all_chars_impl (p q : ascii -> bool) (s : string) :
  (forall c, p c = true -> q c = true) ->
  Url.all_chars p s = true -> Url.all_chars q s = true.
Proof.
  intros Hpq. induction s as [|c s IH]; [reflexivity|]. simpl.
  intros H. apply andb_true_iff in H as [Hc Hs]. rewrite (Hpq c Hc), (IH Hs). reflexivity.
Qed.







(** ** [extractYoutubeId] *)

(** An input that is not a URL is returned only when it matches the
    pattern: this branch validates. *)
Lemma raw_identifier_is_validated (input videoId : string) :
  Url.parse input = None ->
  extractYoutubeId input = Ok videoId ->
  videoId = input /\ valid_video_id videoId = true.
Proof.
  intros Hp. unfold extractYoutubeId, extractYoutubeId_try, extractYoutubeId_catch.
  rewrite Hp, test_video_id.
  destruct (JsString.falsy input); [discriminate|].
  destruct (valid_video_id input) eqn:Hv; [|discriminate].
  cbn [negb]. intros [= <-]. split; [reflexivity | exact Hv].
Qed.

(** C6 (fails on the code).  The identifier taken from a short link or
    from the [v] parameter is returned without being matched against the
    pattern: [https://youtu.be/abc] gives the three characters [abc], a
    short link without a path gives the empty string, and a [v]
    parameter may hold any text.  The tool handler passes such an
    identifier on: the captions library is called for [abc] and the cache
    file is named after it. *)
Theorem C6_url_identifiers_are_not_validated :
  extractYoutubeId "https://youtu.be/abc" = Ok "abc"
  /\ RegExp.test re_video_id "abc" = false
  /\ extractYoutubeId "https://youtu.be/" = Ok EmptyString
  /\ extractYoutubeId "https://www.youtube.com/watch?v=../../x" = Ok "../../x"
  /\ (let '(r, w) := get_transcript_tool (env_answers hello_lines) "https://youtu.be/abc" "en"
                       fresh_world in
      actions (trace w) = [EvGetSubtitles (subtitle_options None "abc" "en")]
      /\ files w !! "/tmp/youtube-transcript-cache/abc_en.json"
         = Some (Json.stringify (mkCached "Hello world" 1000))).
Proof.
  split; [vm_compute; reflexivity|]. split; [vm_compute; reflexivity|].
  split; [vm_compute; reflexivity|]. split; [vm_compute; reflexivity|].
  vm_compute. split; reflexivity.
Qed.




(** ** The matcher on the patterns of the fallback *)

Lemma length_lt_append (a b : string) : (String.length a < S (String.length (a ++ b)))%nat.
Proof. rewrite length_append. lia. Qed.

Lemma or_try_none_r (a : option nat) : RegExp.or_try a None = a.
Proof. destruct a; reflexivity. Qed.

Lemma succ_eqb (i : nat) : (S i =? i)%nat = false.
Proof. apply Nat.eqb_neq. lia. Qed.

(** A literal word matches exactly when the subject starts with it. *)
Lemma m_Lit (w : string) (i : nat) (s : string) (k : nat -> string -> option nat) :
  RegExp.m (RegExp.Lit w) i s k
  = if JsString.startsWith w s
    then k (String.length w + i)%nat (JsString.slice_from (String.length w) s)
    else None.
Proof.
  revert i s. induction w as [|c w IH]; intros i s.
  - reflexivity.
  - destruct w as [|d w].
    + destruct s as [|a s]; [reflexivity|]. simpl.
      rewrite andb_true_r. reflexivity.
    + change (RegExp.Lit (String c (String d w)))
        with (RegExp.Cat (RegExp.Chr c) (RegExp.Lit (String d w))).
      cbn [RegExp.m]. destruct s as [|a s]; [reflexivity|].
      unfold RegExp.one.
      change (JsString.startsWith (String c (String d w)) (String a s))
        with (Ascii.eqb c a && JsString.startsWith (String d w) s).
      destruct (Ascii.eqb c a); [|reflexivity].
      rewrite IH. cbn [andb]. destruct (JsString.startsWith (String d w) s); [|reflexivity].
      cbn [String.length JsString.slice_from]. rewrite Nat.add_succ_r. reflexivity.
Qed.

Lemma not_gt_class (c : ascii) : RegExp.in_class true [(">", ">")]%char c = negb (Ascii.eqb c ">").
Proof. destruct c as [[] [] [] [] [] [] [] []]; reflexivity. Qed.

(** [[^>]*>] on a text without [>] followed by [>]: the star takes the
    whole text, whatever the continuation does afterwards. *)
Lemma star_not_gt (a rest : string) (k : nat -> string -> option nat) (fuel i : nat) :
  lacks ">" a = true ->
  (String.length a < fuel)%nat ->
  RegExp.star_greedy (RegExp.m not_gt) (fun j t => RegExp.m (RegExp.Chr ">") j t k) fuel i
    (a ++ String ">" rest)
  = k (S (String.length a + i)) rest.
Proof.
  revert fuel i. induction a as [|c a IH]; intros fuel i Ha Hfuel.
  - destruct fuel as [|f]; [simpl in Hfuel; lia|]. reflexivity.
  - destruct fuel as [|f]; [simpl in Hfuel; lia|].
    simpl in Ha. apply andb_true_iff in Ha as [Hc Ha].
    rewrite append_cons. cbn [RegExp.star_greedy RegExp.m not_gt]. unfold RegExp.one at 1 3.
    rewrite not_gt_class, Hc, succ_eqb.
    change (RegExp.Class true [(">"%char, ">"%char)]) with not_gt.
    rewrite IH; [|exact Ha|simpl in Hfuel; lia].
    unfold RegExp.one.
    rewrite (Ascii.eqb_sym ">" c). apply negb_true_iff in Hc. rewrite Hc, or_try_none_r.
    cbn [String.length]. rewrite Nat.add_succ_r. reflexivity.
Qed.

(** [.*?</text>] on a one-line text without [<] followed by [</text>]:
    the lazy star stops at that closing tag. *)
Lemma lazy_dot_until_close (c rest : string) (fuel i : nat) :
  lacks "<" c = true ->
  single_line c = true ->
  (String.length c < fuel)%nat ->
  RegExp.star_lazy (RegExp.m RegExp.Dot)
    (fun j t => RegExp.m (RegExp.Lit "</text>") j t (fun j _ => Some j)) fuel i
    (c ++ "</text>" ++ rest)
  = Some (7 + (String.length c + i))%nat.
Proof.
  revert fuel i. induction c as [|x c IH]; intros fuel i Hc Hl Hfuel.
  - destruct fuel as [|f]; [simpl in Hfuel; lia|].
    cbn [RegExp.star_lazy]. rewrite m_Lit. reflexivity.
  - destruct fuel as [|f]; [simpl in Hfuel; lia|].
    simpl in Hc, Hl. apply andb_true_iff in Hc as [Hx Hc]. apply andb_true_iff in Hl as [Hxl Hl].
    rewrite append_cons. cbn [RegExp.star_lazy]. rewrite m_Lit.
    cbn [JsString.startsWith]. rewrite (Ascii.eqb_sym "<" x).
    apply negb_true_iff in Hx. rewrite Hx. cbn [andb RegExp.or_try RegExp.m].
    unfold RegExp.one. rewrite Hxl, succ_eqb.
    rewrite IH; [|exact Hc|exact Hl|simpl in Hfuel; lia].
    cbn [String.length]. rewrite Nat.add_succ_r. reflexivity.
Qed.

(** The span pattern matches a well-formed element in full. *)
Lemma exec_text_span (attrs c rest : string) (i : nat) :
  lacks ">" attrs = true ->
  lacks "<" c = true ->
  single_line c = true ->
  RegExp.exec_at re_text_span i ("<text" ++ attrs ++ ">" ++ c ++ "</text>" ++ rest)
  = Some (String.length ("<text" ++ attrs ++ ">" ++ c ++ "</text>") + i)%nat.
Proof.
  intros Ha Hc Hl. unfold RegExp.exec_at, re_text_span.
  cbn [RegExp.m]. rewrite m_Lit, startsWith_append, slice_from_append.
  change (RegExp.Class true [(">"%char, ">"%char)]) with not_gt.
  change (attrs ++ ">" ++ c ++ "</text>" ++ rest)
    with (attrs ++ String ">" (c ++ "</text>" ++ rest)).
  etransitivity; [apply star_not_gt; [exact Ha | apply length_lt_append]|].
  etransitivity; [apply lazy_dot_until_close; [exact Hc | exact Hl | apply length_lt_append]|].
  f_equal. rewrite !length_append. simpl. lia.
Qed.

(** It matches nowhere but at the opening of an element. *)
Lemma exec_text_span_none (s : string) (i : nat) :
  JsString.startsWith "<text" s = false -> RegExp.exec_at re_text_span i s = None.
Proof.
  intros H. unfold RegExp.exec_at, re_text_span. cbn [RegExp.m]. rewrite m_Lit, H. reflexivity.
Qed.

(** The tag pattern matches a tag in full. *)
Lemma exec_tag (a rest : string) (i : nat) :
  lacks ">" a = true ->
  RegExp.exec_at re_tag i (String "<" (a ++ String ">" rest)) = Some (S (S (String.length a + i))).
Proof.
  intros Ha. unfold RegExp.exec_at, re_tag. cbn [RegExp.m]. unfold RegExp.one at 1.
  cbn [Ascii.eqb Bool.eqb].
  etransitivity; [apply star_not_gt; [exact Ha | apply length_lt_append]|].
  f_equal. lia.
Qed.

Lemma exec_tag_none (c : ascii) (s : string) (i : nat) :
  Ascii.eqb c "<" = false -> RegExp.exec_at re_tag i (String c s) = None.
Proof.
  intros H. unfold RegExp.exec_at, re_tag. cbn [RegExp.m]. unfold RegExp.one at 1.
  rewrite (Ascii.eqb_sym "<" c), H. reflexivity.
Qed.

(** ** Global matching and replacing *)

Lemma scan_skip (r : RegExp.regex) (a b : string) (i : nat) :
  RegExp.scan r (String.length a) i (a ++ b) = RegExp.scan r O (String.length a + i)%nat b.
Proof.
  revert i. induction a as [|c a IH]; intros i.
  - reflexivity.
  - rewrite append_cons. cbn [String.length RegExp.scan]. rewrite IH.
    rewrite Nat.add_succ_r. reflexivity.
Qed.

(** A match at the current index is recorded and the search resumes
    behind it. *)
Lemma scan_match (r : RegExp.regex) (c : ascii) (a b : string) (i : nat) :
  RegExp.exec_at r i (String c (a ++ b)) = Some (S (String.length a) + i)%nat ->
  RegExp.scan r O i (String c (a ++ b))
  = String c a :: RegExp.scan r O (S (String.length a) + i)%nat b.
Proof.
  intros H. cbn [RegExp.scan]. rewrite H.
  replace (S (String.length a) + i - i)%nat with (S (String.length a)) by lia.
  cbn [JsString.take]. rewrite take_append.
  replace (S (String.length a) - 1)%nat with (String.length a) by lia.
  rewrite scan_skip. rewrite Nat.add_succ_r. reflexivity.
Qed.

(** Markup in which no [<text] occurs cannot start a span, even when a
    [<] or nothing follows it. *)
Lemma no_span_start_across (c : ascii) (j rest : string) :
  JsString.includes "<text" (String c j) = false ->
  rest = EmptyString \/ JsString.startsWith "<" rest = true ->
  JsString.startsWith "<text" (String c j ++ rest) = false.
Proof.
  intros H Hrest. cbn [JsString.includes] in H. apply orb_false_iff in H as [H _].
  assert (Hr : rest = EmptyString \/ exists r, rest = String "<" r).
  { destruct Hrest as [-> | Hr]; [left; reflexivity|].
    destruct rest as [|x r]; [discriminate|]. right. exists r.
    cbn [JsString.startsWith] in Hr. rewrite andb_true_r in Hr.
    apply Ascii.eqb_eq in Hr. subst x. reflexivity. }
  destruct j as [|c2 [|c3 [|c4 [|c5 j]]]]; rewrite ?append_cons.
  1-4: destruct Hr as [-> | (r & ->)]; simpl; rewrite ?andb_false_r; reflexivity.
  simpl in H |- *. exact H.
Qed.

Lemma scan_markup (j rest : string) (i : nat) :
  JsString.includes "<text" j = false ->
  rest = EmptyString \/ JsString.startsWith "<" rest = true ->
  RegExp.scan re_text_span O i (j ++ rest)
  = RegExp.scan re_text_span O (String.length j + i)%nat rest.
Proof.
  revert i. induction j as [|c j IH]; intros i H Hrest.
  - reflexivity.
  - pose proof (no_span_start_across c j rest H Hrest) as Hno.
    rewrite append_cons in Hno |- *. cbn [RegExp.scan].
    rewrite (exec_text_span_none _ i Hno).
    cbn [JsString.includes] in H. apply orb_false_iff in H as [_ H].
    rewrite (IH (S i) H Hrest). cbn [String.length]. rewrite Nat.add_succ_r. reflexivity.
Qed.

Lemma well_formed_parts (sp : Span) :
  well_formed sp = true ->
  lacks ">" (attributes sp) = true /\ lacks "<" (content sp) = true
  /\ single_line (content sp) = true /\ JsString.includes "<text" (after sp) = false.
Proof.
  unfold well_formed. intros H.
  apply andb_true_iff in H as [H H4]. apply andb_true_iff in H as [H H3].
  apply andb_true_iff in H as [H1 H2]. apply negb_true_iff in H4. auto.
Qed.

Lemma render_start (spans : list Span) :
  render spans = EmptyString \/ JsString.startsWith "<" (render spans) = true.
Proof. destruct spans as [|sp spans]; [left | right]; reflexivity. Qed.

(** The matches of the span pattern in a rendering of well-formed spans
    are the elements, in order. *)
Lemma scan_render (spans : list Span) (i : nat) :
  forallb well_formed spans = true ->
  RegExp.scan re_text_span O i (render spans) = map element spans.
Proof.
  revert i. induction spans as [|sp spans IH]; intros i Hwf.
  - reflexivity.
  - simpl in Hwf. apply andb_true_iff in Hwf as [Hsp Hwf].
    destruct (well_formed_parts sp Hsp) as (Ha & Hc & Hl & Hj).
    cbn [render map].
    set (tail := after sp ++ render spans).
    assert (E : element sp ++ tail
                = String "<" (("text" ++ attributes sp ++ ">" ++ content sp ++ "</text>") ++ tail)).
    { reflexivity. }
    assert (E' : String "<" ("text" ++ attributes sp ++ ">" ++ content sp ++ "</text>")
                 = element sp) by reflexivity.
    rewrite E, scan_match.
    + rewrite E'. f_equal. unfold tail. rewrite scan_markup; [|exact Hj|apply render_start].
      apply IH. exact Hwf.
    + rewrite <- E.
      assert (E2 : element sp ++ tail
                   = "<text" ++ attributes sp ++ ">" ++ content sp ++ "</text>" ++ tail).
      { unfold element. rewrite !append_assoc. reflexivity. }
      rewrite E2, exec_text_span; [|exact Ha|exact Hc|exact Hl]. reflexivity.
Qed.

Lemma replace_skip (r : RegExp.regex) (rep a b : string) (i : nat) :
  RegExp.replace_go r rep (String.length a) i (a ++ b)
  = RegExp.replace_go r rep O (String.length a + i)%nat b.
Proof.
  revert i. induction a as [|c a IH]; intros i.
  - reflexivity.
  - rewrite append_cons. cbn [String.length RegExp.replace_go]. rewrite IH.
    rewrite Nat.add_succ_r. reflexivity.
Qed.

(** A tag is removed. *)
Lemma replace_tag (a rest : string) (i : nat) :
  lacks ">" a = true ->
  RegExp.replace_go re_tag EmptyString O i (String "<" (a ++ String ">" rest))
  = RegExp.replace_go re_tag EmptyString O (S (S (String.length a + i))) rest.
Proof.
  intros Ha. cbn [RegExp.replace_go]. rewrite (exec_tag a rest i Ha).
  assert (Hne : (S (S (String.length a + i)) =? i)%nat = false) by (apply Nat.eqb_neq; lia).
  rewrite Hne.
  replace (S (S (String.length a + i)) - i - 1)%nat with (String.length (a ++ ">"))
    by (rewrite length_append; simpl; lia).
  change (a ++ String ">" rest) with (a ++ ">" ++ rest). rewrite <- append_assoc.
  rewrite replace_skip, length_append.
  change (EmptyString ++ ?x) with x.
  replace (String.length a + String.length ">" + S i)%nat with (S (S (String.length a + i)))
    by (simpl; lia).
  reflexivity.
Qed.

(** Text without [<] is kept. *)
Lemma replace_tag_text (c rest : string) (i : nat) :
  lacks "<" c = true ->
  RegExp.replace_go re_tag EmptyString O i (c ++ rest)
  = c ++ RegExp.replace_go re_tag EmptyString O (String.length c + i)%nat rest.
Proof.
  revert i. induction c as [|x c IH]; intros i Hc.
  - reflexivity.
  - simpl in Hc. apply andb_true_iff in Hc as [Hx Hc]. apply negb_true_iff in Hx.
    rewrite !append_cons. cbn [RegExp.replace_go]. rewrite (exec_tag_none x _ i Hx).
    rewrite (IH (S i) Hc). cbn [String.length]. rewrite Nat.add_succ_r. reflexivity.
Qed.

(** Stripping the tags of a well-formed element leaves its content. *)
Lemma strip_tags_element (sp : Span) :
  lacks ">" (attributes sp) = true ->
  lacks "<" (content sp) = true ->
  RegExp.replace_g re_tag EmptyString (element sp) = content sp.
Proof.
  intros Ha Hc. unfold RegExp.replace_g.
  assert (E : element sp
              = String "<" (("text" ++ attributes sp) ++ String ">" (content sp ++ "</text>"))).
  { unfold element. rewrite append_assoc. reflexivity. }
  rewrite E, replace_tag.
  - rewrite replace_tag_text; [|exact Hc].
    change "</text>" with (String "<" ("/text" ++ String ">" EmptyString)).
    rewrite replace_tag; [|reflexivity]. cbn [RegExp.replace_go].
    unfold RegExp.exec_at, re_tag. cbn [RegExp.m RegExp.one]. apply append_empty_r.
  - unfold lacks. rewrite all_chars_append. fold (lacks ">" (attributes sp)). rewrite Ha.
    reflexivity.
Qed.

(** A literal replacement leaves a text alone in which the first
    character of the word does not occur. *)
Lemma lit_replace_absent (c0 : ascii) (pat rep s : string) :
  lacks c0 s = true ->
  lit_replace (String c0 pat) rep s = s.
Proof.
  intros H. unfold lit_replace, RegExp.replace_g.
  assert (G : forall i, RegExp.replace_go (RegExp.Lit (String c0 pat)) rep O i s = s);
    [|apply G].
  induction s as [|x s IH]; intros i.
  - cbn [RegExp.replace_go]. unfold RegExp.exec_at. rewrite m_Lit. reflexivity.
  - simpl in H. apply andb_true_iff in H as [Hx H]. apply negb_true_iff in Hx.
    cbn [RegExp.replace_go]. unfold RegExp.exec_at. rewrite m_Lit.
    cbn [JsString.startsWith]. rewrite (Ascii.eqb_sym c0 x), Hx. cbn [andb].
    rewrite (IH H). reflexivity.
Qed.

(** Without an ampersand there is nothing to unescape. *)
Lemma unescape_entities_plain (s : string) :
  lacks "&" s = true -> unescape_entities s = s.
Proof.
  intros H. unfold unescape_entities.
  rewrite (lit_replace_absent "&" "amp;" "&" s H).
  rewrite (lit_replace_absent "&" "lt;" "<" s H).
  rewrite (lit_replace_absent "&" "gt;" ">" s H).
  rewrite (lit_replace_absent "&" "quot;" _ s H).
  apply (lit_replace_absent "&" "#39;" "'" s H).
Qed.

(** The parsing of a body made of well-formed spans. *)
Lemma parse_timedtext_render (prefix : string) (spans : list Span) :
  JsString.includes "<text" prefix = false ->
  forallb well_formed spans = true ->
  parse_timedtext (prefix ++ render spans)
  = JsString.join " " (map (fun sp => unescape_entities (JsString.trim (content sp))) spans).
Proof.
  intros Hp Hwf. unfold parse_timedtext, RegExp.match_g.
  rewrite scan_markup; [|exact Hp|apply render_start].
  rewrite scan_render; [|exact Hwf].
  assert (E : map span_text (map element spans)
              = map (fun sp => unescape_entities (JsString.trim (content sp))) spans).
  { rewrite map_map. apply map_ext_in. intros sp Hin.
    assert (Hsp : well_formed sp = true).
    { rewrite forallb_forall in Hwf. apply Hwf. exact Hin. }
    destruct (well_formed_parts sp Hsp) as (Ha & Hc & _ & _).
    unfold span_text. rewrite (strip_tags_element sp Ha Hc). reflexivity. }
  destruct (map element spans) eqn:Hm.
  - destruct spans; [reflexivity | discriminate].
  - rewrite <- E. reflexivity.
Qed.

(** ** The five replacements against a single pass *)

Lemma add_eqb_self (n i : nat) : (n + i =? i)%nat = (n =? 0)%nat.
Proof.
  destruct n as [|n]; [simpl; apply Nat.eqb_refl|].
  simpl Nat.eqb at 2. apply Nat.eqb_neq. lia.
Qed.

(** For a literal word the index plays no role. *)
Lemma replace_go_Lit_index (p rep : string) (skip i j : nat) (s : string) :
  RegExp.replace_go (RegExp.Lit p) rep skip i s = RegExp.replace_go (RegExp.Lit p) rep skip j s.
Proof.
  revert skip i j. induction s as [|c s IH]; intros skip i j.
  - destruct skip; [|reflexivity]. cbn [RegExp.replace_go]. unfold RegExp.exec_at.
    rewrite !m_Lit. destruct (JsString.startsWith p EmptyString); reflexivity.
  - destruct skip as [|k].
    + cbn [RegExp.replace_go]. unfold RegExp.exec_at. rewrite !m_Lit.
      destruct (JsString.startsWith p (String c s)).
      * rewrite !add_eqb_self.
        replace (String.length p + i - i - 1)%nat with (String.length p - 1)%nat by lia.
        replace (String.length p + j - j - 1)%nat with (String.length p - 1)%nat by lia.
        rewrite (IH O (S i) (S j)), (IH (String.length p - 1)%nat (S i) (S j)). reflexivity.
      * rewrite (IH O (S i) (S j)). reflexivity.
    + cbn [RegExp.replace_go]. apply IH.
Qed.

Lemma lit_replace_empty (p rep : string) (c : ascii) :
  lit_replace (String c p) rep EmptyString = EmptyString.
Proof.
  unfold lit_replace, RegExp.replace_g. cbn [RegExp.replace_go].
  unfold RegExp.exec_at. rewrite m_Lit. reflexivity.
Qed.

(** Where the word does not start, the character is kept. *)
Lemma lit_replace_keep (p rep : string) (c : ascii) (s : string) :
  JsString.startsWith p (String c s) = false ->
  lit_replace p rep (String c s) = String c (lit_replace p rep s).
Proof.
  intros H. unfold lit_replace, RegExp.replace_g. cbn [RegExp.replace_go].
  unfold RegExp.exec_at. rewrite m_Lit, H. f_equal. apply replace_go_Lit_index.
Qed.

(** Where it starts, it is replaced and the search resumes behind it. *)
Lemma lit_replace_here (p rep : string) (c : ascii) (s : string) :
  lit_replace (String c p) rep (String c p ++ s) = rep ++ lit_replace (String c p) rep s.
Proof.
  unfold lit_replace, RegExp.replace_g. rewrite append_cons. cbn [RegExp.replace_go].
  unfold RegExp.exec_at. rewrite m_Lit.
  change (JsString.startsWith (String c p) (String c (p ++ s)))
    with (JsString.startsWith (String c p) (String c p ++ s)).
  rewrite startsWith_append. cbn [String.length Nat.add Nat.eqb Nat.sub].
  rewrite Nat.add_0_r, Nat.sub_0_r, replace_skip. f_equal. apply replace_go_Lit_index.
Qed.

(** A text in which the first character of the word does not occur is
    passed over. *)
Lemma lit_replace_through (c0 : ascii) (p rep t s : string) :
  lacks c0 t = true ->
  lit_replace (String c0 p) rep (t ++ s) = t ++ lit_replace (String c0 p) rep s.
Proof.
  induction t as [|x t IH]; intros H; [reflexivity|].
  simpl in H. apply andb_true_iff in H as [Hx H]. apply negb_true_iff in Hx.
  rewrite !append_cons, lit_replace_keep.
  - rewrite (IH H). reflexivity.
  - cbn [JsString.startsWith]. rewrite (Ascii.eqb_sym c0 x), Hx. reflexivity.
Qed.

Lemma lit_replace_absent_word (p rep s : string) :
  JsString.includes p s = false -> lit_replace p rep s = s.
Proof.
  induction s as [|c s IH]; intros H.
  - cbn [JsString.includes] in H. rewrite orb_false_r in H.
    unfold lit_replace, RegExp.replace_g. cbn [RegExp.replace_go].
    unfold RegExp.exec_at. rewrite m_Lit, H. reflexivity.
  - cbn [JsString.includes] in H. apply orb_false_iff in H as [H1 H2].
    rewrite lit_replace_keep; [|exact H1]. rewrite (IH H2). reflexivity.
Qed.

Lemma startsWith_split (p s : string) :
  JsString.startsWith p s = true -> s = p ++ JsString.slice_from (String.length p) s.
Proof.
  revert s. induction p as [|a p IH]; intros s H; [reflexivity|].
  destruct s as [|b s]; [discriminate|]. cbn [JsString.startsWith] in H.
  apply andb_true_iff in H as [Hab H]. apply Ascii.eqb_eq in Hab. subst b.
  rewrite append_cons. cbn [String.length JsString.slice_from]. rewrite <- (IH s H). reflexivity.
Qed.

Lemma includes_suffix (p a b : string) :
  JsString.includes p (a ++ b) = false -> JsString.includes p b = false.
Proof.
  induction a as [|c a IH]; intros H; [exact H|].
  rewrite append_cons in H. cbn [JsString.includes] in H.
  apply orb_false_iff in H as [_ H]. exact (IH H).
Qed.

(** Replacing a word that begins with [c0] by the character [r] does not
    change whether the result starts with a text free of [c0] and [r]. *)
Lemma startsWith_after_replace (c0 r : ascii) (p t s : string) :
  lacks c0 t = true ->
  lacks r t = true ->
  JsString.startsWith t (lit_replace (String c0 p) (String r EmptyString) s)
  = JsString.startsWith t s.
Proof.
  revert s. induction t as [|x t IH]; intros s H0 Hr; [reflexivity|].
  simpl in H0, Hr. apply andb_true_iff in H0 as [Hx0 H0]. apply andb_true_iff in Hr as [Hxr Hr].
  apply negb_true_iff in Hx0, Hxr.
  destruct s as [|y s]; [rewrite lit_replace_empty; reflexivity|].
  destruct (JsString.startsWith (String c0 p) (String y s)) eqn:Hm.
  - pose proof (startsWith_split _ _ Hm) as E. rewrite E, lit_replace_here.
    rewrite !append_cons. cbn [JsString.startsWith]. rewrite Hxr, Hx0. reflexivity.
  - rewrite lit_replace_keep; [|exact Hm]. cbn [JsString.startsWith].
    rewrite (IH s H0 Hr). reflexivity.
Qed.

Lemma once_skip (a b : string) :
  unescape_once_go (String.length a) (a ++ b) = unescape_once_go O b.
Proof.
  induction a as [|c a IH]; [reflexivity|].
  rewrite append_cons. cbn [String.length unescape_once_go]. exact IH.
Qed.

(** The single pass on an entity reference. *)
Lemma once_here (e : string * string) (s : string) :
  In e entities -> unescape_once (fst e ++ s) = snd e ++ unescape_once s.
Proof.
  intros He. unfold entities in He. cbn [In] in He. unfold unescape_once.
  destruct He as [<- | [<- | [<- | [<- | [<- | []]]]]]; cbn [fst snd].
  - exact (f_equal (append "&") (once_skip "amp;" s)).
  - exact (f_equal (append "<") (once_skip "lt;" s)).
  - exact (f_equal (append ">") (once_skip "gt;" s)).
  - exact (f_equal (append (String Json.dquote EmptyString)) (once_skip "quot;" s)).
  - exact (f_equal (append "'") (once_skip "#39;" s)).
Qed.

(** The single pass where no entity reference starts. *)
Lemma once_keep (c : ascii) (s : string) :
  forallb (fun e => negb (JsString.startsWith (fst e) (String c s))) entities = true ->
  unescape_once (String c s) = String c (unescape_once s).
Proof.
  intros H. unfold unescape_once. cbn [unescape_once_go].
  assert (E : List.filter (fun e => JsString.startsWith (fst e) (String c s)) entities = []).
  { revert H. generalize entities. intros l. induction l as [|e l IH]; [reflexivity|].
    cbn [forallb List.filter]. intros H. apply andb_true_iff in H as [He H].
    apply negb_true_iff in He. rewrite He. exact (IH H). }
  rewrite E. reflexivity.
Qed.

(** A replacement passes over a word that begins like its own but is
    another one. *)
Lemma lit_replace_pass (p rep w s : string) :
  (forall x, JsString.startsWith (String "&" p) (String "&" (w ++ x)) = false) ->
  lacks "&" w = true ->
  lit_replace (String "&" p) rep (String "&" w ++ s)
  = String "&" w ++ lit_replace (String "&" p) rep s.
Proof.
  intros Hno Hw. rewrite !append_cons, lit_replace_keep; [|apply Hno].
  rewrite (lit_replace_through "&" p rep w s Hw). reflexivity.
Qed.

Lemma startsWith_cons (a b : ascii) (p s : string) :
  JsString.startsWith (String a p) (String b s) = Ascii.eqb a b && JsString.startsWith p s.
Proof. reflexivity. Qed.

Ltac in_entities := cbn [entities In]; repeat (first [left; reflexivity | right]).

Lemma after_amp_single_pass (n : nat) (s : string) :
  (String.length s <= n)%nat ->
  JsString.includes "&amp;" s = false ->
  after_amp s = unescape_once s.
Proof.
  revert s. induction n as [|n IH]; intros s Hn Hamp.
  - destruct s; [reflexivity | simpl in Hn; lia].
  - destruct s as [|c s0]; [reflexivity|].
    assert (Hshort : forall p s1, String c s0 = p ++ s1 -> (1 <= String.length p)%nat ->
                                  after_amp s1 = unescape_once s1).
    { intros p s1 E Hp. apply IH.
      - apply (f_equal String.length) in E. rewrite length_append in E. simpl in E, Hn. lia.
      - rewrite E in Hamp. exact (includes_suffix _ _ _ Hamp). }
    assert (H1 : JsString.startsWith "&amp;" (String c s0) = false).
    { cbn [JsString.includes] in Hamp. apply orb_false_iff in Hamp as [H _]. exact H. }
    destruct (JsString.startsWith "&lt;" (String c s0)) eqn:H2.
    { pose proof (startsWith_split _ _ H2) as E. rewrite E.
      rewrite (once_here ("&lt;", "<")); [|in_entities]. cbn [fst snd].
      rewrite <- (Hshort _ _ E); [|simpl; lia]. unfold after_amp.
      rewrite lit_replace_here.
      rewrite (lit_replace_through "&" "gt;" ">" "<"); [|reflexivity].
      rewrite (lit_replace_through "&" "quot;" (String Json.dquote EmptyString) "<");
        [|reflexivity].
      rewrite (lit_replace_through "&" "#39;" "'" "<"); [|reflexivity].
      reflexivity. }
    destruct (JsString.startsWith "&gt;" (String c s0)) eqn:H3.
    { pose proof (startsWith_split _ _ H3) as E. rewrite E.
      rewrite (once_here ("&gt;", ">")); [|in_entities]. cbn [fst snd].
      rewrite <- (Hshort _ _ E); [|simpl; lia]. unfold after_amp.
      rewrite (lit_replace_pass "lt;" "<" "gt;"); [|intros x; reflexivity|reflexivity].
      rewrite lit_replace_here.
      rewrite (lit_replace_through "&" "quot;" (String Json.dquote EmptyString) ">");
        [|reflexivity].
      rewrite (lit_replace_through "&" "#39;" "'" ">"); [|reflexivity].
      reflexivity. }
    destruct (JsString.startsWith "&quot;" (String c s0)) eqn:H4.
    { pose proof (startsWith_split _ _ H4) as E. rewrite E.
      rewrite (once_here ("&quot;", String Json.dquote EmptyString)); [|in_entities].
      cbn [fst snd].
      rewrite <- (Hshort _ _ E); [|simpl; lia]. unfold after_amp.
      rewrite (lit_replace_pass "lt;" "<" "quot;"); [|intros x; reflexivity|reflexivity].
      rewrite (lit_replace_pass "gt;" ">" "quot;"); [|intros x; reflexivity|reflexivity].
      rewrite lit_replace_here.
      rewrite (lit_replace_through "&" "#39;" "'" (String Json.dquote EmptyString));
        [|reflexivity].
      reflexivity. }
    destruct (JsString.startsWith "&#39;" (String c s0)) eqn:H5.
    { pose proof (startsWith_split _ _ H5) as E. rewrite E.
      rewrite (once_here ("&#39;", "'")); [|in_entities]. cbn [fst snd].
      rewrite <- (Hshort _ _ E); [|simpl; lia]. unfold after_amp.
      rewrite (lit_replace_pass "lt;" "<" "#39;"); [|intros x; reflexivity|reflexivity].
      rewrite (lit_replace_pass "gt;" ">" "#39;"); [|intros x; reflexivity|reflexivity].
      rewrite (lit_replace_pass "quot;" (String Json.dquote EmptyString) "#39;");
        [|intros x; reflexivity|reflexivity].
      rewrite lit_replace_here. reflexivity. }
    rewrite once_keep.
    2:{ cbn [forallb entities fst]. rewrite H1, H2, H3, H4, H5. reflexivity. }
    rewrite <- (Hshort (String c EmptyString) s0); [|reflexivity|simpl; lia].
    unfold after_amp.
    rewrite (lit_replace_keep _ _ c s0 H2).
    assert (K3 : JsString.startsWith "&gt;" (String c (lit_replace "&lt;" "<" s0)) = false).
    { rewrite startsWith_cons in H3 |- *.
      rewrite (startsWith_after_replace "&" "<" "lt;" "gt;"); [exact H3|reflexivity|reflexivity]. }
    rewrite (lit_replace_keep _ _ c _ K3).
    assert (K4 : JsString.startsWith "&quot;"
                   (String c (lit_replace "&gt;" ">" (lit_replace "&lt;" "<" s0))) = false).
    { rewrite startsWith_cons in H4 |- *.
      rewrite (startsWith_after_replace "&" ">" "gt;" "quot;"); [|reflexivity|reflexivity].
      rewrite (startsWith_after_replace "&" "<" "lt;" "quot;"); [exact H4|reflexivity|reflexivity]. }
    rewrite (lit_replace_keep _ _ c _ K4).
    assert (K5 : JsString.startsWith "&#39;"
                   (String c (lit_replace "&quot;" (String Json.dquote EmptyString)
                                (lit_replace "&gt;" ">" (lit_replace "&lt;" "<" s0)))) = false).
    { rewrite startsWith_cons in H5 |- *.
      rewrite (startsWith_after_replace "&" Json.dquote "quot;" "#39;"); [|reflexivity|reflexivity].
      rewrite (startsWith_after_replace "&" ">" "gt;" "#39;"); [|reflexivity|reflexivity].
      rewrite (startsWith_after_replace "&" "<" "lt;" "#39;"); [exact H5|reflexivity|reflexivity]. }
    rewrite (lit_replace_keep _ _ c _ K5). reflexivity.
Qed.

(** On a text in which [&amp;] does not occur, the five replacements are
    a single pass. *)
Lemma unescape_entities_single_pass (s : string) :
  JsString.includes "&amp;" s = false -> unescape_entities s = unescape_once s.
Proof.
  intros H. unfold unescape_entities. rewrite (lit_replace_absent_word "&amp;" "&" s H).
  exact (after_amp_single_pass (String.length s) s (le_n _) H).
Qed.

(** ** The fallback parsing *)

Lemma match_g_or_empty (r : RegExp.regex) (xml : string) :
  match RegExp.match_g r xml with
  | Some l => l
  | None => []
  end = RegExp.scan r O O xml.
Proof. unfold RegExp.match_g. destruct (RegExp.scan r O O xml); reflexivity. Qed.

(** C8 as stated fails: on the body [<text> a </text>] the steps the
    claim lists (extract, strip tags, unescape, join) give the content
    with its spaces, while the code also trims every span and returns
    [a]. *)
Lemma C8_spans_are_trimmed :
  parse_timedtext_as_specified "<text> a </text>" = " a "
  /\ parse_timedtext "<text> a </text>" = "a"
  /\ fst (fetchTranscriptWithFallbackMethod env_padded_span "dQw4w9WgXcQ" "en" fresh_world)
     = Ok "a"
  /\ parse_timedtext "<text> a </text>" <> parse_timedtext_as_specified "<text> a </text>".
Proof.
  split; [vm_compute; reflexivity|]. split; [vm_compute; reflexivity|].
  split; [vm_compute; reflexivity|]. vm_compute. discriminate.
Qed.

(** C8, amended.  On a successful response the fallback strategy returns
    the matches of the span pattern, each with its tags stripped, then
    trimmed, then passed through the five replacements, joined with
    single spaces.  On a body made of well-formed spans (attributes
    without [>], a one-line content without [<]) between markup that
    opens no [<text] element, the matches are those spans and the result
    is the trimmed and unescaped contents.  Each of the five entity
    references is replaced by its character, a text without ampersand is
    left as it is, on a text without [&amp;] the replacements amount to
    one pass that unescapes the five references, and
    [&amp;&lt;&gt;&quot;&#39;] gives the five characters.  Tags inside a content are removed; a span broken over
    two lines is not matched. *)
Theorem C8_fallback_parsing :
  (forall (env : Env) (videoId lang : string) (a : option string) (r : Response)
          (xml : string) (w : World),
      make_agent env = Resolved a ->
      fetch env (n_fetch w) (timedtext_url videoId lang) (fetch_options a) = Resolved r ->
      ok r = true ->
      body_text r = Resolved xml ->
      fst (fetchTranscriptWithFallbackMethod env videoId lang w)
      = Ok (JsString.join " "
              (map (fun line =>
                      unescape_entities
                        (JsString.trim (RegExp.replace_g re_tag EmptyString line)))
                   (RegExp.scan re_text_span O O xml))))
  /\ (forall (prefix : string) (spans : list Span),
         JsString.includes "<text" prefix = false ->
         forallb well_formed spans = true ->
         RegExp.scan re_text_span O O (prefix ++ render spans) = map element spans
         /\ parse_timedtext (prefix ++ render spans)
            = JsString.join " "
                (map (fun sp => unescape_entities (JsString.trim (content sp))) spans))
  /\ (forall e : string * string, In e entities -> unescape_entities (fst e) = snd e)
  /\ (forall s : string, lacks "&" s = true -> unescape_entities s = s)
  /\ (forall s : string,
         JsString.includes "&amp;" s = false -> unescape_entities s = unescape_once s)
  /\ parse_timedtext "<text>&amp;&lt;&gt;&quot;&#39;</text>"
     = "&<>" ++ String Json.dquote "'"
  /\ parse_timedtext "<text start=0>Never <i>gonna</i> give</text>" = "Never gonna give"
  /\ parse_timedtext ("<text>two" ++ String "010" "lines</text>") = EmptyString.
Proof.
  repeat apply conj.
  - intros env videoId lang a r xml w Ha Hf Hok Hxml.
    destruct (fallback_resolved env videoId lang a r xml w Ha Hf Hok Hxml) as (w' & -> & _).
    cbn [fst]. unfold parse_timedtext. rewrite match_g_or_empty. reflexivity.
  - intros prefix spans Hp Hwf. split.
    + rewrite scan_markup; [|assumption|apply render_start].
      apply scan_render. assumption.
    + apply parse_timedtext_render; assumption.
  - intros e He. unfold entities in He. cbn [In] in He.
    destruct He as [<- | [<- | [<- | [<- | [<- | []]]]]]; vm_compute; reflexivity.
  - apply unescape_entities_plain.
  - apply unescape_entities_single_pass.
  - vm_compute. reflexivity.
  - vm_compute. reflexivity.
  - vm_compute. reflexivity.
Qed.

Lemma C8_fallback_parsing_witness :
  fst (fetchTranscriptWithFallbackMethod env_two_spans "dQw4w9WgXcQ" "en" fresh_world)
  = Ok "Hello & world"
  /\ parse_timedtext
       ("<transcript>"
          ++ render [mkSpan " start=0" " Hello &amp; " EmptyString;
                     mkSpan " start=1" "world" "</transcript>"])
     = "Hello & world"
  /\ unescape_entities "&lt;" = "<"
  /\ unescape_entities "no entity" = "no entity".
Proof.
  destruct C8_fallback_parsing as (Hfetch & Hspans & Hent & Hplain & _ & _ & _ & _).
  split; [|split; [|split]].
  - pose proof (Hfetch env_two_spans "dQw4w9WgXcQ" "en" None
                  (mkResponse true 200
                     (Resolved "<transcript><text start=0> Hello &amp; </text><text start=1>world</text></transcript>"))
                  _ fresh_world eq_refl eq_refl eq_refl eq_refl) as H.
    vm_compute in H. vm_compute. exact H.
  - assert (H1 : JsString.includes "<text" "<transcript>" = false) by (vm_compute; reflexivity).
    assert (H2 : forallb well_formed
                   [mkSpan " start=0" " Hello &amp; " EmptyString;
                    mkSpan " start=1" "world" "</transcript>"] = true)
      by (vm_compute; reflexivity).
    pose proof (proj2 (Hspans _ _ H1 H2)) as H.
    vm_compute in H. vm_compute. exact H.
  - apply (Hent ("&lt;", "<")). cbn [entities In]. auto.
  - apply Hplain. vm_compute. reflexivity.
Defined.

(** C9.  The unescaping of the fallback is the chain of five global
    replacements, [&amp;] first, and so not a single pass: the text put
    back for [&amp;] is read again by the later replacements.  For a span
    whose content is [&amp;lt;] the result is [<], where one pass over the
    input gives [&lt;].  The two differ only on such nested encodings:
    on a text in which [&amp;] does not occur they agree. *)
Theorem C9_unescaping_is_not_single_pass :
  (forall content : string,
      unescape_entities content
      = lit_replace "&#39;" "'"
          (lit_replace "&quot;" (String Json.dquote EmptyString)
             (lit_replace "&gt;" ">"
                (lit_replace "&lt;" "<"
                   (lit_replace "&amp;" "&" content)))))
  /\ lit_replace "&amp;" "&" "&amp;lt;" = "&lt;"
  /\ unescape_entities "&amp;lt;" = "<"
  /\ parse_timedtext "<text>&amp;lt;</text>" = "<"
  /\ unescape_once "&amp;lt;" = "&lt;"
  /\ unescape_entities "&amp;lt;" <> unescape_once "&amp;lt;"
  /\ (forall s : string,
         JsString.includes "&amp;" s = false -> unescape_entities s = unescape_once s).
Proof.
  split; [reflexivity|]. split; [vm_compute; reflexivity|]. split; [vm_compute; reflexivity|].
  split; [vm_compute; reflexivity|]. split; [vm_compute; reflexivity|].
  split; [vm_compute; discriminate|].
  apply unescape_entities_single_pass.
Qed.

Lemma C9_unescaping_is_not_single_pass_witness :
  JsString.includes "&amp;" "&lt;b&gt; &quot;x&quot;" = false
  /\ unescape_entities "&lt;b&gt; &quot;x&quot;" = unescape_once "&lt;b&gt; &quot;x&quot;".
Proof.
  split; [vm_compute; reflexivity|].
  apply (proj2 (proj2 (proj2 (proj2 (proj2 (proj2 C9_unescaping_is_not_single_pass)))))).
  vm_compute. reflexivity.
Defined.

(** ** Footprints *)

Lemma delays_app (a b : list Event) : delays (a ++ b)%list = (delays a ++ delays b)%list.
Proof. unfold delays. apply flat_map_app. Qed.

Lemma total_delay_app (a b : list Event) :
  total_delay (a ++ b)%list = total_delay a + total_delay b.
Proof.
  unfold total_delay. rewrite delays_app.
  induction (delays a) as [|x l IH]; simpl; [reflexivity | rewrite IH; lia].
Qed.

Lemma footprint_refl (path : string) (w : World) : footprint path w w 0 0 0.
Proof. constructor; try reflexivity; try lia. intros H. split; [exact H | reflexivity]. Qed.

Lemma footprint_trans (path : string) (w1 w2 w3 : World) (a b a' b' : nat) (d d' : Z) :
  footprint path w1 w2 a b d -> footprint path w2 w3 a' b' d' ->
  footprint path w1 w3 (a + a') (b + b') (d + d').
Proof.
  intros [H1 H2 H3 H4 H5] [H1' H2' H3' H4' H5']. constructor; try lia.
  - intros p Hp. rewrite (H4' p Hp). apply H4. exact Hp.
  - intros Hi. destruct (H5 Hi) as [Hi2 Hm]. destruct (H5' Hi2) as [Hi3 Hm'].
    split; [exact Hi3 | congruence].
Qed.

Lemma footprint_weaken (path : string) (w w' : World) (a b a' b' : nat) (d d' : Z) :
  footprint path w w' a b d -> (a <= a')%nat -> (b <= b')%nat -> d <= d' ->
  footprint path w w' a' b' d'.
Proof. intros [H1 H2 H3 H4 H5] Ha Hb Hd. constructor; try lia; assumption. Qed.

Lemma total_delay_emit (ev : Event) (w : World) :
  total_delay (trace (emit ev w))
  = total_delay (trace w) + match ev with EvSleep ms => ms | _ => 0 end.
Proof. unfold emit. cbn [trace]. rewrite total_delay_app. destruct ev; cbn; lia. Qed.

Section Costs.

Variable path : string.

Ltac prim :=
  constructor; unfold await, ret, throw; cbn [snd]; rewrite ?total_delay_emit; cbn -[total_delay];
  try lia; try reflexivity;
  try (let H := fresh in intros H; split; [exact H | reflexivity]).

Lemma costs_weaken {A : Type} (c : M A) (a b a' b' : nat) (d d' : Z) :
  costs path c a b d -> (a <= a')%nat -> (b <= b')%nat -> d <= d' -> costs path c a' b' d'.
Proof. intros H Ha Hb Hd w. exact (footprint_weaken _ _ _ _ _ _ _ _ _ (H w) Ha Hb Hd). Qed.

Lemma costs_ret {A : Type} (x : A) : costs path (ret x) 0 0 0.
Proof. intros w. apply footprint_refl. Qed.

Lemma costs_throw {A : Type} (e : JsError) : costs path (throw (A := A) e) 0 0 0.
Proof. intros w. apply footprint_refl. Qed.

Lemma costs_lift {A : Type} (r : Result A) : costs path (lift r) 0 0 0.
Proof. intros w. apply footprint_refl. Qed.

Lemma costs_await {A : Type} (o : Outcome A) : costs path (await o) 0 0 0.
Proof. destruct o; intros w; apply footprint_refl. Qed.

(** Sequencing adds the costs up. *)
Lemma costs_bind {A B : Type} (c : M A) (f : A -> M B) (a b a' b' : nat) (d d' : Z) :
  costs path c a b d -> (forall x, costs path (f x) a' b' d') -> 0 <= d' ->
  costs path (bind c f) (a + a') (b + b') (d + d').
Proof.
  intros Hc Hf Hd w. unfold bind. specialize (Hc w). destruct (c w) as [[x|e] w1]; cbn [snd] in *.
  - exact (footprint_trans _ _ _ _ _ _ _ _ _ _ Hc (Hf x w1)).
  - apply (footprint_weaken _ _ _ _ _ _ _ _ _ Hc); lia.
Qed.

(** So does a handler after the body it guards. *)
Lemma costs_try_catch {A : Type} (body : M A) (handler : JsError -> M A)
    (a b a' b' : nat) (d d' : Z) :
  costs path body a b d -> (forall e, costs path (handler e) a' b' d') -> 0 <= d' ->
  costs path (try_catch body handler) (a + a') (b + b') (d + d').
Proof.
  intros Hc Hf Hd w. unfold try_catch. specialize (Hc w).
  destruct (body w) as [[x|e] w1]; cbn [snd] in *.
  - apply (footprint_weaken _ _ _ _ _ _ _ _ _ Hc); lia.
  - exact (footprint_trans _ _ _ _ _ _ _ _ _ _ Hc (Hf e w1)).
Qed.

(** What costs nothing before or after leaves the cost as it is. *)
Lemma costs_bind_free {A B : Type} (c : M A) (f : A -> M B) (a b : nat) (d : Z) :
  costs path c 0 0 0 -> (forall x, costs path (f x) a b d) -> 0 <= d ->
  costs path (bind c f) a b d.
Proof. intros Hc Hf Hd. exact (costs_bind c f 0 0 a b 0 d Hc Hf Hd). Qed.

Lemma costs_bind_then_free {A B : Type} (c : M A) (f : A -> M B) (a b : nat) (d : Z) :
  costs path c a b d -> (forall x, costs path (f x) 0 0 0) ->
  costs path (bind c f) a b d.
Proof.
  intros Hc Hf. apply (costs_weaken _ (a + 0) (b + 0) _ _ (d + 0)); try lia.
  apply costs_bind; [exact Hc | exact Hf | lia].
Qed.

Lemma costs_try_catch_free {A : Type} (body : M A) (handler : JsError -> M A)
    (a b : nat) (d : Z) :
  costs path body a b d -> (forall e, costs path (handler e) 0 0 0) ->
  costs path (try_catch body handler) a b d.
Proof.
  intros Hc Hf. apply (costs_weaken _ (a + 0) (b + 0) _ _ (d + 0)); try lia.
  apply costs_try_catch; [exact Hc | exact Hf | lia].
Qed.

Lemma costs_console_error (msg : string) (err : option JsError) :
  costs path (console_error msg err) 0 0 0.
Proof. intros w. unfold console_error. prim. Qed.

Lemma costs_sleep (delay : Z) : costs path (sleep delay) 0 0 delay.
Proof. intros w. unfold sleep. prim. Qed.

Variable env : Env.

Lemma costs_Date_now : costs path (call_Date_now env) 0 0 0.
Proof. intros w. unfold call_Date_now. prim. Qed.

Lemma costs_readFile (p : string) : costs path (fs_readFile env p) 0 0 0.
Proof.
  intros w. unfold fs_readFile.
  destruct (readFile_error env _); [|destruct (files w !! p)]; prim.
Qed.

Lemma costs_JSON_parse (fileContent : string) : costs path (JSON_parse fileContent) 0 0 0.
Proof. unfold JSON_parse. destruct (Json.parse fileContent); [apply costs_ret | apply costs_throw]. Qed.

(** Writing and deleting change the file they name. *)
Lemma costs_writeFile (data : string) : costs path (fs_writeFile env path data) 0 0 0.
Proof.
  intros w. unfold fs_writeFile. destruct (writeFile_error env _); prim.
  intros p Hp. apply lookup_insert_ne. congruence.
Qed.

Lemma costs_unlink : costs path (fs_unlink env path) 0 0 0.
Proof.
  intros w. unfold fs_unlink.
  destruct (unlink_error env _); [|destruct (files w !! path)]; prim.
  intros p Hp. apply lookup_delete_ne. congruence.
Qed.

Lemma costs_getSubtitles (options : SubtitleOptions) :
  costs path (call_getSubtitles env options) 1 0 0.
Proof. intros w. unfold call_getSubtitles. destruct (getSubtitles env _ _); prim. Qed.

Lemma costs_fetch (url : string) (options : RequestOptions) :
  costs path (call_fetch env url options) 0 1 0.
Proof. intros w. unfold call_fetch. destruct (fetch env _ _ _); prim. Qed.

(** [initializeCache] calls [mkdir] only while the flag is unset. *)
Lemma costs_initializeCache : costs path (initializeCache env) 0 0 0.
Proof.
  intros w. unfold initializeCache. destruct (cacheInitialized w) eqn:Hi.
  - apply footprint_refl.
  - unfold try_catch, bind, fs_mkdir, console_error.
    destruct (mkdir_error env _); prim; rewrite Hi; discriminate.
Qed.

End Costs.

Section ExtractorCosts.

Variable env : Env.
Variables videoId lang : string.

Ltac free :=
  repeat first
    [ apply costs_ret | apply costs_throw | apply costs_lift | apply costs_await
    | apply costs_console_error | apply costs_Date_now | apply costs_readFile
    | apply costs_JSON_parse | apply costs_writeFile | apply costs_unlink
    | apply costs_initializeCache
    | apply costs_bind_free; [| intros ? | lia]
    | apply costs_try_catch_free; [| intros ?]
    | match goal with |- costs _ (if ?b then _ else _) _ _ _ => destruct b end ].

Lemma costs_getCachedTranscript : costs (cacheFilePath env videoId lang) (getCachedTranscript env videoId lang) 0 0 0.
Proof. unfold getCachedTranscript. cbv zeta. free. Qed.

Lemma costs_cacheTranscript (t : string) : costs (cacheFilePath env videoId lang) (cacheTranscript env videoId lang t) 0 0 0.
Proof. unfold cacheTranscript. cbv zeta. free. Qed.

Lemma costs_primary : costs (cacheFilePath env videoId lang) (fetchTranscriptWithCaptionsScraper env videoId lang) 1 0 0.
Proof.
  unfold fetchTranscriptWithCaptionsScraper.
  apply costs_try_catch_free; [|intros e; cbv zeta; free].
  apply costs_bind_free; [free | intros a | lia]. cbv zeta.
  apply costs_bind_then_free; [apply costs_getSubtitles | intros t; free].
Qed.

Lemma costs_fallback : costs (cacheFilePath env videoId lang) (fetchTranscriptWithFallbackMethod env videoId lang) 0 1 0.
Proof.
  unfold fetchTranscriptWithFallbackMethod. cbv zeta.
  apply costs_try_catch_free; [|intros e; free].
  apply costs_bind_free; [free | intros a | lia].
  apply costs_bind_then_free; [apply costs_fetch | intros r; free].
Qed.

(** The wait before [attempt], in milliseconds. *)
Lemma costs_round (attempt : Z) :
  costs (cacheFilePath env videoId lang) (primary_round env videoId lang attempt) 1 0
    (if 0 <? attempt then retryBaseDelay * 2 ^ (attempt - 1) else 0).
Proof.
  unfold primary_round.
  assert (Hpos : 0 <= (if 0 <? attempt then retryBaseDelay * 2 ^ (attempt - 1) else 0)).
  { destruct (0 <? attempt) eqn:E; [|lia]. apply Z.ltb_lt in E. unfold retryBaseDelay.
    apply Z.mul_nonneg_nonneg; [lia|]. apply Z.pow_nonneg. lia. }
  apply costs_try_catch_free; [|intros e; free].
  match goal with |- costs _ _ _ _ ?d => apply (costs_weaken _ _ (0 + 1) (0 + 0) _ _ (d + 0)) end;
    try lia.
  apply costs_bind; [| intros _ | lia].
  - destruct (0 <? attempt).
    + cbv zeta. apply costs_bind_free; [free | intros _ | exact Hpos]. apply costs_sleep.
    + free.
  - apply costs_bind_then_free; [apply costs_primary | intros t].
    apply costs_bind_free; [apply costs_cacheTranscript | intros _; free | lia].
Qed.

Lemma costs_loop (lastError : option JsError) :
  costs (cacheFilePath env videoId lang) (primary_loop env videoId lang 3 0 lastError) 3 0 3000.
Proof.
  cbn [primary_loop].
  apply (costs_bind _ _ _ 1 0 2 0 0 3000 (costs_round 0)); [|lia].
  intros [t|e1]; [apply (costs_weaken _ _ 0 0 _ _ 0); [free | lia..]|].
  apply (costs_bind _ _ _ 1 0 1 0 1000 2000 (costs_round (0 + 1))); [|lia].
  intros [t|e2]; [apply (costs_weaken _ _ 0 0 _ _ 0); [free | lia..]|].
  apply (costs_bind _ _ _ 1 0 0 0 2000 0 (costs_round (0 + 1 + 1))); [|lia].
  intros [t|e3]; free.
Qed.

Lemma costs_fallback_stage (lastError : option JsError) :
  costs (cacheFilePath env videoId lang) (fallback_stage env videoId lang lastError) 0 1 0.
Proof.
  unfold fallback_stage.
  apply costs_try_catch_free; [|intros e; free].
  apply costs_bind_free; [free | intros _ | lia].
  apply costs_bind_then_free; [apply costs_fallback | intros t].
  apply costs_bind_free; [apply costs_cacheTranscript | intros _; free | lia].
Qed.

Lemma costs_getTranscript : costs (cacheFilePath env videoId lang) (getTranscript env videoId lang) 3 1 3000.
Proof.
  unfold getTranscript.
  apply costs_bind_free; [apply costs_getCachedTranscript | intros cached | lia].
  destruct (truthy cached); [apply (costs_weaken _ _ 0 0 _ _ 0); [free | lia..]|].
  unfold fetch_stages. change (Z.to_nat (maxRetries - 0)) with 3%nat.
  apply (costs_bind _ _ _ 3 0 0 1 3000 0 (costs_loop None)); [|lia].
  intros [t|lastError]; [apply (costs_weaken _ _ 0 0 _ _ 0); [free | lia..]|].
  apply costs_fallback_stage.
Qed.

End ExtractorCosts.

(** ** The normaliser on every input *)

Lemma span_until_fst (p : ascii -> bool) (s : string) :
  Url.all_chars (fun c => negb (p c)) (fst (Url.span_until p s)) = true.
Proof.
  induction s as [|c s IH]; [reflexivity|]. simpl. destruct (p c) eqn:Hp; [reflexivity|].
  destruct (Url.span_until p s) as [a b]. simpl in *. rewrite Hp, IH. reflexivity.
Qed.

Lemma backslash_to_slash_lacks (c : ascii) (s : string) :
  Ascii.eqb "/" c = false -> lacks c s = true -> lacks c (Url.backslash_to_slash s) = true.
Proof.
  intros Hc. unfold lacks. induction s as [|a s IH]; [reflexivity|]. simpl.
  intros H. apply andb_true_iff in H as [Ha Hs]. rewrite (IH Hs), andb_true_r.
  destruct (Ascii.eqb a "\"); [rewrite Hc; reflexivity | exact Ha].
Qed.

(** The path of a parsed URL ends where the query begins. *)
Lemma parse_tail_pathname (special : bool) (scheme host tail : string) :
  lacks "?" (Url.pathname (Url.parse_tail special scheme host tail)) = true.
Proof.
  unfold Url.parse_tail.
  pose proof (span_until_fst (fun c => Ascii.eqb c "?" || Ascii.eqb c "#") tail) as H.
  destruct (Url.span_until _ tail) as [path rest]. cbn [fst Url.pathname] in *.
  assert (Hp : lacks "?" path = true).
  { revert H. apply all_chars_impl. intros c Hc. destruct (Ascii.eqb c "?"); [discriminate | reflexivity]. }
  destruct special; [|exact Hp].
  destruct path as [|c path]; [reflexivity|].
  apply backslash_to_slash_lacks; [reflexivity | exact Hp].
Qed.

Lemma pathname_lacks_question (input : string) (url : Url.URL) :
  Url.parse input = Some url -> lacks "?" (Url.pathname url) = true.
Proof.
  unfold Url.parse. destruct (Url.parse_scheme _) as [[scheme rest]|]; [|discriminate].
  cbv zeta. destruct (_ || _).
  - destruct (Url.span_until _ _) as [authority tail].
    destruct (Url.parse_host _ _ _) as [host|]; [|discriminate].
    intros [= <-]. apply parse_tail_pathname.
  - intros [= <-]. apply parse_tail_pathname.
Qed.

Lemma split_head_lacks (c : ascii) (s : string) :
  lacks c s = true -> JsString.split_head c s = s.
Proof.
  unfold lacks. induction s as [|a s IH]; [reflexivity|]. simpl.
  intros H. apply andb_true_iff in H as [Ha Hs].
  destruct (Ascii.eqb a c); [discriminate|]. rewrite (IH Hs). reflexivity.
Qed.

Lemma slice_from_lacks (c : ascii) (n : nat) (s : string) :
  lacks c s = true -> lacks c (JsString.slice_from n s) = true.
Proof.
  unfold lacks. revert s. induction n as [|n IH]; intros s H; [exact H|].
  destruct s as [|a s]; [reflexivity|]. simpl in *.
  apply andb_true_iff in H as [_ Hs]. apply IH. exact Hs.
Qed.

(** [.split('?')[0]] after [url.pathname.slice(1)] changes nothing. *)
Lemma short_link_split (input : string) (url : Url.URL) :
  Url.parse input = Some url ->
  JsString.split_head "?" (JsString.slice_from 1 (Url.pathname url))
  = JsString.slice_from 1 (Url.pathname url).
Proof.
  intros Hp. apply split_head_lacks, slice_from_lacks.
  exact (pathname_lacks_question input url Hp).
Qed.

Lemma try_blocks_agree (input : string) :
  Legacy.extractYoutubeId_try input = extractYoutubeId_try input.
Proof.
  unfold Legacy.extractYoutubeId_try, extractYoutubeId_try.
  destruct (Url.parse input) as [url|] eqn:Hp; [|reflexivity].
  rewrite (short_link_split input url Hp). reflexivity.
Qed.



(** X2.  Both versions of [extractYoutubeId] give the same result on
    every input: the [.split('?')[0]] the later version adds to the
    short-link branch never changes the identifier. *)
Theorem both_versions_normalise_alike (input : string) :
  Legacy.extractYoutubeId input = extractYoutubeId input.
Proof.
  unfold Legacy.extractYoutubeId, extractYoutubeId. rewrite try_blocks_agree. reflexivity.
Qed.

(** The errors of [extractYoutubeId], case by case. *)
Lemma normaliser_error_cases (input : string) (e : JsError) :
  extractYoutubeId input = Throw e ->
  (input = EmptyString /\ e = new_McpError InvalidParams "YouTube URL or ID is required")
  \/ (RegExp.test re_video_id input = false
      /\ e = new_McpError InvalidParams ("Invalid YouTube video ID: " ++ input))
  \/ (exists url : Url.URL,
         Url.parse input = Some url
         /\ Url.hostname url <> "youtu.be"
         /\ JsString.includes "youtube.com" (Url.hostname url) = false
         /\ e = new_McpError InvalidParams ("Could not extract video ID from: " ++ input)).
Proof.
  unfold extractYoutubeId.
  destruct input as [|c input']; [intros [= <-]; left; split; reflexivity|].
  cbn [JsString.falsy]. set (input := String c input').
  assert (Hcatch : forall error,
             match extractYoutubeId_catch input error with
             | Ok (Return videoId) => Ok videoId
             | Ok FallThrough =>
                 Throw (new_McpError InvalidParams ("Could not extract video ID from: " ++ input))
             | Throw e0 => Throw e0
             end = Throw e ->
             RegExp.test re_video_id input = false
             /\ e = new_McpError InvalidParams ("Invalid YouTube video ID: " ++ input)).
  { intros error. unfold extractYoutubeId_catch.
    destruct (RegExp.test re_video_id input); cbn [negb]; [discriminate|].
    intros [= <-]. split; reflexivity. }
  unfold extractYoutubeId_try.
  destruct (Url.parse input) as [url|] eqn:Hp; [|intros H; right; left; eapply Hcatch; exact H].
  destruct (String.eqb (Url.hostname url) "youtu.be") eqn:Hh; [discriminate|].
  destruct (JsString.includes "youtube.com" (Url.hostname url)) eqn:Hi.
  - destruct (Url.searchParams_get "v" url) as [v|].
    + destruct (JsString.falsy v); [|discriminate].
      intros H; right; left; eapply Hcatch; exact H.
    + intros H; right; left; eapply Hcatch; exact H.
  - intros [= <-]. right; right. exists url.
    split; [reflexivity|]. split; [apply String.eqb_neq; exact Hh|].
    split; [exact Hi | reflexivity].
Qed.

Lemma normaliser_error_code (input : string) (e : JsError) :
  extractYoutubeId input = Throw e -> mcp_code e = Some InvalidParams.
Proof.
  intros H.
  destruct (normaliser_error_cases input e H) as [[_ ->] | [[_ ->] | (url & _ & _ & _ & ->)]];
    reflexivity.
Qed.

(** X3.  Every error [extractYoutubeId] throws is an [McpError] with code
    [InvalidParams], and its text is one of three: the input is empty,
    the input is no video identifier, or no identifier could be
    extracted.  The error [Invalid YouTube URL] built inside the [try]
    block never reaches the caller: the [catch] block replaces it. *)
Theorem normaliser_errors (input : string) (e : JsError) :
  extractYoutubeId input = Throw e ->
  mcp_code e = Some InvalidParams
  /\ ((input = EmptyString
       /\ e = new_McpError InvalidParams "YouTube URL or ID is required")
      \/ (RegExp.test re_video_id input = false
          /\ e = new_McpError InvalidParams ("Invalid YouTube video ID: " ++ input))
      \/ (exists url : Url.URL,
             Url.parse input = Some url
             /\ Url.hostname url <> "youtu.be"
             /\ JsString.includes "youtube.com" (Url.hostname url) = false
             /\ e = new_McpError InvalidParams ("Could not extract video ID from: " ++ input)))
  /\ e <> new_McpError InvalidParams ("Invalid YouTube URL: " ++ input).
Proof.
  intros H. pose proof (normaliser_error_cases input e H) as Hcases.
  split; [exact (normaliser_error_code input e H) | split; [exact Hcases|]].
  destruct Hcases as [[-> ->] | [[_ ->] | (url & _ & _ & _ & ->)]];
    intros [= Heq]; revert Heq; vm_compute; discriminate.
Qed.

Lemma normaliser_errors_witness :
  mcp_code (new_McpError InvalidParams ("Could not extract video ID from: " ++ "https://vimeo.com/76979871"))
  = Some InvalidParams
  /\ extractYoutubeId "https://vimeo.com/76979871"
     = Throw (new_McpError InvalidParams
                ("Could not extract video ID from: " ++ "https://vimeo.com/76979871")).
Proof.
  assert (H : extractYoutubeId "https://vimeo.com/76979871"
              = Throw (new_McpError InvalidParams
                         ("Could not extract video ID from: " ++ "https://vimeo.com/76979871")))
    by (vm_compute; reflexivity).
  split; [exact (proj1 (normaliser_errors _ _ H)) | exact H].
Defined.



(** ** What a call that returns has done *)

Lemma bind_ok_inv {A B : Type} (c : M A) (f : A -> M B) (w w' : World) (b : B) :
  bind c f w = (Ok b, w') -> exists a w1, c w = (Ok a, w1) /\ f a w1 = (Ok b, w').
Proof.
  unfold bind. destruct (c w) as [[a|e] w1]; intros H; [eauto | discriminate].
Qed.

Lemma try_catch_ok_inv {A : Type} (body : M A) (handler : JsError -> M A) (w w' : World) (a : A) :
  try_catch body handler w = (Ok a, w') ->
  body w = (Ok a, w') \/ exists e w1, body w = (Throw e, w1) /\ handler e w1 = (Ok a, w').
Proof.
  unfold try_catch. destruct (body w) as [[x|e] w1]; intros H; [left; exact H | right; eauto].
Qed.

Section Stored.

Variable env : Env.
Variables videoId lang : string.

Hypothesis disk_writes : forall n : nat, writeFile_error env n = None.

Lemma store_then_return {A : Type} (t : string) (x : A) (w w' : World) (r : A) :
  (cacheTranscript env videoId lang t ;; ret x) w = (Ok r, w') -> r = x /\ holds_entry env videoId lang t w'.
Proof.
  intros H. apply bind_ok_inv in H as (u & w1 & Hst & Hret).
  injection Hret as <- <-. split; [reflexivity|].
  destruct (store_writes env videoId lang t w (disk_writes _)) as (w1' & Hst' & Hfiles).
  destruct u. rewrite Hst in Hst'. injection Hst' as <-.
  eexists. rewrite Hfiles. apply lookup_insert_eq.
Qed.

Lemma round_returned_stored (attempt : Z) (t : string) (w w' : World) :
  primary_round env videoId lang attempt w = (Ok (Returned t), w') -> holds_entry env videoId lang t w'.
Proof.
  unfold primary_round. intros H.
  apply try_catch_ok_inv in H as [H | (e & w1 & _ & H)].
  - apply bind_ok_inv in H as (u & w1 & _ & H).
    apply bind_ok_inv in H as (t0 & w2 & _ & H).
    apply store_then_return in H as [[= <-] H]. exact H.
  - unfold bind, console_error in H. destruct (is_McpError_other_than_InternalError e); discriminate.
Qed.

Lemma loop_returned_stored (n : nat) (attempt : Z) (lastError : option JsError) (t : string)
    (w w' : World) :
  primary_loop env videoId lang n attempt lastError w = (Ok (LoopReturned t), w') -> holds_entry env videoId lang t w'.
Proof.
  revert attempt lastError w. induction n as [|n IH]; intros attempt lastError w H.
  - discriminate.
  - cbn [primary_loop] in H. apply bind_ok_inv in H as ([t0|e] & w1 & Hr & H).
    + injection H as <- <-. exact (round_returned_stored _ _ _ _ Hr).
    + exact (IH _ _ _ H).
Qed.

Lemma fallback_stage_stored (lastError : option JsError) (t : string) (w w' : World) :
  fallback_stage env videoId lang lastError w = (Ok t, w') -> holds_entry env videoId lang t w'.
Proof.
  unfold fallback_stage. intros H.
  apply try_catch_ok_inv in H as [H | (e & w1 & _ & H)]; [|discriminate].
  apply bind_ok_inv in H as (u & w1 & _ & H).
  apply bind_ok_inv in H as (t0 & w2 & _ & H).
  apply store_then_return in H as [<- H]. exact H.
Qed.

Lemma fetch_stages_stored (t : string) (w w' : World) :
  fetch_stages env videoId lang w = (Ok t, w') -> holds_entry env videoId lang t w'.
Proof.
  unfold fetch_stages. intros H. apply bind_ok_inv in H as ([t0|lastError] & w1 & Hl & H).
  - injection H as <- <-. exact (loop_returned_stored _ _ _ _ _ _ Hl).
  - exact (fallback_stage_stored _ _ _ _ H).
Qed.

End Stored.

(** X5.  On a disk that accepts writes, a transcript that [getTranscript]
    has fetched (the lookup missed) is in the cache file when the call
    returns, whichever attempt or strategy produced it; and a later
    [getTranscript] that finds the file as it was left, can read it, and
    reads the clock less than 24 hours after the time stamp returns that
    transcript, if it is not empty, without any network call or delay. *)
Theorem fetched_transcript_is_cached (env : Env) (videoId lang t : string) (w w0 w' : World)
    (cached : option string) :
  (forall n : nat, writeFile_error env n = None) ->
  getCachedTranscript env videoId lang w = (Ok cached, w0) ->
  truthy cached = false ->
  getTranscript env videoId lang w = (Ok t, w') ->
  exists ts : Z,
    files w' !! cacheFilePath env videoId lang = Some (Json.stringify (mkCached t ts))
    /\ forall w2 : World,
         files w2 !! cacheFilePath env videoId lang = files w' !! cacheFilePath env videoId lang ->
         readFile_error env (n_readFile w2) = None ->
         Date_now env (n_now w2) - ts < cacheTTL ->
         JsString.falsy t = false ->
         exists w3,
           getTranscript env videoId lang w2 = (Ok t, w3) /\ cache_only w2 w3.
Proof.
  intros Hdisk Hc Hmiss H.
  unfold getTranscript in H. rewrite (bind_ok _ _ _ _ _ Hc), Hmiss in H.
  destruct (fetch_stages_stored env videoId lang Hdisk t w0 w' H) as (ts & Hfile).
  exists ts. split; [exact Hfile|].
  intros w2 Hsame Hread Hfresh Ht.
  rewrite <- Hsame in Hfile.
  pose proof (lookup_entry env videoId lang (mkCached t ts) w2 Hread Hfile) as Hl.
  cbn [timestamp transcript] in Hl.
  apply Z.ltb_lt in Hfresh. rewrite Hfresh in Hl.
  destruct (getCachedTranscript env videoId lang w2) as [r w3] eqn:Hc2.
  cbn [fst] in Hl. subst r. exists w3.
  exact (cache_hit_returns_cached_text env videoId lang t w2 w3 Hc2 Ht).
Qed.

Lemma fetched_transcript_is_cached_witness :
  exists ts : Z,
    files (snd (getTranscript (env_answers hello_lines) "dQw4w9WgXcQ" "en" fresh_world))
      !! cacheFilePath (env_answers hello_lines) "dQw4w9WgXcQ" "en"
    = Some (Json.stringify (mkCached "Hello world" ts))
    /\ exists w3,
         getTranscript (env_answers hello_lines) "dQw4w9WgXcQ" "en"
           (snd (getTranscript (env_answers hello_lines) "dQw4w9WgXcQ" "en" fresh_world))
         = (Ok "Hello world", w3)
         /\ cache_only
              (snd (getTranscript (env_answers hello_lines) "dQw4w9WgXcQ" "en" fresh_world)) w3.
Proof.
  assert (Hc : getCachedTranscript (env_answers hello_lines) "dQw4w9WgXcQ" "en" fresh_world
               = (Ok None,
                  snd (getCachedTranscript (env_answers hello_lines) "dQw4w9WgXcQ" "en" fresh_world)))
    by (vm_compute; reflexivity).
  assert (Hg : getTranscript (env_answers hello_lines) "dQw4w9WgXcQ" "en" fresh_world
               = (Ok "Hello world",
                  snd (getTranscript (env_answers hello_lines) "dQw4w9WgXcQ" "en" fresh_world)))
    by (vm_compute; reflexivity).
  destruct (fetched_transcript_is_cached (env_answers hello_lines) "dQw4w9WgXcQ" "en"
              "Hello world" fresh_world _ _ None (fun _ => eq_refl) Hc eq_refl Hg)
    as (ts & Hfile & Hlater).
  exists ts. split; [exact Hfile|].
  apply Hlater; [reflexivity | reflexivity | | reflexivity].
  assert (Hts : ts = 1000).
  { assert (Hf : files (snd (getTranscript (env_answers hello_lines) "dQw4w9WgXcQ" "en" fresh_world))
                   !! cacheFilePath (env_answers hello_lines) "dQw4w9WgXcQ" "en"
                 = Some (Json.stringify (mkCached "Hello world" 1000)))
      by (vm_compute; reflexivity).
    pose proof (eq_trans (eq_sym Hf) Hfile) as Hq.
    pose proof (f_equal (fun o => match o with Some s => Json.parse s | None => None end) Hq) as Hj.
    cbv beta iota in Hj. rewrite (json_round_trip (mkCached "Hello world" ts)) in Hj.
    rewrite (json_round_trip (mkCached "Hello world" 1000)) in Hj.
    injection Hj as Hj. symmetry. exact Hj. }
  rewrite Hts. vm_compute. reflexivity.
Defined.

(** ** Bounds and frame of a retrieval *)

Lemma costs_tool (env : Env) (url lang path : string) :
  (forall videoId, extractYoutubeId url = Ok videoId -> path = cacheFilePath env videoId lang) ->
  costs path (get_transcript_tool env url lang) 3 1 3000.
Proof.
  intros Hpath. unfold get_transcript_tool.
  apply costs_bind_free; [apply costs_console_error | intros _ | lia].
  apply costs_try_catch_free.
  - destruct (extractYoutubeId url) as [videoId|e].
    + rewrite (Hpath videoId eq_refl).
      change (costs (cacheFilePath env videoId lang)
                (console_error ("Successfully extracted video ID: " ++ videoId) None ;;
                 transcript <- getTranscript env videoId lang ;;
                 console_error ("Successfully extracted transcript ("
                                  ++ JsString.of_Z (Z.of_nat (String.length transcript))
                                  ++ " chars)") None ;;
                 t <- call_Date_now env ;;
                 ret {| content_text := transcript;
                        metadata := Some (videoId, lang, t, Z.of_nat (String.length transcript));
                        isError := false |}) 3 1 3000).
      apply costs_bind_free; [apply costs_console_error | intros _ | lia].
      apply costs_bind_then_free; [apply costs_getTranscript | intros t].
      apply costs_bind_free; [apply costs_console_error | intros _ | lia].
      apply costs_bind_free; [apply costs_Date_now | intros ts; apply costs_ret | lia].
    + intros w. apply (footprint_weaken _ _ _ 0 0 3 1 0 3000); [apply footprint_refl | lia..].
  - intros e. apply costs_bind_free; [apply costs_console_error | intros _ | lia].
    destruct (instanceof_McpError e); [apply costs_throw | apply costs_ret].
Qed.

(** X6.  Whatever the environment answers, one [getTranscript], and one
    call of the tool handler, calls the captions library at most three
    times and [fetch] at most once, and waits at most 3000 ms in all.
    The three bounds are reached together when everything fails. *)
Theorem retrieval_is_bounded :
  (forall (env : Env) (videoId lang : string) (w : World),
      let w' := snd (getTranscript env videoId lang w) in
      (n_getSubtitles w' <= 3 + n_getSubtitles w)%nat
      /\ (n_fetch w' <= 1 + n_fetch w)%nat
      /\ total_delay (trace w') <= total_delay (trace w) + 3000)
  /\ (forall (env : Env) (url lang : string) (w : World),
         let w' := snd (get_transcript_tool env url lang w) in
         (n_getSubtitles w' <= 3 + n_getSubtitles w)%nat
         /\ (n_fetch w' <= 1 + n_fetch w)%nat
         /\ total_delay (trace w') <= total_delay (trace w) + 3000)
  /\ (let w' := snd (getTranscript env_all_fail "dQw4w9WgXcQ" "en" fresh_world) in
      n_getSubtitles w' = 3%nat /\ n_fetch w' = 1%nat /\ total_delay (trace w') = 3000).
Proof.
  split; [|split].
  - intros env videoId lang w w'.
    destruct (costs_getTranscript env videoId lang w) as [H1 H2 H3 _ _]. auto.
  - intros env url lang w w'.
    destruct (costs_tool env url lang
                (match extractYoutubeId url with
                 | Ok videoId => cacheFilePath env videoId lang
                 | Throw _ => EmptyString
                 end)) with (w := w) as [H1 H2 H3 _ _]; [|auto].
    intros videoId ->. reflexivity.
  - vm_compute. repeat split.
Qed.

(** X7.  A retrieval creates, changes and deletes no file other than the
    cache file of its own identifier and language; the same holds for a
    call of the tool handler and the identifier it extracted, and a call
    that extracts none touches no file at all. *)
Theorem retrieval_touches_one_file (env : Env) (lang p : string) :
  (forall (videoId : string) (w : World),
      p <> cacheFilePath env videoId lang ->
      files (snd (getTranscript env videoId lang w)) !! p = files w !! p)
  /\ (forall (url videoId : string) (w : World),
         extractYoutubeId url = Ok videoId ->
         p <> cacheFilePath env videoId lang ->
         files (snd (get_transcript_tool env url lang w)) !! p = files w !! p)
  /\ (forall (url : string) (e : JsError) (w : World),
         extractYoutubeId url = Throw e ->
         files (snd (get_transcript_tool env url lang w)) !! p = files w !! p).
Proof.
  split; [|split].
  - intros videoId w Hp. exact (fp_files _ _ _ _ _ _ (costs_getTranscript env videoId lang w) p Hp).
  - intros url videoId w Hid Hp.
    refine (fp_files _ _ _ _ _ _ (costs_tool env url lang (cacheFilePath env videoId lang) _ w) p Hp).
    intros v Hv. rewrite Hid in Hv. injection Hv as <-. reflexivity.
  - intros url e w He.
    destruct (String.eqb p "x") eqn:E.
    + apply String.eqb_eq in E.
      refine (fp_files _ _ _ _ _ _ (costs_tool env url lang "y" _ w) p _).
      * intros v Hv. rewrite He in Hv. discriminate.
      * rewrite E. discriminate.
    + apply String.eqb_neq in E.
      refine (fp_files _ _ _ _ _ _ (costs_tool env url lang "x" _ w) p E).
      intros v Hv. rewrite He in Hv. discriminate.
Qed.

Lemma retrieval_touches_one_file_witness :
  files (snd (getTranscript (env_answers hello_lines) "dQw4w9WgXcQ" "en" world_with_stray_file))
    !! "/tmp/x.json"
  = files world_with_stray_file !! "/tmp/x.json"
  /\ files (snd (get_transcript_tool (env_answers hello_lines) "https://youtu.be/dQw4w9WgXcQ" "en"
                   world_with_stray_file)) !! "/tmp/x.json"
     = files world_with_stray_file !! "/tmp/x.json"
  /\ files (snd (get_transcript_tool (env_answers hello_lines) "https://vimeo.com/76979871" "en"
                   world_with_stray_file)) !! "/tmp/x.json"
     = files world_with_stray_file !! "/tmp/x.json".
Proof.
  destruct (retrieval_touches_one_file (env_answers hello_lines) "en" "/tmp/x.json")
    as (Hget & Htool & Hnone).
  split; [|split].
  - apply Hget. vm_compute. discriminate.
  - apply (Htool _ "dQw4w9WgXcQ"); [vm_compute; reflexivity | vm_compute; discriminate].
  - apply (Hnone _ (new_McpError InvalidParams
                      ("Could not extract video ID from: " ++ "https://vimeo.com/76979871"))).
    vm_compute. reflexivity.
Defined.

(** X8.  Once the cache directory has been initialised, no retrieval
    calls [mkdir] again, and the flag stays set. *)
Theorem initialised_cache_is_not_initialised_again (env : Env) (videoId lang : string) (w : World) :
  cacheInitialized w = true ->
  let w' := snd (getTranscript env videoId lang w) in
  cacheInitialized w' = true /\ n_mkdir w' = n_mkdir w.
Proof. intros Hi. exact (fp_initialized _ _ _ _ _ _ (costs_getTranscript env videoId lang w) Hi). Qed.

Lemma initialised_cache_is_not_initialised_again_witness :
  let w := set_cacheInitialized true fresh_world in
  let w' := snd (getTranscript env_all_fail "dQw4w9WgXcQ" "en" w) in
  cacheInitialized w' = true /\ n_mkdir w' = n_mkdir w.
Proof.
  exact (initialised_cache_is_not_initialised_again env_all_fail "dQw4w9WgXcQ" "en"
           (set_cacheInitialized true fresh_world) eq_refl).
Defined.

(** ** The loop stops at the first success *)

(** X9.  When the lookup misses and the captions library answers the
    first call, [getTranscript] returns after that one call, without any
    delay; when it rejects the first call and answers the second, there
    are two calls with one delay of 1000 ms between them.  In both cases
    [fetch] is not called. *)
Theorem loop_stops_at_first_success (env : Env) (videoId lang : string) (w w0 : World)
    (cached a : option string) (lines : list TranscriptLine) :
  getCachedTranscript env videoId lang w = (Ok cached, w0) ->
  truthy cached = false ->
  make_agent env = Resolved a ->
  (getSubtitles env (n_getSubtitles w) (subtitle_options a videoId lang) = Resolved lines ->
   exists w',
     getTranscript env videoId lang w = (Ok (formatTranscript lines), w')
     /\ advances w w' 1 0 [EvGetSubtitles (subtitle_options a videoId lang)])
  /\ (forall e1 : JsError,
         getSubtitles env (n_getSubtitles w) (subtitle_options a videoId lang) = Rejected e1 ->
         getSubtitles env (S (n_getSubtitles w)) (subtitle_options a videoId lang)
         = Resolved lines ->
         exists w',
           getTranscript env videoId lang w = (Ok (formatTranscript lines), w')
           /\ advances w w' 2 0
                [EvGetSubtitles (subtitle_options a videoId lang); EvSleep 1000;
                 EvGetSubtitles (subtitle_options a videoId lang)]).
Proof.
  intros Hc Hmiss Ha.
  destruct (getCachedTranscript_ok env videoId lang w) as (r & w0' & Hc' & Hco).
  rewrite Hc in Hc'. injection Hc' as <- <-.
  assert (Hn : n_getSubtitles w0 = n_getSubtitles w) by exact (adv_getSubtitles _ _ _ _ _ Hco).
  split.
  - intros H1. rewrite <- Hn in H1.
    destruct (round_resolved env videoId lang 0 a lines w0 Ha H1) as (w1 & Hr & Hadv).
    exists w1. split.
    + unfold getTranscript. rewrite (bind_ok _ _ _ _ _ Hc), Hmiss.
      unfold fetch_stages. change (Z.to_nat (maxRetries - 0)) with 3%nat.
      cbn [primary_loop]. unfold bind at 1. rewrite (bind_ok _ _ _ _ _ Hr). reflexivity.
    + eapply cache_only_then; [exact Hco | exact Hadv].
  - intros e1 H1 H2. rewrite <- Hn in H1, H2.
    destruct (round_rejected env videoId lang 0 a e1 w0 Ha H1) as (w1 & Hr1 & Hadv1).
    assert (H2' : getSubtitles env (n_getSubtitles w1) (subtitle_options a videoId lang)
                  = Resolved lines).
    { rewrite (adv_getSubtitles _ _ _ _ _ Hadv1). exact H2. }
    destruct (round_resolved env videoId lang (0 + 1) a lines w1 Ha H2') as (w2 & Hr2 & Hadv2).
    exists w2. split.
    + unfold getTranscript. rewrite (bind_ok _ _ _ _ _ Hc), Hmiss.
      unfold fetch_stages. change (Z.to_nat (maxRetries - 0)) with 3%nat.
      cbn [primary_loop]. unfold bind at 1. rewrite (bind_ok _ _ _ _ _ Hr1). cbn iota beta.
      rewrite (bind_ok _ _ _ _ _ Hr2). reflexivity.
    + eapply cache_only_then; [exact Hco|].
      exact (advances_trans _ _ _ _ _ _ _ _ _ Hadv1 Hadv2).
Qed.

Lemma loop_stops_at_first_success_witness :
  (exists w',
      getTranscript (env_answers hello_lines) "dQw4w9WgXcQ" "en" fresh_world
      = (Ok "Hello world", w')
      /\ advances fresh_world w' 1 0 [EvGetSubtitles (subtitle_options None "dQw4w9WgXcQ" "en")])
  /\ (exists w',
         getTranscript env_second_time "dQw4w9WgXcQ" "en" fresh_world = (Ok "Hello world", w')
         /\ advances fresh_world w' 2 0
              [EvGetSubtitles (subtitle_options None "dQw4w9WgXcQ" "en"); EvSleep 1000;
               EvGetSubtitles (subtitle_options None "dQw4w9WgXcQ" "en")]).
Proof.
  split.
  - exact (proj1 (loop_stops_at_first_success (env_answers hello_lines) "dQw4w9WgXcQ" "en"
                    fresh_world
                    (snd (getCachedTranscript (env_answers hello_lines) "dQw4w9WgXcQ" "en"
                            fresh_world))
                    None None hello_lines eq_refl eq_refl eq_refl) eq_refl).
  - exact (proj2 (loop_stops_at_first_success env_second_time "dQw4w9WgXcQ" "en"
                    fresh_world
                    (snd (getCachedTranscript env_second_time "dQw4w9WgXcQ" "en" fresh_world))
                    None None hello_lines eq_refl eq_refl eq_refl)
             (new_Error "socket hang up") eq_refl eq_refl).
Defined.

(** ** A proxy whose agent cannot be built *)

Section BadProxy.

Variable env : Env.
Variables videoId lang : string.
Variable e : JsError.

Hypothesis agent_fails : make_agent env = Rejected e.

Lemma primary_without_agent (w : World) :
  fetchTranscriptWithCaptionsScraper env videoId lang w
  = (Throw (primary_failure e),
     emit (EvLog "Failed with primary transcript method:" (Some e)) w).
Proof.
  unfold fetchTranscriptWithCaptionsScraper, try_catch. rewrite agent_fails.
  unfold await at 1, bind at 1, throw at 1. apply primary_handler.
Qed.

Lemma round_without_agent (attempt : Z) (w : World) :
  exists w',
    primary_round env videoId lang attempt w = (Ok (Caught (primary_failure e)), w')
    /\ advances w w' 0 0 (backoff attempt).
Proof.
  unfold primary_round, try_catch.
  destruct (backoff_step attempt w) as (w1 & Hd & Hadv).
  rewrite (bind_ok _ _ _ _ _ Hd), (bind_throw _ _ _ _ _ (primary_without_agent w1)), round_handler.
  eexists; split; [reflexivity|].
  eapply advances_then_cache_only; [|apply cache_only_log].
  eapply advances_then_cache_only; [exact Hadv | apply cache_only_log].
Qed.

Lemma fallback_without_agent (w : World) :
  exists e' w',
    fetchTranscriptWithFallbackMethod env videoId lang w = (Throw e', w') /\ cache_only w w'.
Proof.
  unfold fetchTranscriptWithFallbackMethod, try_catch. cbv zeta. rewrite agent_fails.
  unfold await at 1, bind at 1, throw at 1. rewrite fallback_handler.
  do 2 eexists; split; [reflexivity | apply cache_only_log].
Qed.

End BadProxy.

(** X10.  When a proxy is configured and its agent cannot be constructed,
    a [getTranscript] whose lookup misses makes no network call at all:
    each of the three attempts fails on the constructor, the two delays
    of 1000 ms and 2000 ms are still waited, the fallback fails on the
    constructor too, and the error thrown reports the constructor's
    message as a failure of the primary method. *)
Theorem unusable_proxy_fails_without_network (env : Env) (videoId lang : string) (w w0 : World)
    (cached : option string) (e : JsError) :
  getCachedTranscript env videoId lang w = (Ok cached, w0) ->
  truthy cached = false ->
  make_agent env = Rejected e ->
  exists w',
    getTranscript env videoId lang w
    = (Throw (new_McpError InternalError
                ("Failed to retrieve transcript after multiple attempts: "
                   ++ message (primary_failure e))), w')
    /\ advances w w' 0 0 [EvSleep 1000; EvSleep 2000].
Proof.
  intros Hc Hmiss Ha.
  destruct (getCachedTranscript_ok env videoId lang w) as (r & w0' & Hc' & Hco).
  rewrite Hc in Hc'. injection Hc' as <- <-.
  destruct (round_without_agent env videoId lang e Ha 0 w0) as (w1 & Hr1 & Hadv1).
  destruct (round_without_agent env videoId lang e Ha (0 + 1) w1) as (w2 & Hr2 & Hadv2).
  destruct (round_without_agent env videoId lang e Ha (0 + 1 + 1) w2) as (w3 & Hr3 & Hadv3).
  set (w4 := emit (EvLog "Trying fallback method to fetch transcript" None) w3).
  destruct (fallback_without_agent env videoId lang e Ha w4) as (e' & w5 & Hfb & Hadv5).
  eexists. split.
  - unfold getTranscript. rewrite (bind_ok _ _ _ _ _ Hc), Hmiss.
    unfold fetch_stages. change (Z.to_nat (maxRetries - 0)) with 3%nat.
    cbn [primary_loop]. unfold bind at 1.
    rewrite (bind_ok _ _ _ _ _ Hr1). cbn iota beta.
    rewrite (bind_ok _ _ _ _ _ Hr2). cbn iota beta.
    rewrite (bind_ok _ _ _ _ _ Hr3). cbn iota beta. unfold ret at 1.
    unfold fallback_stage, try_catch.
    unfold bind at 1, console_error at 1. fold w4.
    rewrite (bind_throw _ _ _ _ _ Hfb).
    unfold bind, console_error, throw, lastError_message.
    rewrite primary_failure_message. reflexivity.
  - eapply cache_only_then; [exact Hco|].
    eapply advances_then_cache_only; [|apply cache_only_log].
    eapply advances_then_cache_only; [|exact Hadv5].
    eapply advances_then_cache_only; [|apply cache_only_log].
    exact (advances_trans _ _ _ _ _ _ _ _ _
             (advances_trans _ _ _ _ _ _ _ _ _ Hadv1 Hadv2) Hadv3).
Qed.

Lemma unusable_proxy_fails_without_network_witness :
  exists w',
    getTranscript env_bad_proxy "dQw4w9WgXcQ" "en" fresh_world
    = (Throw (new_McpError InternalError
                ("Failed to retrieve transcript after multiple attempts: "
                   ++ "MCP error -32603: Primary transcript method failed: Invalid URL")), w')
    /\ advances fresh_world w' 0 0 [EvSleep 1000; EvSleep 2000].
Proof.
  exact (unusable_proxy_fails_without_network env_bad_proxy "dQw4w9WgXcQ" "en" fresh_world
           (snd (getCachedTranscript env_bad_proxy "dQw4w9WgXcQ" "en" fresh_world))
           None (new_Error "Invalid URL") eq_refl eq_refl eq_refl).
Defined.

(** ** A fallback body without captions *)

(** X11.  When the three primary attempts are rejected and the timed-text
    endpoint answers with a success status and a body in which no
    [<text] element opens, [getTranscript] does not fail: it returns the
    empty transcript, after three calls of the captions library and one
    of [fetch], and on a disk that accepts writes it stores the empty
    transcript in the cache. *)
Theorem empty_fallback_body_is_a_success (env : Env) (videoId lang : string) (w w0 : World)
    (cached a : option string) (e1 e2 e3 : JsError) (r : Response) (xml : string) :
  getCachedTranscript env videoId lang w = (Ok cached, w0) ->
  truthy cached = false ->
  make_agent env = Resolved a ->
  getSubtitles env (n_getSubtitles w) (subtitle_options a videoId lang) = Rejected e1 ->
  getSubtitles env (S (n_getSubtitles w)) (subtitle_options a videoId lang) = Rejected e2 ->
  getSubtitles env (S (S (n_getSubtitles w))) (subtitle_options a videoId lang) = Rejected e3 ->
  fetch env (n_fetch w) (timedtext_url videoId lang) (fetch_options a) = Resolved r ->
  ok r = true ->
  body_text r = Resolved xml ->
  JsString.includes "<text" xml = false ->
  exists w',
    getTranscript env videoId lang w = (Ok EmptyString, w')
    /\ advances w w' 3 1
         [EvGetSubtitles (subtitle_options a videoId lang);
          EvSleep 1000;
          EvGetSubtitles (subtitle_options a videoId lang);
          EvSleep 2000;
          EvGetSubtitles (subtitle_options a videoId lang);
          EvFetch (timedtext_url videoId lang) (fetch_options a)]
    /\ ((forall n : nat, writeFile_error env n = None) ->
        exists ts : Z,
          files w' !! cacheFilePath env videoId lang
          = Some (Json.stringify (mkCached EmptyString ts))).
Proof.
  intros Hc Hmiss Ha H1 H2 H3 Hf Hok Hxml Hno.
  destruct (fallback_after_three_rejections env videoId lang w w0 cached a e1 e2 e3 r xml
              Hc Hmiss Ha H1 H2 H3 Hf Hok Hxml) as (w' & Hget & Hadv).
  assert (Hempty : parse_timedtext xml = EmptyString).
  { pose proof (parse_timedtext_render xml [] Hno eq_refl) as Hp.
    cbn [render] in Hp. rewrite append_empty_r in Hp. exact Hp. }
  rewrite Hempty in Hget. exists w'. split; [exact Hget|]. split; [exact Hadv|].
  intros Hdisk. unfold getTranscript in Hget. rewrite (bind_ok _ _ _ _ _ Hc), Hmiss in Hget.
  exact (fetch_stages_stored env videoId lang Hdisk _ _ _ Hget).
Qed.

Lemma empty_fallback_body_is_a_success_witness :
  exists w',
    getTranscript env_empty_body "dQw4w9WgXcQ" "en" fresh_world = (Ok EmptyString, w')
    /\ advances fresh_world w' 3 1
         [EvGetSubtitles (subtitle_options None "dQw4w9WgXcQ" "en"); EvSleep 1000;
          EvGetSubtitles (subtitle_options None "dQw4w9WgXcQ" "en"); EvSleep 2000;
          EvGetSubtitles (subtitle_options None "dQw4w9WgXcQ" "en");
          EvFetch (timedtext_url "dQw4w9WgXcQ" "en") (fetch_options None)]
    /\ exists ts : Z,
         files w' !! cacheFilePath env_empty_body "dQw4w9WgXcQ" "en"
         = Some (Json.stringify (mkCached EmptyString ts)).
Proof.
  destruct (empty_fallback_body_is_a_success env_empty_body "dQw4w9WgXcQ" "en" fresh_world
              (snd (getCachedTranscript env_empty_body "dQw4w9WgXcQ" "en" fresh_world))
              None None (new_Error "socket hang up") (new_Error "socket hang up")
              (new_Error "socket hang up") (mkResponse true 200 (Resolved EmptyString))
              EmptyString eq_refl eq_refl eq_refl eq_refl eq_refl eq_refl eq_refl eq_refl eq_refl
              eq_refl) as (w' & Hget & Hadv & Hfile).
  exists w'. split; [exact Hget|]. split; [exact Hadv|].
  apply Hfile. intros n. reflexivity.
Defined.

(** ** The tool handler *)

Section Handler.

Variable env : Env.
Variables url lang : string.

(** The handler when no identifier can be extracted. *)
Lemma tool_on_invalid_input (e : JsError) (w : World) :
  extractYoutubeId url = Throw e ->
  get_transcript_tool env url lang w
  = (Throw e,
     emit (EvLog "Transcript extraction failed:" (Some e))
       (emit (EvLog ("Processing transcript request for: " ++ url ++ ", language: " ++ lang) None)
          w)).
Proof.
  intros He. unfold get_transcript_tool, bind at 1, console_error at 1.
  unfold try_catch, bind at 1, lift. rewrite He.
  unfold bind, console_error. unfold instanceof_McpError.
  rewrite (normaliser_error_code url e He). reflexivity.
Qed.

(** The handler on an identifier: the outcome of [getTranscript]. *)
Lemma tool_on_identifier (videoId : string) (w : World) :
  extractYoutubeId url = Ok videoId ->
  let w1 := emit (EvLog ("Successfully extracted video ID: " ++ videoId) None)
              (emit (EvLog ("Processing transcript request for: " ++ url ++ ", language: " ++ lang)
                       None) w) in
  fst (get_transcript_tool env url lang w)
  = match getTranscript env videoId lang w1 with
    | (Ok transcript, w2) =>
        Ok {| content_text := transcript;
              metadata := Some (videoId, lang, Date_now env (n_now w2),
                                Z.of_nat (String.length transcript));
              isError := false |}
    | (Throw e, _) => Throw e
    end.
Proof.
  intros Hid w1. unfold get_transcript_tool, bind at 1, console_error at 1.
  unfold try_catch, bind at 1, lift. rewrite Hid.
  unfold bind at 1, console_error at 1. fold w1. unfold bind at 1.
  destruct (getTranscript env videoId lang w1) as [[t|e] w2] eqn:Hg.
  - reflexivity.
  - destruct (getTranscript_throws_only_retrieval_failure env videoId lang w1 w2 e Hg)
      as (lastError & ->).
    reflexivity.
Qed.

End Handler.

(** X12.  What a call of the tool handler can end with.  When an
    identifier is extracted from the input, the handler ends as the
    [getTranscript] for that identifier and the language asked for: a
    transcript is returned as the text of a result that is not flagged as
    an error, with the identifier, the language and the length of the
    text as [charCount]; an error is thrown on as it is, an [McpError]
    with code [InternalError].  Otherwise the handler throws the error of
    [extractYoutubeId], an [McpError] with code [InvalidParams].  The
    branch that returns [isError: true] is never taken. *)
Theorem tool_call_outcomes (env : Env) (url lang : string) (w : World) :
  let started :=
    emit (EvLog ("Processing transcript request for: " ++ url ++ ", language: " ++ lang) None) w in
  match fst (get_transcript_tool env url lang w) with
  | Ok r =>
      isError r = false
      /\ exists (videoId : string) (ts : Z) (w2 : World),
           extractYoutubeId url = Ok videoId
           /\ getTranscript env videoId lang
                (emit (EvLog ("Successfully extracted video ID: " ++ videoId) None) started)
              = (Ok (content_text r), w2)
           /\ metadata r = Some (videoId, lang, ts, Z.of_nat (String.length (content_text r)))
  | Throw e =>
      (extractYoutubeId url = Throw e /\ mcp_code e = Some InvalidParams)
      \/ (exists videoId : string,
             extractYoutubeId url = Ok videoId
             /\ fst (getTranscript env videoId lang
                       (emit (EvLog ("Successfully extracted video ID: " ++ videoId) None) started))
                = Throw e
             /\ mcp_code e = Some InternalError)
  end.
Proof.
  intros started. destruct (extractYoutubeId url) as [videoId|e] eqn:Hid.
  - rewrite (tool_on_identifier env url lang videoId w Hid). cbv zeta. fold started.
    destruct (getTranscript env videoId lang
                (emit (EvLog ("Successfully extracted video ID: " ++ videoId) None) started))
      as [[t|e] w2] eqn:Hg.
    + split; [reflexivity|]. exists videoId, (Date_now env (n_now w2)), w2.
      split; [reflexivity|]. split; [exact Hg | reflexivity].
    + right. exists videoId. split; [reflexivity|]. split; [rewrite Hg; reflexivity|].
      destruct (getTranscript_throws_only_retrieval_failure env videoId lang _ w2 e Hg)
        as (lastError & ->).
      reflexivity.
  - rewrite (tool_on_invalid_input env url lang e w Hid). left.
    split; [reflexivity | exact (normaliser_error_code url e Hid)].
Qed.

(** X13.  An input from which no identifier can be extracted is rejected
    before anything else happens: the handler throws the error of
    [extractYoutubeId] unchanged, and apart from two log lines the world
    is as before: no file read or written, no [mkdir], no network call,
    no delay. *)
Theorem invalid_input_is_rejected_first (env : Env) (url lang : string) (e : JsError)
    (w : World) :
  extractYoutubeId url = Throw e ->
  exists w',
    get_transcript_tool env url lang w = (Throw e, w')
    /\ files w' = files w
    /\ cacheInitialized w' = cacheInitialized w
    /\ actions (trace w') = actions (trace w)
    /\ (n_getSubtitles w', n_fetch w') = (n_getSubtitles w, n_fetch w)
    /\ (n_mkdir w', n_readFile w', n_writeFile w', n_unlink w', n_now w')
       = (n_mkdir w, n_readFile w, n_writeFile w, n_unlink w, n_now w).
Proof.
  intros He. eexists. split; [exact (tool_on_invalid_input env url lang e w He)|].
  cbn [files cacheInitialized emit trace n_getSubtitles n_fetch n_mkdir n_readFile n_writeFile
       n_unlink n_now].
  rewrite !actions_log. repeat split.
Qed.

Lemma invalid_input_is_rejected_first_witness :
  exists w',
    get_transcript_tool (env_answers hello_lines) "https://vimeo.com/76979871" "en" fresh_world
    = (Throw (new_McpError InvalidParams
                ("Could not extract video ID from: " ++ "https://vimeo.com/76979871")), w')
    /\ files w' = files fresh_world
    /\ cacheInitialized w' = cacheInitialized fresh_world
    /\ actions (trace w') = actions (trace fresh_world)
    /\ (n_getSubtitles w', n_fetch w') = (n_getSubtitles fresh_world, n_fetch fresh_world)
    /\ (n_mkdir w', n_readFile w', n_writeFile w', n_unlink w', n_now w')
       = (n_mkdir fresh_world, n_readFile fresh_world, n_writeFile fresh_world,
          n_unlink fresh_world, n_now fresh_world).
Proof.
  apply invalid_input_is_rejected_first. vm_compute. reflexivity.
Defined.

(** ** The first version of [getTranscript] *)

(** X14.  The first version of [getTranscript] asks the captions library
    exactly once, without request options, and touches no file.  An
    answer is formatted and returned; a rejection is thrown at once as an
    [McpError] with code [InternalError] that carries its message.  When
    no proxy is configured, the lookup misses and the captions library
    answers the first call, the current version returns the same
    transcript. *)
Theorem first_version_asks_once (env : Env) (videoId lang : string) (w : World) :
  let options := {| videoID := videoId; lang_opt := lang; requestOptions := None |} in
  let w' := snd (Legacy.getTranscript env videoId lang w) in
  advances w w' 1 0 [EvGetSubtitles options]
  /\ files w' = files w
  /\ fst (Legacy.getTranscript env videoId lang w)
     = match getSubtitles env (n_getSubtitles w) options with
       | Resolved lines => Ok (formatTranscript lines)
       | Rejected e =>
           Throw (new_McpError InternalError ("Failed to retrieve transcript: " ++ message e))
       end
  /\ (forall (lines : list TranscriptLine) (cached : option string) (w0 : World),
         getSubtitles env (n_getSubtitles w) options = Resolved lines ->
         proxy_configured env = None ->
         getCachedTranscript env videoId lang w = (Ok cached, w0) ->
         truthy cached = false ->
         fst (getTranscript env videoId lang w) = fst (Legacy.getTranscript env videoId lang w)).
Proof.
  intros options w'.
  assert (Hfst : fst (Legacy.getTranscript env videoId lang w)
                 = match getSubtitles env (n_getSubtitles w) options with
                   | Resolved lines => Ok (formatTranscript lines)
                   | Rejected e =>
                       Throw (new_McpError InternalError
                                ("Failed to retrieve transcript: " ++ message e))
                   end).
  { unfold Legacy.getTranscript, try_catch, bind, call_getSubtitles. fold options.
    destruct (getSubtitles env (n_getSubtitles w) options); reflexivity. }
  split; [|split; [|split; [exact Hfst|]]].
  - subst w'. unfold Legacy.getTranscript, try_catch, bind, call_getSubtitles. fold options.
    destruct (getSubtitles env (n_getSubtitles w) options); cbn [await ret throw snd].
    + constructor; try reflexivity. cbn [trace emit tick_getSubtitles].
      apply actions_action. reflexivity.
    + unfold console_error. cbn [snd]. eapply advances_then_cache_only; [|apply cache_only_log].
      constructor; try reflexivity. cbn [trace emit tick_getSubtitles].
      apply actions_action. reflexivity.
  - subst w'. unfold Legacy.getTranscript, try_catch, bind, call_getSubtitles.
    destruct (getSubtitles env (n_getSubtitles w) _); reflexivity.
  - intros lines cached w0 Hl Hproxy Hc Hmiss. rewrite Hfst, Hl.
    assert (Ha : make_agent env = Resolved None).
    { unfold make_agent. rewrite Hproxy. reflexivity. }
    exact (first_attempt_returns env videoId lang w w0 cached None lines Hc Hmiss Ha Hl).
Qed.

Lemma first_version_asks_once_witness :
  fst (getTranscript (env_answers hello_lines) "dQw4w9WgXcQ" "en" fresh_world)
  = fst (Legacy.getTranscript (env_answers hello_lines) "dQw4w9WgXcQ" "en" fresh_world).
Proof.
  pose proof (first_version_asks_once (env_answers hello_lines) "dQw4w9WgXcQ" "en" fresh_world)
    as H.
  cbv zeta in H. destruct H as (_ & _ & _ & H).
  exact (H hello_lines None
           (snd (getCachedTranscript (env_answers hello_lines) "dQw4w9WgXcQ" "en" fresh_world))
           eq_refl eq_refl eq_refl eq_refl).
Defined.

(** ** The name of a cache file *)






(** X16.  Without that restriction the name is ambiguous: an underscore
    can belong to the identifier or to the language, so the pairs
    [(a_b, c)] and [(a, b_c)] share one cache file, and an entry stored
    for the first is returned by a [getTranscript] for the second,
    without any network call. *)
Theorem cache_file_is_shared_across_an_underscore (env : Env) (a b c t : string) (ts : Z)
    (w : World) :
  cacheFilePath env (a ++ "_" ++ b) c = cacheFilePath env a (b ++ "_" ++ c)
  /\ (files w !! cacheFilePath env (a ++ "_" ++ b) c = Some (Json.stringify (mkCached t ts)) ->
      readFile_error env (n_readFile w) = None ->
      Date_now env (n_now w) - ts < cacheTTL ->
      JsString.falsy t = false ->
      exists w',
        getTranscript env a (b ++ "_" ++ c) w = (Ok t, w') /\ cache_only w w').
Proof.
  assert (Hpath : cacheFilePath env (a ++ "_" ++ b) c = cacheFilePath env a (b ++ "_" ++ c)).
  { unfold cacheFilePath. f_equal. rewrite !append_assoc. reflexivity. }
  split; [exact Hpath|].
  intros Hfile Hread Hfresh Ht. rewrite Hpath in Hfile.
  pose proof (lookup_entry env a (b ++ "_" ++ c) (mkCached t ts) w Hread Hfile) as Hl.
  cbn [timestamp transcript] in Hl. apply Z.ltb_lt in Hfresh. rewrite Hfresh in Hl.
  destruct (getCachedTranscript env a (b ++ "_" ++ c) w) as [r w'] eqn:Hc.
  cbn [fst] in Hl. subst r. exists w'.
  exact (cache_hit_returns_cached_text env a (b ++ "_" ++ c) t w w' Hc Ht).
Qed.

Lemma cache_file_is_shared_across_an_underscore_witness :
  let w := snd (cacheTranscript (env_answers hello_lines) "abc_de" "en" "Hello world"
                  fresh_world) in
  exists w',
    getTranscript (env_answers hello_lines) "abc" "de_en" w = (Ok "Hello world", w')
    /\ cache_only w w'.
Proof.
  intros w.
  apply (proj2 (cache_file_is_shared_across_an_underscore (env_answers hello_lines)
                  "abc" "de" "en" "Hello world" 1000 w)).
  - vm_compute. reflexivity.
  - reflexivity.
  - vm_compute. reflexivity.
  - reflexivity.
Defined.

(** ** [formatTranscript] *)

Lemma append_falsy (a b : string) :
  JsString.falsy (a ++ b) = JsString.falsy a && JsString.falsy b.
Proof. destruct a; [reflexivity | reflexivity]. Qed.

Lemma length_falsy (t : string) : (0 <? String.length t)%nat = negb (JsString.falsy t).
Proof. destruct t; reflexivity. Qed.

(** The texts [formatTranscript] joins. *)
Lemma kept_app (l1 l2 : list TranscriptLine) :
  List.filter (fun t => (0 <? String.length t)%nat)
    (map (fun line => JsString.trim (text line)) (l1 ++ l2))
  = (List.filter (fun t => (0 <? String.length t)%nat)
       (map (fun line => JsString.trim (text line)) l1)
     ++ List.filter (fun t => (0 <? String.length t)%nat)
          (map (fun line => JsString.trim (text line)) l2))%list.
Proof. rewrite map_app. apply List.filter_app. Qed.

Lemma kept_not_empty (l : list TranscriptLine) :
  forallb (fun t => negb (JsString.falsy t))
    (List.filter (fun t => (0 <? String.length t)%nat)
       (map (fun line => JsString.trim (text line)) l)) = true.
Proof.
  induction l as [|line l IH]; [reflexivity|]. cbn [map List.filter].
  destruct (0 <? String.length (JsString.trim (text line)))%nat eqn:E; [|exact IH].
  cbn [forallb]. rewrite <- length_falsy, E, IH. reflexivity.
Qed.

Lemma join_falsy (sep : string) (xs : list string) :
  forallb (fun t => negb (JsString.falsy t)) xs = true ->
  JsString.falsy (JsString.join sep xs) = match xs with [] => true | _ => false end.
Proof.
  destruct xs as [|x [|y xs]]; [reflexivity | |]; cbn [forallb JsString.join]; intros H;
    apply andb_true_iff in H as [Hx _]; destruct x; try discriminate; reflexivity.
Qed.

Lemma join_app (sep : string) (xs ys : list string) :
  xs <> [] -> ys <> [] ->
  JsString.join sep (xs ++ ys) = JsString.join sep xs ++ sep ++ JsString.join sep ys.
Proof.
  intros Hx Hy. induction xs as [|x xs IH]; [contradiction|].
  destruct xs as [|x' xs].
  - destruct ys as [|y ys]; [contradiction | reflexivity].
  - change (JsString.join sep ((x :: x' :: xs) ++ ys))
      with (x ++ sep ++ JsString.join sep ((x' :: xs) ++ ys)).
    rewrite IH by discriminate.
    change (JsString.join sep (x :: x' :: xs)) with (x ++ sep ++ JsString.join sep (x' :: xs)).
    rewrite !append_assoc. reflexivity.
Qed.

(** X17.  [formatTranscript] returns the empty string exactly when every
    line is blank, that is, empty once trimmed. *)
Theorem formatTranscript_is_empty_on_blank_lines (lines : list TranscriptLine) :
  JsString.falsy (formatTranscript lines) = forallb blank lines.
Proof.
  unfold formatTranscript. rewrite (join_falsy " " _ (kept_not_empty lines)).
  induction lines as [|line lines IH]; [reflexivity|].
  cbn [map List.filter forallb]. unfold blank at 1. rewrite length_falsy.
  destruct (JsString.falsy (JsString.trim (text line))); [exact IH | reflexivity].
Qed.

(** X18.  [formatTranscript] is determined by three equations: no line
    gives the empty string, one line gives its trimmed text, and the
    lines of two lists put one after the other give the two transcripts
    with one space between them, or the other one when one of them is
    empty. *)
Theorem formatTranscript_of_consecutive_lines :
  formatTranscript [] = EmptyString
  /\ (forall line : TranscriptLine, formatTranscript [line] = JsString.trim (text line))
  /\ (forall l1 l2 : list TranscriptLine,
         formatTranscript (l1 ++ l2) = glue (formatTranscript l1) (formatTranscript l2)).
Proof.
  split; [reflexivity|]. split.
  - intros line. unfold formatTranscript. cbn [map List.filter].
    destruct (JsString.trim (text line)); reflexivity.
  - intros l1 l2. unfold formatTranscript, glue. rewrite kept_app.
    rewrite !(join_falsy " " _ (kept_not_empty _)).
    set (k1 := List.filter _ (map _ l1)). set (k2 := List.filter _ (map _ l2)).
    destruct k1 as [|x k1]; [reflexivity|].
    destruct k2 as [|y k2]; [rewrite app_nil_r; reflexivity|].
    apply join_app; discriminate.
Qed.

(** *** The transcript has no white space around it *)

Lemma trimEnd_idempotent (s : string) :
  JsString.trimEnd (JsString.trimEnd s) = JsString.trimEnd s.
Proof.
  induction s as [|c s IH]; [reflexivity|]. cbn [JsString.trimEnd].
  destruct (JsString.trimEnd s) as [|d t] eqn:E.
  - destruct (JsString.is_space c) eqn:Hc; [reflexivity|].
    cbn [JsString.trimEnd]. rewrite Hc. reflexivity.
  - cbn [JsString.trimEnd]. cbn [JsString.trimEnd] in IH.
    destruct (JsString.trimEnd t) as [|d' t'] eqn:E'.
    + destruct (JsString.is_space d); [discriminate|]. rewrite IH. reflexivity.
    + rewrite IH. reflexivity.
Qed.

Lemma trimEnd_append (a b : string) :
  JsString.falsy (JsString.trimEnd b) = false ->
  JsString.trimEnd (a ++ b) = a ++ JsString.trimEnd b.
Proof.
  intros Hb. induction a as [|c a IH]; [reflexivity|].
  rewrite !append_cons. cbn [JsString.trimEnd]. rewrite IH.
  destruct (a ++ JsString.trimEnd b) eqn:E; [|reflexivity].
  pose proof (append_falsy a (JsString.trimEnd b)) as Hf. rewrite E, Hb, andb_false_r in Hf.
  discriminate.
Qed.

Lemma trimStart_starts (s : string) :
  match JsString.trimStart s with
  | EmptyString => True
  | String c _ => JsString.is_space c = false
  end.
Proof.
  induction s as [|c s IH]; [exact I|]. cbn [JsString.trimStart].
  destruct (JsString.is_space c) eqn:Hc; [exact IH | exact Hc].
Qed.

Lemma trimEnd_head (c : ascii) (s : string) :
  JsString.is_space c = false ->
  exists r, JsString.trimEnd (String c s) = String c r.
Proof.
  intros Hc. cbn [JsString.trimEnd]. destruct (JsString.trimEnd s).
  - rewrite Hc. eauto.
  - eauto.
Qed.

(** A text is tight when it starts with a character that is no white
    space and [trimEnd] leaves it as it is; [trim] then does too. *)
Lemma trim_is_tight (s : string) :
  JsString.falsy (JsString.trim s) = false ->
  (exists c r, JsString.trim s = String c r /\ JsString.is_space c = false)
  /\ JsString.trimEnd (JsString.trim s) = JsString.trim s.
Proof.
  intros Hne. split; [|apply trimEnd_idempotent].
  unfold JsString.trim in *. pose proof (trimStart_starts s) as Hs.
  destruct (JsString.trimStart s) as [|c y]; [discriminate|].
  destruct (trimEnd_head c y Hs) as (r & ->). eauto.
Qed.

Lemma join_is_tight (xs : list string) :
  xs <> [] ->
  Forall (fun t => (exists c r, t = String c r /\ JsString.is_space c = false)
                   /\ JsString.trimEnd t = t) xs ->
  (exists c r, JsString.join " " xs = String c r /\ JsString.is_space c = false)
  /\ JsString.trimEnd (JsString.join " " xs) = JsString.join " " xs.
Proof.
  intros Hne H. induction H as [|x xs [(c & r & -> & Hc) Hx] Hxs IH]; [contradiction|].
  destruct xs as [|y xs]; [split; [eauto | exact Hx]|].
  destruct (IH ltac:(discriminate)) as [(d & q & Hd & Hdc) Hend].
  change (JsString.join " " (String c r :: y :: xs))
    with (String c r ++ " " ++ JsString.join " " (y :: xs)).
  split.
  - rewrite append_cons. eauto.
  - rewrite <- append_assoc. rewrite trimEnd_append; rewrite Hend; [reflexivity|].
    rewrite Hd. reflexivity.
Qed.

(** X19.  The text [formatTranscript] returns has no white space at its
    start or at its end: trimming it changes nothing. *)
Theorem formatTranscript_is_trimmed (lines : list TranscriptLine) :
  JsString.trim (formatTranscript lines) = formatTranscript lines.
Proof.
  unfold formatTranscript.
  set (kept := List.filter _ (map _ lines)).
  assert (Hall : Forall (fun t => (exists c r, t = String c r /\ JsString.is_space c = false)
                                  /\ JsString.trimEnd t = t) kept).
  { subst kept. induction lines as [|line lines IH]; [constructor|].
    cbn [map List.filter]. rewrite length_falsy.
    destruct (JsString.falsy (JsString.trim (text line))) eqn:E; [exact IH|].
    cbn [negb]. constructor; [|exact IH]. exact (trim_is_tight (text line) E). }
  destruct kept as [|x kept]; [reflexivity|].
  destruct (join_is_tight (x :: kept) ltac:(discriminate) Hall) as [(c & r & Hj & Hc) Hend].
  unfold JsString.trim. rewrite Hj at 1. cbn [JsString.trimStart]. rewrite Hc, <- Hj.
  exact Hend.
Qed.

(** ** The error of a failed retrieval *)

Section LastError.

Variable env : Env.
Variables videoId lang : string.

(** The error a round keeps is one the primary strategy threw. *)
Lemma round_caught (attempt : Z) (w w' : World) (e : JsError) :
  primary_round env videoId lang attempt w = (Ok (Caught e), w') ->
  exists error, e = primary_failure error.
Proof.
  unfold primary_round. intros H.
  apply try_catch_ok_inv in H as [H | (e0 & w1 & Hb & H)].
  - apply bind_ok_inv in H as (u & w1 & _ & H).
    apply bind_ok_inv in H as (t & w2 & _ & H).
    apply bind_ok_inv in H as (u' & w3 & _ & H). discriminate.
  - assert (He : exists error, e0 = primary_failure error).
    { apply bind_throw_inv in Hb. destruct Hb as [Hb | (u & w2 & _ & Hb)].
      - destruct (backoff_step attempt w) as (w2 & Hd & _).
        pose proof (eq_trans (eq_sym Hd) Hb) as X. discriminate X.
      - apply bind_throw_inv in Hb. destruct Hb as [Hb | (t & w3 & _ & Hb)].
        + eapply primary_throws_only_failures. exact Hb.
        + apply bind_throw_inv in Hb. destruct Hb as [Hb | (u' & w4 & _ & Hb)].
          * destruct (cacheTranscript_ok env videoId lang t w3) as (w4 & Hc & _).
            pose proof (eq_trans (eq_sym Hc) Hb) as X. discriminate X.
          * discriminate. }
    destruct He as (error & ->). rewrite round_handler in H.
    injection H as <- _. eauto.
Qed.

(** After at least one round, the loop is exhausted with such an error. *)
Lemma loop_exhausted (n : nat) (attempt : Z) (lastError last' : option JsError) (w w' : World) :
  primary_loop env videoId lang (S n) attempt lastError w = (Ok (Exhausted last'), w') ->
  exists error, last' = Some (primary_failure error).
Proof.
  revert attempt lastError w. induction n as [|n IH]; intros attempt lastError w H.
  - cbn [primary_loop] in H. apply bind_ok_inv in H as ([t|e] & w1 & Hr & H); [discriminate|].
    injection H as <- _. destruct (round_caught _ _ _ _ Hr) as (error & ->). eauto.
  - change (primary_loop env videoId lang (S (S n)) attempt lastError w)
      with ((r <- primary_round env videoId lang attempt ;;
             match r with
             | Returned transcript => ret (LoopReturned transcript)
             | Caught error => primary_loop env videoId lang (S n) (attempt + 1) (Some error)
             end) w) in H.
    apply bind_ok_inv in H as ([t|e] & w1 & Hr & H); [discriminate|].
    exact (IH _ _ _ H).
Qed.

End LastError.

(** X20.  When [getTranscript] throws, the message of its error ends with
    the message of an error of the primary strategy, never with the one
    of the fallback, and never with the default [Unknown error]:
    [lastError] has been set by the time the fallback is tried. *)
Theorem retrieval_failure_reports_a_primary_error (env : Env) (videoId lang : string)
    (w w' : World) (e : JsError) :
  getTranscript env videoId lang w = (Throw e, w') ->
  (exists error : JsError,
      e = new_McpError InternalError
            ("Failed to retrieve transcript after multiple attempts: "
               ++ message (primary_failure error)))
  /\ e <> new_McpError InternalError
            ("Failed to retrieve transcript after multiple attempts: " ++ "Unknown error").
Proof.
  intros H.
  assert (He : exists error : JsError,
             e = new_McpError InternalError
                   ("Failed to retrieve transcript after multiple attempts: "
                      ++ message (primary_failure error))).
  { unfold getTranscript in H.
    apply bind_throw_inv in H. destruct H as [H | (cached & w0 & _ & H)].
    { destruct (getCachedTranscript_ok env videoId lang w) as (r & w1 & Hc & _).
      rewrite Hc in H. discriminate. }
    destruct (truthy cached); [discriminate|].
    unfold fetch_stages in H. change (Z.to_nat (maxRetries - 0)) with 3%nat in H.
    apply bind_throw_inv in H. destruct H as [H | (r & w1 & Hl & H)].
    { destruct (loop_never_throws env videoId lang 3 0 None w0) as (r & w1 & Hl).
      rewrite Hl in H. discriminate. }
    destruct r as [t|lastError]; [discriminate|].
    destruct (loop_exhausted env videoId lang 2 0 None lastError w0 w1 Hl) as (error & ->).
    exists error. unfold fallback_stage, try_catch in H.
    match type of H with
    | match ?b w1 with _ => _ end = _ => destruct (b w1) as [[t|e0] w2]
    end; [discriminate|].
    injection H as <- _. unfold lastError_message. rewrite primary_failure_message.
    reflexivity. }
  split; [exact He|].
  destruct He as (error & ->). unfold primary_failure. cbv zeta.
  destruct (_ || _)%bool; intros [= Heq]; revert Heq; vm_compute; discriminate.
Qed.

Lemma retrieval_failure_reports_a_primary_error_witness :
  exists error : JsError,
    new_McpError InternalError
      ("Failed to retrieve transcript after multiple attempts: "
         ++ "MCP error -32603: Primary transcript method failed: no captions")
    = new_McpError InternalError
        ("Failed to retrieve transcript after multiple attempts: "
           ++ message (primary_failure error)).
Proof.
  assert (H : getTranscript env_all_fail "dQw4w9WgXcQ" "en" fresh_world
              = (Throw (new_McpError InternalError
                          ("Failed to retrieve transcript after multiple attempts: "
                             ++ "MCP error -32603: Primary transcript method failed: no captions")),
                 snd (getTranscript env_all_fail "dQw4w9WgXcQ" "en" fresh_world)))
    by (vm_compute; reflexivity).
  exact (proj1 (retrieval_failure_reports_a_primary_error _ _ _ _ _ _ H)).
Defined.

(** ** What a lookup does to the files *)

(** X21.  A lookup never writes a file.  It leaves the files as they
    are, or it deletes the cache file of its pair; when it deletes, it
    returns nothing, so an entry that is returned is left in place; and
    it deletes only after a successful read. *)
Theorem lookup_keeps_or_deletes_its_file (env : Env) (videoId lang : string) (w : World) :
  let path := cacheFilePath env videoId lang in
  let w' := snd (getCachedTranscript env videoId lang w) in
  files w' = files w
  \/ (files w' = delete path (files w)
      /\ fst (getCachedTranscript env videoId lang w) = Ok None
      /\ (exists fileContent : string, files w !! path = Some fileContent)
      /\ readFile_error env (n_readFile w) = None
      /\ unlink_error env (n_unlink w) = None).
Proof.
  intros path w'. subst w'.
  destruct (getCachedTranscript env videoId lang w) as [r w'] eqn:H. cbn [fst snd].
  unfold getCachedTranscript in H.
  destruct (initializeCache_frame env w) as (w0 & Hi & [Hf Hn Hrd _ Hu]).
  rewrite (bind_ok _ _ _ _ _ Hi) in H. cbv zeta in H. fold path in H.
  unfold try_catch, bind at 1, fs_readFile in H.
  destruct (readFile_error env (n_readFile w0)) eqn:Hread;
    [injection H as <- <-; left; exact Hf|].
  destruct (files w0 !! path) as [fileContent|] eqn:Hfile; [|injection H as <- <-; left; exact Hf].
  unfold bind at 1, JSON_parse in H.
  destruct (Json.parse fileContent) as [cachedData|] eqn:Hp;
    [|injection H as <- <-; left; exact Hf].
  unfold ret at 1 in H. unfold bind at 1, call_Date_now in H. cbn [n_now tick_readFile] in H.
  destruct (Date_now env (n_now w0) - timestamp cachedData <? cacheTTL) eqn:Hfresh;
    [injection H as <- <-; left; exact Hf|].
  unfold bind, fs_unlink in H. cbn [n_unlink tick_now tick_readFile files] in H.
  destruct (unlink_error env (n_unlink w0)) eqn:Hunlink; [injection H as <- <-; left; exact Hf|].
  rewrite Hfile in H. injection H as <- <-. right. cbn [files set_files]. rewrite Hf.
  split; [reflexivity|]. split; [reflexivity|].
  rewrite <- Hf, <- Hrd, <- Hu. split; [eauto|]. split; [exact Hread | exact Hunlink].
Qed.
